(** * socketservertcl: the fd-passing socket server of [generic/socketserver.c]

    A shallow embedding of the C source and the properties of its port
    registry, its accept loop, its drain handler and its [socketserver]
    command.

    Layout of the development:
    - [Host]: what the platform headers and the Tcl library fix;
    - the data model ([socketserver_port], the registry as the list that
      the [nextPtr] links spell out);
    - the functions of the source, one definition each, over explicit
      results of the system calls they make;
    - [world]: the process around them (socketpairs, the Tcl event queue,
      channel handlers, acceptor threads), with one [step] per thing that
      can happen;
    - the theorems. *)

From Stdlib Require Import ZArith Lia.
From stdpp Require Import base list gmap strings pretty.

Local Open Scope Z_scope.

(** ** Host: platform constants and Tcl services *)

(** The header [socketserver.h] and the system headers are not part of the
    source file; what they fix is collected here and every definition is
    parametric in it. *)
Class Host := {
  (** value the command checks [object_magic] against *)
  SOCKETSERVER_OBJECT_MAGIC : Z;
  (** [errno] value of an interrupted system call *)
  EINTR : Z;
  (** [errno] of a read that found nothing on a non-blocking socket, and
      of a call on a descriptor that is not open *)
  EAGAIN : Z;
  EBADF : Z;
  SOL_SOCKET : Z;
  SCM_RIGHTS : Z;
  (** [CMSG_DATA(h) - (unsigned char * )h], the size of the aligned header *)
  CMSG_DATA_OFFSET : Z;
  (** whether the [Linux] macro is defined at build time *)
  Linux : bool;
  (** [Tcl_GetChannelName (Tcl_MakeFileChannel fd)]; [None] is [NULL] *)
  Tcl_GetChannelName : Z → option string;
}.

Definition TCL_OK : Z := 0.
Definition TCL_ERROR : Z := 1.

(** ** Data model *)

(** [socketserver_thread_args]: the write side of the socketpair and the
    TCP port ([in] is a keyword here, hence [in_]). *)
Record socketserver_thread_args := mk_targs {
  in_ : Z;
  port : Z;
}.

(** [socketserver_port], without [nextPtr]: the links are the order of the
    list that holds the entries.  Handles ([channel], [interp],
    [threadId]) are integers, [0] being [NULL]. *)
Record socketserver_port := mk_port {
  targs : socketserver_thread_args;
  out : Z;
  active : Z;
  have_channel : Z;
  channel : Z;
  interp : Z;
  threadId : Z;
  callback : option string;
  scriptLen : Z;
}.

Record socketserver_objectClientData := mk_cd {
  object_magic : Z;
  ports : list socketserver_port;
}.

Global Instance targs_eq_dec : EqDecision socketserver_thread_args.
Proof. solve_decision. Defined.

Global Instance port_eq_dec : EqDecision socketserver_port.
Proof. solve_decision. Defined.

(** What [memset(p, 0, sizeof( socketserver_port ))] leaves. *)
Definition zeroed_port : socketserver_port :=
  mk_port (mk_targs 0 0) 0 0 0 0 0 0 None 0.

Definition set_targs (t : socketserver_thread_args) (p : socketserver_port) :=
  mk_port t (out p) (active p) (have_channel p) (channel p) (interp p)
          (threadId p) (callback p) (scriptLen p).

Definition set_out (v : Z) (p : socketserver_port) :=
  mk_port (targs p) v (active p) (have_channel p) (channel p) (interp p)
          (threadId p) (callback p) (scriptLen p).

Definition set_active (v : Z) (p : socketserver_port) :=
  mk_port (targs p) (out p) v (have_channel p) (channel p) (interp p)
          (threadId p) (callback p) (scriptLen p).

Definition set_have_channel (v : Z) (p : socketserver_port) :=
  mk_port (targs p) (out p) (active p) v (channel p) (interp p)
          (threadId p) (callback p) (scriptLen p).

Definition set_channel (v : Z) (p : socketserver_port) :=
  mk_port (targs p) (out p) (active p) (have_channel p) v (interp p)
          (threadId p) (callback p) (scriptLen p).

(** The four assignments that open the [client] branch. *)
Definition set_consumer (ip tid : Z) (cb : string) (p : socketserver_port) :=
  mk_port (targs p) (out p) (active p) (have_channel p) (channel p) ip
          tid (Some cb) (Z.of_nat (String.length cb) + 80).

(** ** The port registry: [socketserver_getPort] *)

(** "Default port is the first allocated port". *)
Definition default_port (ps : list socketserver_port) (p : Z) : Z :=
  if p =? 0 then
    match ps with
    | first :: _ => port (targs first)
    | [] => p
    end
  else p.

(** The search loop; [i] counts the links followed so far, so that the
    result names the entry the returned pointer points to. *)
Fixpoint search_port (ps : list socketserver_port) (p : Z) (i : nat)
  : option nat :=
  match ps with
  | [] => None
  | e :: rest =>
      if port (targs e) =? p then Some i else search_port rest p (S i)
  end.

(** "Make a new entry": zeroed, then [targs.port] and [targs.in]. *)
Definition new_port (p : Z) : socketserver_port :=
  set_targs (mk_targs (-1) p) zeroed_port.

(** Walk to the last link and hang the new entry there, or make it the
    head of an empty list. *)
Fixpoint link_last (ps : list socketserver_port) (e : socketserver_port)
  : list socketserver_port :=
  match ps with
  | [] => [e]
  | p :: rest => p :: link_last rest e
  end.

(** The result is the registry after the call and the entry returned, as
    its position in the list ([None] is [NULL]).  [allocate] is the C
    integer flag. *)
Definition socketserver_getPort (cd : socketserver_objectClientData)
    (p : Z) (allocate : Z) : socketserver_objectClientData * option nat :=
  let p := default_port (ports cd) p in
  match search_port (ports cd) p 0 with
  | Some i => (cd, Some i)
  | None =>
      if allocate =? 0 then (cd, None)
      else (mk_cd (object_magic cd) (link_last (ports cd) (new_port p)),
            Some (length (ports cd)))
  end.

(** ** The acceptor thread: [send_fd] and [socketserver_thread] *)

(** What the thread does to the outside, in program order. *)
Inductive thread_action :=
  | ADebug (msg : string)          (* debug(msg) *)
  | ASocket                        (* socket(AF_INET, SOCK_STREAM, 0) *)
  | ABind (sin_port : Z)           (* bind to htons(port) *)
  | AListen                        (* listen(socket_desc, SOMAXCONN) *)
  | ASendingFd (fd : Z)            (* fprintf(stderr, "sending fd=%d\n") *)
  | ASendmsg (sock fd : Z)         (* sendmsg carrying fd as SCM_RIGHTS *)
  | AClose (fd : Z).               (* close(client_sock), Linux only *)

(** [send_fd], over the value [sendmsg] returned: 0 for success, 1 for
    error. *)
Definition send_fd (sendmsg_ret : Z) : Z :=
  if sendmsg_ret >? 0 then 0 else 1.

(** Results of the three calls that set the listening socket up. *)
Record startup_outcome := mk_startup {
  socket_ret : Z;
  bind_ret : Z;
  listen_ret : Z;
}.

(** Results of one turn of the loop: what [accept] returned, [errno]
    after it, and what [sendmsg] returns if the turn gets that far. *)
Record accept_outcome := mk_accept {
  client_sock : Z;
  accept_errno : Z;
  sendmsg_ret : Z;
}.

Inductive thread_state :=
  | Starting
  | Accepting (socket_desc : Z)
  | Exited (ret : Z).

(** How a turn of a C loop ends: around again, or out of the function. *)
Inductive loop_control :=
  | Continue
  | Return (ret : Z).

Section Acceptor.
Context `{Host}.

(** [htons] keeps the low 16 bits of the port. *)
Definition htons (p : Z) : Z := p mod 65536.

(** From the thread's entry to the [while (1)]. *)
Definition thread_startup (a : socketserver_thread_args)
    (o : startup_outcome) : thread_state * list thread_action :=
  let created :=
    [ASocket]
      ++ (if socket_ret o =? -1 then [ADebug "Could not create socket"]
          else [])
      ++ [ADebug "Socket created"; ABind (htons (port a))] in
  if bind_ret o <? 0 then
    (Exited 1, created ++ [ADebug "bind failed"])
  else
    (Accepting (socket_ret o),
     created ++ [ADebug "bind done"; AListen;
                 ADebug "Waiting for incoming connections..."]).

(** The body of the [while (1)], for the thread whose socketpair end is
    [sock]. *)
Definition accept_loop_body (sock : Z) (o : accept_outcome)
  : list thread_action * loop_control :=
  if (client_sock o <? 0) && negb (accept_errno o =? EINTR) then
    ([ADebug "accept failed"], Continue)
  else if negb (client_sock o =? -1) then
    ([ADebug "Connection accepted";
      ASendingFd (client_sock o);
      ASendmsg sock (client_sock o);
      ADebug (if send_fd (sendmsg_ret o) =? 0 then "Sent fd."
              else "Send fd failed")]
       ++ (if Linux then [AClose (client_sock o)] else []),
     Continue)
  else ([], Continue).

(** One transition of the thread.  An input of the wrong kind for the
    state the thread is in leaves it where it is. *)
Inductive thread_input :=
  | InStartup (o : startup_outcome)
  | InAccept (o : accept_outcome).

Definition thread_step (a : socketserver_thread_args) (st : thread_state)
    (i : thread_input) : thread_state * list thread_action :=
  match st, i with
  | Starting, InStartup o => thread_startup a o
  | Accepting sd, InAccept o =>
      match accept_loop_body (in_ a) o with
      | (acts, Continue) => (Accepting sd, acts)
      | (acts, Return r) => (Exited r, acts)
      end
  | _, _ => (st, [])
  end.

(** The thread over a sequence of inputs, with everything it did. *)
Fixpoint thread_run (a : socketserver_thread_args) (st : thread_state)
    (ins : list thread_input) : thread_state * list thread_action :=
  match ins with
  | [] => (st, [])
  | i :: rest =>
      let '(st1, acts1) := thread_step a st i in
      let '(st2, acts2) := thread_run a st1 rest in
      (st2, acts1 ++ acts2)
  end.

(** [socketserver_thread] with argument [a]: the startup under [o], then
    one turn of the loop for each outcome in [turns]. *)
Definition socketserver_thread (a : socketserver_thread_args)
    (o : startup_outcome) (turns : list accept_outcome)
  : thread_state * list thread_action :=
  thread_run a Starting (InStartup o :: (InAccept <$> turns)).
End Acceptor.

(** ** The consumer side: [recv_fd] and [socketserver_EventProc] *)

(** One control-message header with its payload of [int]s. *)
Record cmsghdr := mk_cmsg {
  cmsg_len : Z;
  cmsg_level : Z;
  cmsg_type : Z;
  cmsg_data : list Z;
}.

(** What [recvmsg] did: returned [-1] with an [errno], or a byte count
    with the control headers it filled in. *)
Inductive recvmsg_result :=
  | RecvFail (err : Z)
  | RecvDone (n : Z) (control : list cmsghdr).

(** How the guarded drain ended. *)
Inductive drain_result :=
  | Ignored                          (* guard not armed; TCL_OK *)
  | NoData                           (* recv_fd gave -1; TCL_OK *)
  | NoChannelName (fd : Z)           (* TCL_ERROR *)
  | Evaluated (fd : Z) (script : string).  (* Tcl_Eval's return code *)

(** Arithmetic of [size_t] and the conversion to [int] (LP64). *)
Definition wrap_size_t (z : Z) : Z := z mod 2 ^ 64.
Definition to_int (z : Z) : Z := (z + 2 ^ 31) mod 2 ^ 32 - 2 ^ 31.

Section Consumer.
Context `{Host}.

(** [count] of the source. *)
Definition fd_count (h : cmsghdr) : Z :=
  to_int (wrap_size_t (cmsg_len h - CMSG_DATA_OFFSET) / 4).

(** The [for] loop over the control headers.  A payload shorter than
    its header claims reads as 0. *)
Fixpoint scan_headers (hs : list cmsghdr) : Z :=
  match hs with
  | [] => -1
  | h :: rest =>
      if (cmsg_level h =? SOL_SOCKET) && (cmsg_type h =? SCM_RIGHTS) then
        if fd_count h >? 0 then nth 0 (cmsg_data h) 0
        else scan_headers rest
      else scan_headers rest
  end.

(** [recv_fd], over what [recvmsg] did: -1 for error or the fd. *)
Definition recv_fd (r : recvmsg_result) : Z :=
  match r with
  | RecvFail _ => -1
  | RecvDone _ hs => scan_headers hs
  end.

(** The script [strcpy]/[strcat] build. *)
Definition callback_script (data : socketserver_port) (name : string)
  : string :=
  default "" (callback data) +:+ " " +:+ name.

(** [socketserver_EventProc] on the entry the event points to; [r] is
    what [recvmsg] does if the handler gets to call it. *)
Definition socketserver_EventProc (r : recvmsg_result)
    (data : socketserver_port) : socketserver_port * drain_result :=
  if active data =? 0 then (data, Ignored)
  else
    let data := set_active 0 data in
    let fd := recv_fd r in
    if fd =? -1 then (set_active 1 data, NoData)
    else
      match Tcl_GetChannelName fd with
      | None | Some "" => (data, NoChannelName fd)
      | Some name => (data, Evaluated fd (callback_script data name))
      end.

(** The handler's return code; [eval_rc] is what [Tcl_Eval] gave. *)
Definition drain_rc (res : drain_result) (eval_rc : Z) : Z :=
  match res with
  | Ignored | NoData => TCL_OK
  | NoChannelName _ => TCL_ERROR
  | Evaluated _ _ => eval_rc
  end.
End Consumer.


(** ** The process around the code *)

(** An acceptor thread: the arguments [pthread_create] passed it and
    where it is. *)
Record thread := mk_thread {
  t_args : socketserver_thread_args;
  t_state : thread_state;
}.

(** One [Tcl_Eval] of a callback script: the registry entry it was made
    for, the descriptor received and the script. *)
Record delivery := mk_delivery {
  d_entry : nat;
  d_fd : Z;
  d_script : string;
}.

(** The state of the process.
    - [peer] and [inflight] are the kernel's view of the socketpairs: the
      read end each write end is connected to, and per read end the
      descriptors sent and not yet received, oldest first.  A descriptor
      in flight is identified with the connection it refers to.
    - [nonblock]: descriptors put in non-blocking mode by [fcntl].
    - [tcl_channels]: the descriptors [Tcl_MakeFileChannel] wrapped for the
      readiness watch; the handle of a channel is its position plus one.
    - [handlers]: [Tcl_CreateChannelHandler] calls, as channel handle and
      client data (the registry entry).
    - [events]: the Tcl event queue, as target thread and registry entry.
    - [evals]: the callback scripts evaluated so far, oldest first. *)
Record world := mk_world {
  registry : socketserver_objectClientData;
  peer : gmap Z Z;
  inflight : gmap Z (list Z);
  nonblock : list Z;
  tcl_channels : list Z;
  handlers : list (Z * nat);
  events : list (Z * nat);
  threads : list thread;
  evals : list delivery;
}.

Definition set_registry (cd : socketserver_objectClientData) (w : world) :=
  mk_world cd (peer w) (inflight w) (nonblock w) (tcl_channels w)
           (handlers w) (events w) (threads w) (evals w).

Definition set_entry (i : nat) (e : socketserver_port) (w : world) :=
  set_registry
    (mk_cd (object_magic (registry w)) (<[i:=e]> (ports (registry w)))) w.

Definition set_inflight (m : gmap Z (list Z)) (w : world) :=
  mk_world (registry w) (peer w) m (nonblock w) (tcl_channels w)
           (handlers w) (events w) (threads w) (evals w).

Definition set_events (q : list (Z * nat)) (w : world) :=
  mk_world (registry w) (peer w) (inflight w) (nonblock w) (tcl_channels w)
           (handlers w) q (threads w) (evals w).

Definition set_threads (ts : list thread) (w : world) :=
  mk_world (registry w) (peer w) (inflight w) (nonblock w) (tcl_channels w)
           (handlers w) (events w) ts (evals w).

Definition set_evals (ds : list delivery) (w : world) :=
  mk_world (registry w) (peer w) (inflight w) (nonblock w) (tcl_channels w)
           (handlers w) (events w) (threads w) ds.

(** [socketpair] succeeded with the descriptors [s0], [s1]: an empty
    channel from [s0] to [s1]. *)
Definition os_socketpair (s0 s1 : Z) (w : world) :=
  mk_world (registry w) (<[s0:=s1]> (peer w)) (<[s1:=[]]> (inflight w))
           (nonblock w) (tcl_channels w) (handlers w) (events w)
           (threads w) (evals w).

(** [pthread_create] succeeded. *)
Definition os_spawn (a : socketserver_thread_args) (w : world) :=
  set_threads (threads w ++ [mk_thread a Starting]) w.

(** [fcntl(fd, F_SETFL, ... | O_NONBLOCK)]. *)
Definition os_set_nonblock (fd : Z) (w : world) :=
  mk_world (registry w) (peer w) (inflight w) (nonblock w ++ [fd])
           (tcl_channels w) (handlers w) (events w) (threads w) (evals w).

(** [Tcl_MakeFileChannel] for the readiness watch: the new handle and the
    world with the channel in it. *)
Definition tcl_make_channel (fd : Z) (w : world) : Z * world :=
  (Z.of_nat (length (tcl_channels w)) + 1,
   mk_world (registry w) (peer w) (inflight w) (nonblock w)
            (tcl_channels w ++ [fd]) (handlers w) (events w) (threads w)
            (evals w)).

(** [Tcl_CreateChannelHandler (chan, TCL_READABLE, socketserver_readable,
    data)]. *)
Definition tcl_create_handler (chan : Z) (i : nat) (w : world) :=
  mk_world (registry w) (peer w) (inflight w) (nonblock w) (tcl_channels w)
           (handlers w ++ [(chan, i)]) (events w) (threads w) (evals w).

(** [socketserver_readable]: queue an event for the entry at the tail of
    the queue of the thread the entry names, and alert that thread. *)
Definition socketserver_readable (i : nat) (w : world) : world :=
  match ports (registry w) !! i with
  | Some data => set_events (events w ++ [(threadId data, i)]) w
  | None => w
  end.

Section Kernel.
Context `{Host}.

(** The control header the kernel builds for one passed descriptor. *)
Definition fd_header (d : Z) : cmsghdr :=
  mk_cmsg (CMSG_DATA_OFFSET + 4) SOL_SOCKET SCM_RIGHTS [d].

(** [recvmsg] on the non-blocking read end [fd]: the oldest message in
    flight, if there is one. *)
Definition os_recvmsg (fd : Z) (w : world) : recvmsg_result * world :=
  match inflight w !! fd with
  | None => (RecvFail EBADF, w)
  | Some [] => (RecvFail EAGAIN, w)
  | Some (d :: q) =>
      (RecvDone 1 [fd_header d], set_inflight (<[fd:=q]> (inflight w)) w)
  end.

(** [sendmsg] of descriptor [d] on the write end [sock]; [ok] is whether
    the transport takes the message.  The value returned and the world
    after. *)
Definition os_sendmsg (sock d : Z) (ok : bool) (w : world) : Z * world :=
  match peer w !! sock with
  | Some r =>
      if ok && (0 <=? d) then
        (1, set_inflight
              (<[r := default [] (inflight w !! r) ++ [d]]> (inflight w)) w)
      else (-1, w)
  | None => (-1, w)
  end.

(** The drain handler against the world: [socketserver_EventProc] on entry
    [i], with [recvmsg] served by the kernel and the script evaluated
    recorded. *)
Definition drain (i : nat) (w : world) : world * drain_result :=
  match ports (registry w) !! i with
  | None => (w, Ignored)
  | Some data =>
      let '(r, w1) := os_recvmsg (out data) w in
      match socketserver_EventProc r data with
      | (_, Ignored) => (w, Ignored)
      | (data', Evaluated fd script) =>
          (set_evals (evals w1 ++ [mk_delivery i fd script])
                     (set_entry i data' w1),
           Evaluated fd script)
      | (data', res) => (set_entry i data' w1, res)
      end
  end.
End Kernel.

(** ** The command: [socketserverObjCmd] *)

(** A word of the command: its string and, when the string is an
    integer, the value [Tcl_GetIntFromObj] finds. *)
Record Tcl_Obj := mk_obj {
  bytes : string;
  intRep : option Z;
}.

Inductive options := OPT_CLIENT | OPT_SERVER.

(** [Tcl_GetIndexFromObj] with [TCL_EXACT] over the table
    [{ "client", "server" }].  On one of these two words the scan of the
    table ends at the exact match, inside the table.  The table of the
    source has no terminating [NULL]: on any other word the scan runs
    past its second entry, and what the call does then is not fixed by
    the source.  [None] is the answer a terminated table would give; it
    lets a history contain such a command, as one that is refused and
    changes nothing.  The theorems on what a command returns are stated
    for the two words of the table. *)
Definition Tcl_GetIndexFromObj (o : Tcl_Obj) : option options :=
  if String.eqb (bytes o) "client" then Some OPT_CLIENT
  else if String.eqb (bytes o) "server" then Some OPT_SERVER
  else None.

Definition Tcl_GetIntFromObj (o : Tcl_Obj) : option Z := intRep o.
Definition Tcl_GetString (o : Tcl_Obj) : string := bytes o.

(** What the system gives the [server] branch: the two descriptors of
    [socketpair] ([None] when it fails) and the value of
    [pthread_create]. *)
Record os_outcome := mk_os {
  socketpair_ret : option (Z * Z);
  pthread_create_ret : Z;
}.

(** The command's return code and the message it left with
    [Tcl_AddErrorInfo] or [Tcl_WrongNumArgs], if any. *)
Record cmd_result := mk_result {
  rc : Z;
  errorInfo : option string;
}.

Definition cmd_ok : cmd_result := mk_result TCL_OK None.
Definition cmd_error (msg : string) : cmd_result :=
  mk_result TCL_ERROR (Some msg).

Definition usage : string := "server port | client [-port N] handlerProc".

Section Command.
Context `{Host}.

(** The entry a returned pointer points to; [NULL] has none. *)
Definition entry_at (cd : socketserver_objectClientData) (r : option nat)
  : option (nat * socketserver_port) :=
  i ← r; data ← ports cd !! i; Some (i, data).

(** [case OPT_SERVER], from the lock on. *)
Definition server_locked (p : Z) (os : os_outcome) (w : world)
  : world * cmd_result :=
  let '(cd1, r) := socketserver_getPort (registry w) p 1 in
  let w := set_registry cd1 w in
  match entry_at cd1 r with
  | None => (w, cmd_error "no entry")  (* not reached: allocate is set *)
  | Some (i, data) =>
      if in_ (targs data) =? -1 then
        match socketpair_ret os with
        | None => (w, cmd_error "Failed to create thread to read socketpipe")
        | Some (s0, s1) =>
            let data := set_out s1
                          (set_targs (mk_targs s0 (port (targs data))) data) in
            let w := os_socketpair s0 s1 (set_entry i data w) in
            if pthread_create_ret os =? 0 then
              (os_spawn (targs data) w, cmd_ok)
            else
              (w, cmd_error "Failed to create thread to read socketpipe")
        end
      else (w, cmd_ok)
  end.

(** [case OPT_CLIENT], from the lock on, for the interpreter [ip] running
    in thread [tid]. *)
Definition client_locked (ip tid : Z) (p : Z) (cb : string) (w : world)
  : world * cmd_result :=
  let '(cd1, r) := socketserver_getPort (registry w) p 0 in
  match entry_at cd1 r with
  | None => (w, cmd_error "Could not find socketserver structure for port")
  | Some (i, data) =>
      let data := set_consumer ip tid cb data in
      let w := os_set_nonblock (out data) w in
      let '(data, w) :=
        if have_channel data =? 0 then
          let '(chan, w) := tcl_make_channel (out data) w in
          let data := set_have_channel 0 (set_channel chan data) in
          (data, tcl_create_handler chan i w)
        else (data, w) in
      let data := set_active 1 data in
      let w := set_entry i data w in
      (socketserver_readable i w, cmd_ok)
  end.

(** The words of a [client] command: port and callback name. *)
Definition client_args (objv : list Tcl_Obj) : option (Z * string) + string :=
  match objv with
  | [_; _; _; o3; o4] =>
      match Tcl_GetIntFromObj o3 with
      | None => inr "problem getting port number as integer"
      | Some p => inl (Some (p, Tcl_GetString o4))
      end
  | [_; _; o2] => inl (Some (0, Tcl_GetString o2))
  | _ => inl None
  end.

(** [socketserverObjCmd] for client data [registry w], interpreter [ip]
    and calling thread [tid].  The source reads [objv[1]] before any test
    of [objc]: a command of one word makes it read past [objv], and is
    taken here, like a word that is no option, as a refused command. *)
Definition socketserverObjCmd (ip tid : Z) (objv : list Tcl_Obj)
    (os : os_outcome) (w : world) : world * cmd_result :=
  match objv !! 1%nat ≫= Tcl_GetIndexFromObj with
  | None => (w, mk_result TCL_ERROR None)
  | Some opt =>
      if negb (object_magic (registry w) =? SOCKETSERVER_OBJECT_MAGIC) then
        (w, cmd_error "Incorrect magic value on internal state")
      else
        match opt with
        | OPT_SERVER =>
            match objv with
            | [_; _; o2] =>
                match Tcl_GetIntFromObj o2 with
                | None =>
                    (w, cmd_error "problem getting port number as integer")
                | Some p => server_locked p os w
                end
            | _ => (w, cmd_error usage)
            end
        | OPT_CLIENT =>
            match client_args objv with
            | inr msg => (w, cmd_error msg)
            | inl None => (w, cmd_error usage)
            | inl (Some (p, cb)) => client_locked ip tid p cb w
            end
        end
  end.
End Command.

(** ** Everything that can happen, one step at a time *)

(** - [LCmd]: the script runs a [socketserver] command;
    - [LStart]: thread [t] gets from its entry point to its loop;
    - [LAccept]: thread [t] makes one turn of its loop, [accept] returning
      [cs] with [errno] left at [err], the transport taking the message or
      not ([ok]);
    - [LReadable]: Tcl calls the channel handler number [h] (also when
      nothing is there to read: notification may be spurious);
    - [LDispatch]: Tcl services the event at position [k] of the queue
      (position 0 when a single thread consumes). *)
Inductive label :=
  | LCmd (ip tid : Z) (objv : list Tcl_Obj) (os : os_outcome)
  | LStart (t : nat) (o : startup_outcome)
  | LAccept (t : nat) (cs err : Z) (ok : bool)
  | LReadable (h : nat)
  | LDispatch (k : nat).

Section Process.
Context `{Host}.

Definition is_sendmsg (a : thread_action) : bool :=
  match a with ASendmsg _ _ => true | _ => false end.

(** A turn of the loop of thread [t].  The loop body decides whether
    [sendmsg] is called; the kernel decides what it returns. *)
Definition accept_turn (t : nat) (cs err : Z) (ok : bool) (w : world)
  : world :=
  match threads w !! t with
  | Some (mk_thread a (Accepting sd)) =>
      let '(ret, w_sent) := os_sendmsg (in_ a) cs ok w in
      let '(st, acts) :=
        thread_step a (Accepting sd) (InAccept (mk_accept cs err ret)) in
      let w1 := if existsb is_sendmsg acts then w_sent else w in
      set_threads (<[t := mk_thread a st]> (threads w1)) w1
  | _ => w
  end.

Definition start_turn (t : nat) (o : startup_outcome) (w : world) : world :=
  match threads w !! t with
  | Some (mk_thread a Starting) =>
      let '(st, _) := thread_step a Starting (InStartup o) in
      set_threads (<[t := mk_thread a st]> (threads w)) w
  | _ => w
  end.

Definition step (w : world) (l : label) : world :=
  match l with
  | LCmd ip tid objv os => fst (socketserverObjCmd ip tid objv os w)
  | LStart t o => start_turn t o w
  | LAccept t cs err ok => accept_turn t cs err ok w
  | LReadable h =>
      match handlers w !! h with
      | Some (_, i) => socketserver_readable i w
      | None => w
      end
  | LDispatch k =>
      match events w !! k with
      | Some (_, i) => fst (drain i (set_events (delete k (events w)) w))
      | None => w
      end
  end.

Definition run (w : world) (ls : list label) : world := fold_left step ls w.

(** The process before any command: a client data block with the right
    magic and no port. *)
Definition initial_world : world :=
  mk_world (mk_cd SOCKETSERVER_OBJECT_MAGIC []) ∅ ∅ [] [] [] [] [] [].
End Process.

(** Words of the commands used in statements. *)
Definition word (s : string) : Tcl_Obj := mk_obj s None.
Definition int_word (s : string) (z : Z) : Tcl_Obj := mk_obj s (Some z).

(** [socketserver::socket server <p>]; [ps] is [p] as the script spells
    it. *)
Definition server_words (ps : string) (p : Z) : list Tcl_Obj :=
  [word "::socketserver::socket"; word "server"; int_word ps p].

(** [socketserver::socket client -port <p> <cb>] and
    [socketserver::socket client <cb>]. *)
Definition client_port_words (ps : string) (p : Z) (cb : string)
  : list Tcl_Obj :=
  [word "::socketserver::socket"; word "client"; word "-port";
   int_word ps p; word cb].

Definition client_words (cb : string) : list Tcl_Obj :=
  [word "::socketserver::socket"; word "client"; word cb].

(** Whether a step is a [client] registration (a command whose option
    word is [client]). *)
Definition is_client_cmd (l : label) : bool :=
  match l with
  | LCmd _ _ objv _ =>
      match objv !! 1%nat ≫= Tcl_GetIndexFromObj with
      | Some OPT_CLIENT => true
      | _ => false
      end
  | _ => false
  end.

(** Whether a step is a well-formed [server] registration whose port
    word reads [p]. *)
Definition is_server_cmd_for (p : Z) (l : label) : bool :=
  match l with
  | LCmd _ _ [_; o1; o2] _ =>
      match Tcl_GetIndexFromObj o1, Tcl_GetIntFromObj o2 with
      | Some OPT_SERVER, Some q => q =? p
      | _, _ => false
      end
  | _ => false
  end.

(** The ports of the registry, entry by entry. *)
Definition keys (w : world) : list Z :=
  (λ e, port (targs e)) <$> ports (registry w).

(** The guards of the registry, entry by entry, and how many are armed. *)
Definition guards (w : world) : list Z := active <$> ports (registry w).

Definition armed (w : world) : nat :=
  length (filter (λ a, a ≠ 0) (guards w)).


(** Whether port [rp] has its socketpair: the entry the lookup returns
    for [rp] is there and its [targs.in] is not -1.  This is the test
    [server] makes on the entry before it creates anything. *)
Definition has_socketpair (rp : Z) (w : world) : bool :=
  match search_port (ports (registry w)) rp 0 with
  | Some i =>
      match ports (registry w) !! i with
      | Some data => negb (in_ (targs data) =? -1)
      | None => false
      end
  | None => false
  end.

(** The ports the acceptor threads were started for, thread by thread. *)
Definition thread_ports (w : world) : list Z :=
  (λ t, port (t_args t)) <$> threads w.

(** Whether [socketpair], where a step calls it and it succeeds, keeps to
    its contract: the descriptor it hands out for the thread is not
    negative. *)
Definition socketpair_valid (l : label) : bool :=
  match l with
  | LCmd _ _ _ os =>
      match socketpair_ret os with
      | Some (s0, _) => 0 <=? s0
      | None => true
      end
  | _ => true
  end.

(** Scenes of a run: port [p] served with the socketpair [(s0, s1)] and
    its thread up on listening socket [sd]; the connections [fds]
    accepted in order by thread [t]; and [n] times over a [client]
    registration of [cb] followed by the dispatch of the event it
    queued. *)
Definition serve (ip tid : Z) (ps : string) (p s0 s1 sd : Z) : list label :=
  [LCmd ip tid (server_words ps p) (mk_os (Some (s0, s1)) 0);
   LStart 0 (mk_startup sd 0 0)].

Definition accept_all (t : nat) (fds : list Z) : list label :=
  (λ fd, LAccept t fd 0 true) <$> fds.

Definition register_and_dispatch (ip tid : Z) (ps : string) (p : Z)
    (cb : string) (n : nat) : list label :=
  mjoin (replicate n [LCmd ip tid (client_port_words ps p cb) (mk_os None 0);
                      LDispatch 0]).

(** The other order, once per connection in [fds]: the consumer
    registers and the event of the registration is dispatched while
    nothing is there; then the connection is accepted, Tcl notifies the
    first channel handler and the event is dispatched. *)
Definition register_then_accept (ip tid : Z) (ps : string) (p : Z)
    (cb : string) (fds : list Z) : list label :=
  fds ≫= (λ fd, [LCmd ip tid (client_port_words ps p cb) (mk_os None 0);
                 LDispatch 0;
                 LAccept 0 fd 0 true;
                 LReadable 0;
                 LDispatch 0]).

(** The stream handle a delivered descriptor gets, and the delivery of
    descriptor [fd] to callback [cb] for entry [i]. *)
Definition handle_of `{Host} (fd : Z) : string :=
  default "" (Tcl_GetChannelName fd).

Definition delivery_of `{Host} (i : nat) (cb : string) (fd : Z) : delivery :=
  mk_delivery i fd (cb +:+ " " +:+ handle_of fd).

(** The process serving the single port [p] over the socketpair
    [(s0, s1)], its thread in the accept loop, the event queue empty, [q]
    in flight and [ds] delivered so far. *)
Definition serving `{Host} (w : world) (p s0 s1 sd : Z) (q : list Z)
    (ds : list delivery) : Prop :=
  object_magic (registry w) = SOCKETSERVER_OBJECT_MAGIC ∧
  (∃ e, ports (registry w) = [e] ∧ targs e = mk_targs s0 p ∧ out e = s1 ∧
        have_channel e = 0) ∧
  peer w !! s0 = Some s1 ∧
  inflight w !! s1 = Some q ∧
  threads w = [mk_thread (mk_targs s0 p) (Accepting sd)] ∧
  events w = [] ∧
  evals w = ds ∧
  Forall (λ hc : Z * nat, hc.2 = 0%nat) (handlers w).

(** ** A concrete host

    Linux on x86-64 with Tcl's Unix channel driver, which names a file
    channel after its descriptor.  The magic number is the header's and is
    not in the source file; any value does. *)
Definition unix_channel_name (fd : Z) : option string :=
  Some ("file" +:+ pretty fd).

Definition linux_host : Host := {|
  SOCKETSERVER_OBJECT_MAGIC := 0x5ec7;
  EINTR := 4;
  EAGAIN := 11;
  EBADF := 9;
  SOL_SOCKET := 1;
  SCM_RIGHTS := 1;
  CMSG_DATA_OFFSET := 16;
  Linux := true;
  Tcl_GetChannelName := unix_channel_name;
|}.

(** ** Vocabulary of the further properties *)

(** Whether [recv_fd] takes its descriptor from the header [h]: a
    [SCM_RIGHTS] header of [SOL_SOCKET] with room for one [int] at
    least. *)
Definition carries_fd `{Host} (h : cmsghdr) : bool :=
  (cmsg_level h =? SOL_SOCKET) && (cmsg_type h =? SCM_RIGHTS) &&
  (fd_count h >? 0).

(** The descriptors a trace of the thread passed to [sendmsg], the
    sockets it sent them on, and the descriptors it closed, in order. *)
Definition sent_fds (acts : list thread_action) : list Z :=
  acts ≫= (λ a, match a with ASendmsg _ fd => [fd] | _ => [] end).

Definition sent_socks (acts : list thread_action) : list Z :=
  acts ≫= (λ a, match a with ASendmsg sock _ => [sock] | _ => [] end).

Definition closed_fds (acts : list thread_action) : list Z :=
  acts ≫= (λ a, match a with AClose fd => [fd] | _ => [] end).

(** The TCP ports a trace of the thread bound. *)
Definition bound_ports (acts : list thread_action) : list Z :=
  acts ≫= (λ a, match a with ABind p => [p] | _ => [] end).


(** Whether a step is a well-formed [server] registration, whatever its
    port. *)
Definition is_server_cmd (l : label) : bool :=
  match l with
  | LCmd _ _ [_; o1; o2] _ =>
      match Tcl_GetIndexFromObj o1, Tcl_GetIntFromObj o2 with
      | Some OPT_SERVER, Some _ => true
      | _, _ => false
      end
  | _ => false
  end.

(** The process serving the single port [p] over the socketpair
    [(s0, s1)] with its thread in the accept loop and [q] in flight,
    whatever the consumer has registered and whatever is queued. *)
Definition piping `{Host} (w : world) (p s0 s1 sd : Z) (q : list Z) : Prop :=
  object_magic (registry w) = SOCKETSERVER_OBJECT_MAGIC ∧
  (∃ e, ports (registry w) = [e] ∧ targs e = mk_targs s0 p ∧ out e = s1) ∧
  peer w !! s0 = Some s1 ∧
  inflight w !! s1 = Some q ∧
  Forall (λ d, 0 ≤ d) q ∧
  threads w = [mk_thread (mk_targs s0 p) (Accepting sd)].

(** What holds of every entry of a registry the process can reach: the
    guard is 0 or 1, and an entry whose guard is up has its consumer
    recorded, with the script length the registration computed. *)
Definition entry_ok (e : socketserver_port) : Prop :=
  (active e = 0 ∨ active e = 1) ∧
  (active e ≠ 0 → ∃ cb, callback e = Some cb) ∧
  (∀ cb, callback e = Some cb →
         scriptLen e = Z.of_nat (String.length cb) + 80).

(** A host like [linux_host] whose Tcl has no name for a channel. *)
Definition nameless_host : Host := {|
  SOCKETSERVER_OBJECT_MAGIC := 0x5ec7;
  EINTR := 4;
  EAGAIN := 11;
  EBADF := 9;
  SOL_SOCKET := 1;
  SCM_RIGHTS := 1;
  CMSG_DATA_OFFSET := 16;
  Linux := true;
  Tcl_GetChannelName := λ _, None;
|}.

(** * Properties *)

(** ** The registry *)

Lemma link_last_app ps e : link_last ps e = ps ++ [e].
Proof. induction ps as [|p ps IH]; simpl; [done | by rewrite IH]. Qed.

(** The search returns the first entry with the port, counted from [k]. *)
Lemma search_port_first ps p k j e :
  ps !! j = Some e →
  port (targs e) = p →
  (∀ j' e', (j' < j)%nat → ps !! j' = Some e' → port (targs e') ≠ p) →
  search_port ps p k = Some (k + j)%nat.
Proof.
  revert k j. induction ps as [|a ps IH]; intros k j Hj Hp Hfirst.
  - done.
  - destruct j as [|j]; simpl in *.
    + simplify_eq. rewrite Z.eqb_refl. f_equal. lia.
    + destruct (Z.eqb_spec (port (targs a)) p) as [Heq|Hne].
      * exfalso. eapply (Hfirst 0%nat a); [lia | done | done].
      * rewrite (IH (S k) j); [f_equal; lia | done | done |].
        intros j' e' Hlt Hl. apply (Hfirst (S j') e'); [lia | done].
Qed.

Lemma search_port_none ps p k :
  (∀ e, e ∈ ps → port (targs e) ≠ p) → search_port ps p k = None.
Proof.
  revert k. induction ps as [|a ps IH]; intros k Hno; simpl; [done|].
  destruct (Z.eqb_spec (port (targs a)) p) as [Heq|Hne].
  - exfalso. apply (Hno a); [left | done].
  - apply IH. intros e He. apply Hno. by right.
Qed.

Lemma search_port_some ps p k i :
  search_port ps p k = Some i →
  ∃ j e, i = (k + j)%nat ∧ ps !! j = Some e ∧ port (targs e) = p.
Proof.
  revert k. induction ps as [|a ps IH]; intros k Hs; simpl in *; [done|].
  destruct (Z.eqb_spec (port (targs a)) p) as [Heq|Hne].
  - simplify_eq. exists 0%nat, a. split_and!; [lia | done | done].
  - destruct (IH _ Hs) as (j & e & -> & Hj & Hp).
    exists (S j), e. split_and!; [lia | done | done].
Qed.

Lemma search_port_none_inv ps p k :
  search_port ps p k = None → ∀ e, e ∈ ps → port (targs e) ≠ p.
Proof.
  revert k. induction ps as [|a ps IH]; intros k Hs e He; simpl in *.
  - by apply elem_of_nil in He.
  - destruct (Z.eqb_spec (port (targs a)) p) as [Heq|Hne]; [done|].
    apply elem_of_cons in He as [->|He]; [done | by eapply IH].
Qed.

(** C5. The registry lookup resolves port 0 to the port of the first
    entry when there is one and keeps 0 otherwise; it returns the first
    entry whose port is the resolved port and leaves the registry as it
    is; when no entry has that port, with [allocate] set it appends an
    entry that is all zeroes except for the resolved port and the marker
    [-1] for "no socketpair yet" and returns it, and with [allocate] clear
    it returns [NULL] and leaves the registry as it is. *)
Theorem getPort_lookup (cd : socketserver_objectClientData) (p allocate : Z) :
  let rp := default_port (ports cd) p in
  (p ≠ 0 → rp = p) ∧
  (p = 0 → ports cd = [] → rp = 0) ∧
  (p = 0 → ∀ e rest, ports cd = e :: rest → rp = port (targs e)) ∧
  (∀ i e,
     ports cd !! i = Some e →
     port (targs e) = rp →
     (∀ j e', (j < i)%nat → ports cd !! j = Some e' →
              port (targs e') ≠ rp) →
     socketserver_getPort cd p allocate = (cd, Some i)) ∧
  ((∀ e, e ∈ ports cd → port (targs e) ≠ rp) →
     (allocate ≠ 0 →
        socketserver_getPort cd p allocate =
          (mk_cd (object_magic cd)
                 (ports cd ++
                    [mk_port (mk_targs (-1) rp) 0 0 0 0 0 0 None 0]),
           Some (length (ports cd)))) ∧
     (allocate = 0 → socketserver_getPort cd p allocate = (cd, None))).
Proof.
  intros rp. split_and!.
  - intros Hp. unfold rp, default_port.
    by destruct (Z.eqb_spec p 0).
  - intros -> Hnil. unfold rp. by rewrite Hnil.
  - intros -> e rest Hps. unfold rp. by rewrite Hps.
  - intros i e Hi Hp Hfirst. unfold socketserver_getPort.
    fold rp. by rewrite (search_port_first _ _ 0 i e Hi Hp Hfirst).
  - intros Hno. unfold socketserver_getPort. fold rp.
    rewrite (search_port_none _ _ 0 Hno). split; intros Ha.
    + destruct (Z.eqb_spec allocate 0); [done|].
      by rewrite link_last_app.
    + by rewrite Ha.
Qed.

(** The lookup at work on a registry with ports 9001 and 9002: the
    default port, a hit, an append and a miss. *)
Lemma getPort_lookup_witness :
  let e1 := mk_port (mk_targs 3 9001) 4 0 0 0 0 0 None 0 in
  let e2 := mk_port (mk_targs 5 9002) 6 0 0 0 0 0 None 0 in
  let cd := mk_cd 1 [e1; e2] in
  socketserver_getPort cd 0 0 = (cd, Some 0%nat) ∧
  socketserver_getPort cd 9002 0 = (cd, Some 1%nat) ∧
  socketserver_getPort cd 9003 1 =
    (mk_cd 1 [e1; e2; mk_port (mk_targs (-1) 9003) 0 0 0 0 0 0 None 0],
     Some 2%nat) ∧
  socketserver_getPort cd 9003 0 = (cd, None).
Proof.
  intros e1 e2 cd.
  pose proof (getPort_lookup cd 0 0) as (_ & _ & _ & Hdef & _).
  pose proof (getPort_lookup cd 9002 0) as (_ & _ & _ & Hhit & _).
  pose proof (getPort_lookup cd 9003 1) as (_ & _ & _ & _ & Hnew).
  pose proof (getPort_lookup cd 9003 0) as (_ & _ & _ & _ & Hmiss).
  split_and!.
  - apply (Hdef 0%nat e1); [reflexivity | reflexivity |].
    intros j e' Hj. lia.
  - apply (Hhit 1%nat e2); [reflexivity | reflexivity |].
    intros j e' Hj Hl. destruct j as [|j]; [|lia].
    simpl in Hl. simplify_eq. vm_compute. discriminate.
  - apply Hnew; [|lia].
    intros e He.
    apply elem_of_cons in He as [->|He]; [vm_compute; discriminate|].
    apply elem_of_cons in He as [->|He]; [vm_compute; discriminate|].
    by apply elem_of_nil in He.
  - apply Hmiss; [|reflexivity].
    intros e He.
    apply elem_of_cons in He as [->|He]; [vm_compute; discriminate|].
    apply elem_of_cons in He as [->|He]; [vm_compute; discriminate|].
    by apply elem_of_nil in He.
Defined.

(** ** The acceptor thread *)

Section AcceptorProps.
Context `{Host}.

(** No branch of the loop body leaves the loop. *)
Lemma accept_loop_body_continues sock o :
  snd (accept_loop_body sock o) = Continue.
Proof.
  unfold accept_loop_body.
  destruct (_ && _); [done|]. by destruct (negb _).
Qed.

Lemma thread_step_accepting a sd i :
  fst (thread_step a (Accepting sd) i) = Accepting sd.
Proof.
  destruct i as [o|o]; simpl; [done|].
  pose proof (accept_loop_body_continues (in_ a) o) as Hc.
  destruct (accept_loop_body (in_ a) o) as [acts c]. simpl in Hc.
  by subst c.
Qed.

Lemma thread_run_accepting a sd ins :
  fst (thread_run a (Accepting sd) ins) = Accepting sd.
Proof.
  induction ins as [|i ins IH]; [done|]. cbn [thread_run].
  pose proof (thread_step_accepting a sd i) as Hs.
  destruct (thread_step a (Accepting sd) i) as [st1 acts1].
  simpl in Hs. subst st1.
  destruct (thread_run a (Accepting sd) ins) as [st2 acts2].
  simpl in *. by subst st2.
Qed.

(** C8. Once the thread is in its accept loop, which it reaches when
    [bind] succeeds, it stays there whatever [accept] and [sendmsg]
    return, for any number of turns: an [accept]
    that fails with [EINTR] does nothing and goes around again, one that
    fails with another [errno] logs "accept failed" and goes around
    again, and one that succeeds sends the descriptor over the
    socketpair, logs how the send went and goes around again. *)
Theorem accept_loop_never_exits (a : socketserver_thread_args) (sd : Z) :
  (∀ o turns, 0 ≤ bind_ret o →
     fst (socketserver_thread a o turns) = Accepting (socket_ret o)) ∧
  (∀ ins : list thread_input,
     fst (thread_run a (Accepting sd) ins) = Accepting sd) ∧
  (∀ o, client_sock o = -1 → accept_errno o = EINTR →
        thread_step a (Accepting sd) (InAccept o) = (Accepting sd, [])) ∧
  (∀ o, client_sock o = -1 → accept_errno o ≠ EINTR →
        thread_step a (Accepting sd) (InAccept o) =
          (Accepting sd, [ADebug "accept failed"])) ∧
  (∀ o, 0 ≤ client_sock o →
        thread_step a (Accepting sd) (InAccept o) =
          (Accepting sd,
           [ADebug "Connection accepted";
            ASendingFd (client_sock o);
            ASendmsg (in_ a) (client_sock o);
            ADebug (if sendmsg_ret o >? 0 then "Sent fd."
                    else "Send fd failed")]
             ++ (if Linux then [AClose (client_sock o)] else []))).
Proof.
  split_and!.
  - intros o turns Hb. unfold socketserver_thread. cbn [thread_run].
    simpl. unfold thread_startup.
    destruct (Z.ltb_spec (bind_ret o) 0); [lia|].
    pose proof (thread_run_accepting a (socket_ret o) (InAccept <$> turns))
      as Hrun.
    destruct (thread_run a (Accepting (socket_ret o)) (InAccept <$> turns))
      as [st acts].
    simpl in *. by subst st.
  - apply thread_run_accepting.
  - intros o Hcs Herr. simpl. unfold accept_loop_body.
    rewrite Hcs, Herr, Z.eqb_refl. reflexivity.
  - intros o Hcs Herr. simpl. unfold accept_loop_body.
    rewrite Hcs. destruct (Z.eqb_spec (accept_errno o) EINTR); done.
  - intros o Hcs. simpl. unfold accept_loop_body, send_fd.
    destruct (Z.ltb_spec (client_sock o) 0); [lia|].
    destruct (Z.eqb_spec (client_sock o) (-1)); [lia|]. simpl.
    by destruct (sendmsg_ret o >? 0).
Qed.
End AcceptorProps.

Section AcceptorOnLinux.
Local Existing Instance linux_host.

(** Three turns on Linux for the thread of port 9001 writing to
    descriptor 3: interrupted, out of descriptors ([EMFILE], 24), and a
    connection on descriptor 7. *)
Lemma accept_loop_never_exits_witness :
  let a := mk_targs 3 9001 in
  fst (socketserver_thread a (mk_startup 5 0 0)
         [mk_accept (-1) 4 0; mk_accept (-1) 24 0; mk_accept 7 0 1]) =
    Accepting 5 ∧
  fst (thread_run a (Accepting 5)
         [InAccept (mk_accept (-1) 4 0); InAccept (mk_accept (-1) 24 0);
          InAccept (mk_accept 7 0 1)]) = Accepting 5 ∧
  thread_step a (Accepting 5) (InAccept (mk_accept (-1) 4 0)) =
    (Accepting 5, []) ∧
  thread_step a (Accepting 5) (InAccept (mk_accept (-1) 24 0)) =
    (Accepting 5, [ADebug "accept failed"]) ∧
  thread_step a (Accepting 5) (InAccept (mk_accept 7 0 1)) =
    (Accepting 5,
     [ADebug "Connection accepted"; ASendingFd 7; ASendmsg 3 7;
      ADebug "Sent fd."; AClose 7]).
Proof.
  intros a.
  destruct (accept_loop_never_exits a 5)
    as (Hthread & Hrun & Hintr & Hfail & Hok).
  split_and!.
  - apply (Hthread (mk_startup 5 0 0)). simpl. lia.
  - apply Hrun.
  - apply (Hintr (mk_accept (-1) 4 0)); reflexivity.
  - apply (Hfail (mk_accept (-1) 24 0)); [reflexivity | vm_compute; discriminate].
  - apply (Hok (mk_accept 7 0 1)). simpl. lia.
Defined.
End AcceptorOnLinux.

(** ** Records and the registry under the command *)

Lemma cd_eta cd : mk_cd (object_magic cd) (ports cd) = cd.
Proof. by destruct cd. Qed.

Lemma run_cons `{Host} w l ls : run w (l :: ls) = run (step w l) ls.
Proof. done. Qed.

Lemma set_registry_id w : set_registry (registry w) w = w.
Proof. by destruct w. Qed.

Lemma set_entry_id i e w :
  ports (registry w) !! i = Some e → set_entry i e w = w.
Proof.
  intros Hi. unfold set_entry. rewrite list_insert_id by done.
  by rewrite cd_eta, set_registry_id.
Qed.

(** The two ways the lookup can go. *)
Lemma getPort_cases cd p a :
  let rp := default_port (ports cd) p in
  (∃ i data,
     socketserver_getPort cd p a = (cd, Some i) ∧
     ports cd !! i = Some data ∧ port (targs data) = rp) ∨
  ((∀ e, e ∈ ports cd → port (targs e) ≠ rp) ∧
   socketserver_getPort cd p a =
     if a =? 0 then (cd, None)
     else (mk_cd (object_magic cd) (ports cd ++ [new_port rp]),
           Some (length (ports cd)))).
Proof.
  intros rp. unfold socketserver_getPort. fold rp.
  destruct (search_port (ports cd) rp 0) as [i|] eqn:Hs.
  - left. apply search_port_some in Hs as (j & e & -> & Hj & Hp).
    by exists (0 + j)%nat, e.
  - right. split; [by eapply search_port_none_inv|].
    by rewrite link_last_app.
Qed.

(** The lookup looks at nothing but the ports of the entries. *)
Lemma search_port_keys ps ps' p k :
  Forall2 (λ a b, port (targs a) = port (targs b)) ps ps' →
  search_port ps p k = search_port ps' p k.
Proof.
  intros HF. revert k. induction HF as [|a b ps ps' Hab _ IH]; intros k.
  - done.
  - simpl. rewrite Hab. by rewrite IH.
Qed.

Lemma default_port_keys ps ps' p :
  Forall2 (λ a b, port (targs a) = port (targs b)) ps ps' →
  default_port ps p = default_port ps' p.
Proof.
  intros HF. unfold default_port. destruct (p =? 0); [|done].
  by destruct HF.
Qed.

Lemma same_keys_refl ps :
  Forall2 (λ a b : socketserver_port, port (targs a) = port (targs b)) ps ps.
Proof. induction ps; by constructor. Qed.

(** Writing an entry back with its port untouched keeps the keys. *)
Lemma same_keys_insert ps i e e' :
  ps !! i = Some e →
  port (targs e') = port (targs e) →
  Forall2 (λ a b : socketserver_port, port (targs a) = port (targs b))
          ps (<[i:=e']> ps).
Proof.
  revert i. induction ps as [|a ps IH]; intros i Hi Hp; [done|].
  destruct i as [|i]; simpl in *.
  - simplify_eq. constructor; [done | apply same_keys_refl].
  - constructor; [done | by apply IH].
Qed.

(** ** The [server] registration *)

Section ServerProps.
Context `{Host}.

Lemma cmd_server ip tid ps p os w :
  object_magic (registry w) = SOCKETSERVER_OBJECT_MAGIC →
  socketserverObjCmd ip tid (server_words ps p) os w = server_locked p os w.
Proof.
  intros Hm. unfold socketserverObjCmd, server_words. simpl.
  by rewrite Hm, Z.eqb_refl.
Qed.

(** A port whose entry has its socketpair: the registration is a no-op. *)
Lemma server_locked_running p os w i data :
  search_port (ports (registry w))
              (default_port (ports (registry w)) p) 0 = Some i →
  ports (registry w) !! i = Some data →
  in_ (targs data) ≠ -1 →
  server_locked p os w = (w, cmd_ok).
Proof.
  intros Hs Hi Hin. unfold server_locked, socketserver_getPort.
  rewrite Hs. unfold entry_at. simpl. rewrite Hi. simpl.
  destruct (Z.eqb_spec (in_ (targs data)) (-1)); [done|].
  by rewrite set_registry_id.
Qed.

(** A port no entry has, with both system calls succeeding. *)
Lemma server_locked_fresh p s0 s1 w :
  let rp := default_port (ports (registry w)) p in
  let e := mk_port (mk_targs s0 rp) s1 0 0 0 0 0 None 0 in
  (∀ e, e ∈ ports (registry w) → port (targs e) ≠ rp) →
  server_locked p (mk_os (Some (s0, s1)) 0) w =
    (mk_world (mk_cd (object_magic (registry w))
                     (ports (registry w) ++ [e]))
              (<[s0:=s1]> (peer w)) (<[s1:=[]]> (inflight w))
              (nonblock w) (tcl_channels w) (handlers w) (events w)
              (threads w ++ [mk_thread (mk_targs s0 rp) Starting])
              (evals w),
     cmd_ok).
Proof.
  intros rp e Hno. unfold server_locked, socketserver_getPort. fold rp.
  rewrite (search_port_none _ _ 0 Hno). simpl.
  rewrite link_last_app. unfold entry_at. simpl.
  rewrite lookup_app_r by done. rewrite Nat.sub_diag. simpl.
  unfold os_spawn, os_socketpair, set_entry, set_threads, set_registry.
  simpl. f_equal. f_equal. f_equal.
  rewrite insert_app_r_alt by done. by rewrite Nat.sub_diag.
Qed.

(** After a fresh registration the lookup finds the new entry. *)
Lemma search_port_appended ps rp e k :
  (∀ a, a ∈ ps → port (targs a) ≠ rp) →
  port (targs e) = rp →
  search_port (ps ++ [e]) rp k = Some (k + length ps)%nat.
Proof.
  revert k. induction ps as [|a ps IH]; intros k Hno He; simpl.
  - rewrite He, Z.eqb_refl. f_equal. lia.
  - destruct (Z.eqb_spec (port (targs a)) rp) as [Heq|_].
    + exfalso. apply (Hno a); [left | done].
    + rewrite IH; [f_equal; lia | | done].
      intros b Hb. apply Hno. by right.
Qed.

Lemma default_port_appended ps p e :
  port (targs e) = default_port ps p →
  default_port (ps ++ [e]) p = default_port ps p.
Proof.
  unfold default_port. destruct (Z.eqb_spec p 0) as [->|]; [|done].
  destruct ps; simpl; [|done]. by intros ->.
Qed.
End ServerProps.



(** ** Errors of the acceptor's startup *)

Section StartupProps.
Context `{Host}.

(** With [allocate] set the lookup returns an entry of the registry it
    leaves. *)
Lemma getPort_allocates cd p :
  ∃ cd1 i data,
    socketserver_getPort cd p 1 = (cd1, Some i) ∧
    entry_at cd1 (Some i) = Some (i, data).
Proof.
  destruct (getPort_cases cd p 1) as [(i & data & Hg & Hi & _)|[_ Hg]].
  - exists cd, i, data. split; [done|]. unfold entry_at. simpl.
    by rewrite Hi.
  - simpl in Hg. eexists _, _, _. split; [exact Hg|].
    unfold entry_at. simpl. rewrite lookup_app_r by done.
    by rewrite Nat.sub_diag.
Qed.

(** The three ways [server] ends once past its argument checks: nothing
    to start, started, or one of the two system calls failed. *)
Lemma server_locked_result p os w :
  let w1 := fst (server_locked p os w) in
  let res := snd (server_locked p os w) in
  (res = cmd_ok ∧ threads w1 = threads w) ∨
  (res = cmd_ok ∧ pthread_create_ret os = 0 ∧
   is_Some (socketpair_ret os) ∧
   ∃ a, threads w1 = threads w ++ [mk_thread a Starting]) ∨
  (res = cmd_error "Failed to create thread to read socketpipe" ∧
   threads w1 = threads w ∧
   (socketpair_ret os = None ∨ pthread_create_ret os ≠ 0)).
Proof.
  unfold server_locked.
  destruct (getPort_allocates (registry w) p) as (cd1 & i & data & -> & ->).
  destruct (in_ (targs data) =? -1); [|by left].
  destruct (socketpair_ret os) as [[s0 s1]|]; [|right; right; by auto].
  destruct (Z.eqb_spec (pthread_create_ret os) 0) as [Hpc|Hpc].
  - right; left. simpl. split_and!; [done | done | done | by eexists].
  - right; right. simpl. auto.
Qed.

Lemma thread_run_exited a r ins :
  fst (thread_run a (Exited r) ins) = Exited r.
Proof.
  induction ins as [|i ins IH]; [done|]. cbn [thread_run].
  replace (thread_step a (Exited r) i) with (Exited r, @nil thread_action)
    by (by destruct i).
  destruct (thread_run a (Exited r) ins) as [st2 acts2].
  simpl in *. by subst st2.
Qed.

(** C3, as the code has it.  A [bind] failure is fatal to the acceptor:
    the thread ends with value 1 and never accepts.  It is not returned
    to the caller: the registration that starts the thread has returned
    [TCL_OK] before the thread runs, and the only errors a well-formed
    [server] command returns are those of [socketpair] and
    [pthread_create]. *)
Theorem server_startup_errors (ip tid : Z) (ps : string) (p : Z)
    (os : os_outcome) (w : world) :
  object_magic (registry w) = SOCKETSERVER_OBJECT_MAGIC →
  let w1 := fst (socketserverObjCmd ip tid (server_words ps p) os w) in
  let res := snd (socketserverObjCmd ip tid (server_words ps p) os w) in
  (∀ a o ins,
     bind_ret o < 0 →
     fst (thread_run a Starting (InStartup o :: ins)) = Exited 1) ∧
  (∀ a, threads w1 = threads w ++ [mk_thread a Starting] →
        res = cmd_ok ∧
        ∀ o, bind_ret o < 0 →
             threads (step w1 (LStart (length (threads w)) o)) =
               threads w ++ [mk_thread a (Exited 1)]) ∧
  (rc res = TCL_ERROR →
     socketpair_ret os = None ∨ pthread_create_ret os ≠ 0) ∧
  (is_Some (socketpair_ret os) → pthread_create_ret os = 0 → res = cmd_ok).
Proof.
  intros Hm w1 res. subst w1 res. rewrite cmd_server by done.
  pose proof (server_locked_result p os w) as Hres. simpl in Hres.
  destruct (server_locked p os w) as [w1 res]. simpl in *.
  split_and!.
  - intros a o ins Hb. cbn [thread_run]. simpl. unfold thread_startup.
    destruct (Z.ltb_spec (bind_ret o) 0); [|lia].
    pose proof (thread_run_exited a 1 ins) as Hex.
    destruct (thread_run a (Exited 1) ins) as [st2 acts2].
    simpl in *. by subst st2.
  - intros a Ha.
    assert (res = cmd_ok) as ->.
    { destruct Hres as [[-> Ht]|[[-> _]|[_ [Ht _]]]]; [|done|].
      - rewrite Ht in Ha. apply (f_equal length) in Ha.
        rewrite length_app in Ha. simpl in Ha. lia.
      - rewrite Ht in Ha. apply (f_equal length) in Ha.
        rewrite length_app in Ha. simpl in Ha. lia. }
    split; [done|]. intros o Hb. simpl. unfold start_turn.
    rewrite Ha. rewrite lookup_app_r by done. rewrite Nat.sub_diag.
    simpl. unfold thread_startup.
    destruct (Z.ltb_spec (bind_ret o) 0); [|lia]. simpl.
    rewrite insert_app_r_alt by done. by rewrite Nat.sub_diag.
  - intros Hrc.
    destruct Hres as [[-> _]|[[-> _]|[_ [_ Hos]]]]; [done | done | done].
  - intros Hsp Hpc.
    destruct Hres as [[-> _]|[[-> _]|[_ [_ [Hos|Hos]]]]]; [done | done | |].
    + rewrite Hos in Hsp. by destruct Hsp.
    + done.
Qed.
End StartupProps.

Section StartupOnLinux.
Local Existing Instance linux_host.

(** C3 fails on the code: [server 9001] on the initial world with a
    working [socketpair] and [pthread_create] starts the acceptor and
    returns [TCL_OK]; the port being taken ([bind] returns -1), the
    thread ends at once with value 1 and the caller is never told.  A
    failing [listen] ([listen_ret] -1) does not even stop the thread. *)
Lemma bind_failure_not_returned :
  let cmd := socketserverObjCmd 1 7 (server_words "9001" 9001)
                                (mk_os (Some (3, 4)) 0) initial_world in
  threads (fst cmd) = [mk_thread (mk_targs 3 9001) Starting] ∧
  fst (thread_startup (mk_targs 3 9001) (mk_startup 5 (-1) 0)) = Exited 1 ∧
  threads (step (fst cmd) (LStart 0 (mk_startup 5 (-1) 0))) =
    [mk_thread (mk_targs 3 9001) (Exited 1)] ∧
  fst (thread_startup (mk_targs 3 9001) (mk_startup 5 0 (-1))) =
    Accepting 5 ∧
  rc (snd cmd) = TCL_OK ∧
  rc (snd cmd) ≠ TCL_ERROR.
Proof. by vm_compute. Qed.

(** The same registration, with the port taken by another process. *)
Lemma server_startup_errors_witness :
  let cmd := socketserverObjCmd 1 7 (server_words "9001" 9001)
                                (mk_os (Some (3, 4)) 0) initial_world in
  snd cmd = cmd_ok ∧
  threads (step (fst cmd) (LStart 0 (mk_startup 5 (-1) 0))) =
    [mk_thread (mk_targs 3 9001) (Exited 1)].
Proof.
  intros cmd.
  destruct (server_startup_errors 1 7 "9001" 9001 (mk_os (Some (3, 4)) 0)
              initial_world eq_refl) as (_ & Hstart & _ & _).
  destruct (Hstart (mk_targs 3 9001) eq_refl) as [Hok Hbind].
  split; [exact Hok|].
  apply (Hbind (mk_startup 5 (-1) 0)). simpl. lia.
Defined.
End StartupOnLinux.


(** ** The drain handler *)

Section DrainProps.
Context `{Host}.

(** The message the kernel builds for a descriptor is read back as that
    descriptor. *)
Lemma recv_fd_header d n : recv_fd (RecvDone n [fd_header d]) = d.
Proof.
  unfold recv_fd, scan_headers, fd_header, fd_count. simpl.
  rewrite !Z.eqb_refl. simpl.
  replace (CMSG_DATA_OFFSET + 4 - CMSG_DATA_OFFSET) with 4 by lia.
  reflexivity.
Qed.

(** C4, as the code has it.  The drain makes no difference between the
    ways a receive can fail: whenever [recv_fd] gives -1, and it does so
    for every [errno] of [recvmsg] as for a message without a passed
    descriptor, an armed handler re-arms the guard, returns [TCL_OK] and
    leaves the rest of the entry as it is. *)
Theorem drain_receive_failure (data : socketserver_port)
    (r : recvmsg_result) (eval_rc : Z) :
  active data ≠ 0 →
  recv_fd r = -1 →
  socketserver_EventProc r data = (set_active 1 data, NoData) ∧
  drain_rc (snd (socketserver_EventProc r data)) eval_rc = TCL_OK ∧
  (∀ err, recv_fd (RecvFail err) = -1) ∧
  (∀ n, recv_fd (RecvDone n []) = -1).
Proof.
  intros Hact Hr.
  assert (socketserver_EventProc r data = (set_active 1 data, NoData)) as He.
  { unfold socketserver_EventProc.
    destruct (Z.eqb_spec (active data) 0); [done|].
    by rewrite Hr. }
  rewrite He. done.
Qed.
End DrainProps.

Section DrainOnLinux.
Local Existing Instance linux_host.

(** C4 fails on the code: for an armed entry, a receive that finds
    nothing ([EAGAIN], 11) and receives on a broken transport
    ([ECONNRESET], 104; [EBADF], 9) end the same way: guard re-armed,
    [TCL_OK], nothing surfaced to the host and the registration as usable
    as before. *)
Lemma receive_error_not_surfaced :
  let data := mk_port (mk_targs 3 9001) 4 1 0 1 1 7 (Some "cb") 82 in
  socketserver_EventProc (RecvFail 11) data = (data, NoData) ∧
  socketserver_EventProc (RecvFail 104) data = (data, NoData) ∧
  socketserver_EventProc (RecvFail 9) data = (data, NoData) ∧
  drain_rc (snd (socketserver_EventProc (RecvFail 104) data)) 0 = TCL_OK ∧
  drain_rc (snd (socketserver_EventProc (RecvFail 104) data)) 0 ≠ TCL_ERROR.
Proof. by vm_compute. Qed.

(** A reset connection on an armed entry. *)
Lemma drain_receive_failure_witness :
  let data := mk_port (mk_targs 3 9001) 4 1 0 1 1 7 (Some "cb") 82 in
  socketserver_EventProc (RecvFail 104) data = (data, NoData) ∧
  drain_rc (snd (socketserver_EventProc (RecvFail 104) data)) 0 = TCL_OK.
Proof.
  intros data.
  assert (active data ≠ 0) as Hact by (vm_compute; discriminate).
  destruct (drain_receive_failure data (RecvFail 104) 0 Hact eq_refl)
    as (He & Hrc & _).
  split; [exact He | exact Hrc].
Defined.
End DrainOnLinux.

(** ** What each operation does to the process *)

Section Effects.
Context `{Host}.

(** [recvmsg] touches the message queues only. *)
Lemma os_recvmsg_frame fd w :
  let w1 := snd (os_recvmsg fd w) in
  registry w1 = registry w ∧ peer w1 = peer w ∧ nonblock w1 = nonblock w ∧
  tcl_channels w1 = tcl_channels w ∧ handlers w1 = handlers w ∧
  events w1 = events w ∧ threads w1 = threads w ∧ evals w1 = evals w.
Proof.
  unfold os_recvmsg. destruct (inflight w !! fd) as [[|d q]|]; done.
Qed.

(** The drain handler, case by case. *)
Lemma drain_cases i w :
  (drain i w = (w, Ignored) ∧
   (ports (registry w) !! i = None ∨
    ∃ e, ports (registry w) !! i = Some e ∧ active e = 0)) ∨
  (∃ e, ports (registry w) !! i = Some e ∧ active e ≠ 0 ∧
     let r := fst (os_recvmsg (out e) w) in
     let w1 := snd (os_recvmsg (out e) w) in
     (recv_fd r = -1 ∧
      drain i w = (set_entry i (set_active 1 e) w1, NoData)) ∨
     (recv_fd r ≠ -1 ∧
      drain i w =
        (set_entry i (set_active 0 e) w1, NoChannelName (recv_fd r))) ∨
     (recv_fd r ≠ -1 ∧ ∃ script,
      drain i w =
        (set_evals (evals w1 ++ [mk_delivery i (recv_fd r) script])
                   (set_entry i (set_active 0 e) w1),
         Evaluated (recv_fd r) script))).
Proof.
  unfold drain.
  destruct (ports (registry w) !! i) as [e|] eqn:Hi; [|left; by auto].
  unfold socketserver_EventProc.
  destruct (Z.eqb_spec (active e) 0) as [Ha|Ha].
  { left. destruct (os_recvmsg (out e) w). by eauto. }
  right. exists e. split_and!; [done | done |].
  destruct (os_recvmsg (out e) w) as [r w1] eqn:Hrecv. simpl.
  destruct (Z.eqb_spec (recv_fd r) (-1)) as [Hr|Hr]; simpl; [by left|].
  right.
  destruct (Tcl_GetChannelName (recv_fd r)) as [[|c name]|]; simpl; eauto.
Qed.

(** A [client] registration that finds its entry. *)
Lemma client_locked_found ip tid p cb w i e :
  search_port (ports (registry w))
              (default_port (ports (registry w)) p) 0 = Some i →
  ports (registry w) !! i = Some e →
  let chan := Z.of_nat (length (tcl_channels w)) + 1 in
  let len := Z.of_nat (String.length cb) + 80 in
  client_locked ip tid p cb w =
    (if have_channel e =? 0 then
       mk_world
         (mk_cd (object_magic (registry w))
                (<[i := mk_port (targs e) (out e) 1 0 chan ip tid (Some cb)
                                len]> (ports (registry w))))
         (peer w) (inflight w) (nonblock w ++ [out e])
         (tcl_channels w ++ [out e]) (handlers w ++ [(chan, i)])
         (events w ++ [(tid, i)]) (threads w) (evals w)
     else
       mk_world
         (mk_cd (object_magic (registry w))
                (<[i := mk_port (targs e) (out e) 1 (have_channel e)
                                (channel e) ip tid (Some cb) len]>
                   (ports (registry w))))
         (peer w) (inflight w) (nonblock w ++ [out e])
         (tcl_channels w) (handlers w)
         (events w ++ [(tid, i)]) (threads w) (evals w),
     cmd_ok).
Proof.
  intros Hs Hi chan len. unfold client_locked, socketserver_getPort.
  rewrite Hs. unfold entry_at. simpl. rewrite Hi. simpl.
  pose proof (lookup_lt_Some _ _ _ Hi) as Hlt.
  destruct (have_channel e =? 0); simpl.
  - unfold socketserver_readable. simpl.
    rewrite list_lookup_insert_eq by done. done.
  - unfold socketserver_readable. simpl.
    rewrite list_lookup_insert_eq by done. done.
Qed.

(** A [client] registration that finds none. *)
Lemma client_locked_missing ip tid p cb w :
  search_port (ports (registry w))
              (default_port (ports (registry w)) p) 0 = None →
  client_locked ip tid p cb w =
    (w, cmd_error "Could not find socketserver structure for port").
Proof.
  intros Hs. unfold client_locked, socketserver_getPort. by rewrite Hs.
Qed.
(** The drain handler touches neither handlers, channels, threads nor
    socketpairs' ends. *)
Lemma drain_frame i w :
  handlers (fst (drain i w)) = handlers w ∧
  tcl_channels (fst (drain i w)) = tcl_channels w ∧
  threads (fst (drain i w)) = threads w ∧
  peer (fst (drain i w)) = peer w.
Proof.
  destruct (drain_cases i w) as [[-> _]|(e & _ & _ & Hc)]; [done|].
  pose proof (os_recvmsg_frame (out e) w)
    as (_ & Hp & _ & Hch & Hh & _ & Ht & _).
  simpl in Hc.
  destruct Hc as [[_ ->]|[[_ ->]|[_ (s & ->)]]]; simpl;
    by rewrite Hp, Hch, Hh, Ht.
Qed.

End Effects.

Section CommandEffects.
Context `{Host}.

(** The three ways a command goes: refused with the process untouched,
    into the [server] branch, or into the [client] branch. *)
Lemma cmd_cases ip tid objv os w :
  (∃ res, socketserverObjCmd ip tid objv os w = (w, res) ∧
          rc res = TCL_ERROR) ∨
  (∃ o0 o1 o2 p,
     objv = [o0; o1; o2] ∧
     Tcl_GetIndexFromObj o1 = Some OPT_SERVER ∧
     Tcl_GetIntFromObj o2 = Some p ∧
     socketserverObjCmd ip tid objv os w = server_locked p os w) ∨
  (∃ p cb,
     is_client_cmd (LCmd ip tid objv os) = true ∧
     client_args objv = inl (Some (p, cb)) ∧
     socketserverObjCmd ip tid objv os w = client_locked ip tid p cb w).
Proof.
  unfold socketserverObjCmd, is_client_cmd.
  destruct (objv !! 1%nat ≫= Tcl_GetIndexFromObj) as [opt|] eqn:Hopt;
    [|left; by eauto].
  destruct (negb _); [left; by eauto|].
  destruct opt.
  - destruct (client_args objv) as [[[p cb]|]|msg] eqn:Hargs.
    + right; right. by exists p, cb.
    + left. by eauto.
    + left. by eauto.
  - destruct objv as [|o0 [|o1 [|o2 [|o3 rest]]]]; try (left; by eauto).
    simpl in Hopt.
    destruct (Tcl_GetIntFromObj o2) as [p|] eqn:Hp; [|left; by eauto].
    right; left. by exists o0, o1, o2, p.
Qed.

(** What [server] does to the registry: nothing, the two descriptors of
    the socketpair written into an entry, or an entry appended for the
    port the command names.  It touches neither guards nor consumers. *)
Lemma server_locked_ports p os w :
  let w1 := fst (server_locked p os w) in
  let ps := ports (registry w) in
  (nonblock w1 = nonblock w ∧ tcl_channels w1 = tcl_channels w ∧
   handlers w1 = handlers w ∧ events w1 = events w ∧
   evals w1 = evals w ∧
   object_magic (registry w1) = object_magic (registry w)) ∧
  (ports (registry w1) = ps ∨
   (∃ i e s0 s1,
      ps !! i = Some e ∧
      ports (registry w1) =
        <[i := set_out s1 (set_targs (mk_targs s0 (port (targs e))) e)]> ps) ∨
   (∃ e', ports (registry w1) = ps ++ [e'] ∧
          port (targs e') = p ∧ active e' = 0 ∧ have_channel e' = 0)).
Proof.
  intros w1 ps. subst w1. unfold server_locked, socketserver_getPort.
  fold ps. set (rp := default_port ps p).
  destruct (search_port ps rp 0) as [i|] eqn:Hs.
  - apply search_port_some in Hs as (j & e & Hij & Hj & Hp).
    simpl in Hij. subst j. unfold entry_at. simpl. fold ps.
    rewrite Hj. simpl.
    destruct (in_ (targs e) =? -1); [|split; [done | by left]].
    destruct (socketpair_ret os) as [[s0 s1]|]; [|split; [done | by left]].
    destruct (pthread_create_ret os =? 0); simpl; fold ps;
      (split; [done|]; right; left; by exists i, e, s0, s1).
  - assert (rp = p) as Hrp.
    { unfold rp, default_port.
      destruct (Z.eqb_spec p 0) as [->|]; [|done].
      destruct ps as [|a ps']; [done|].
      simpl in Hs. unfold rp, default_port in Hs. simpl in Hs.
      by rewrite Z.eqb_refl in Hs. }
    simpl. rewrite link_last_app. unfold entry_at. simpl. fold ps.
    rewrite lookup_app_r by done. rewrite Nat.sub_diag. simpl.
    destruct (socketpair_ret os) as [[s0 s1]|]; simpl.
    + destruct (pthread_create_ret os =? 0); simpl; fold ps;
        rewrite insert_app_r_alt by done; rewrite Nat.sub_diag; simpl;
        (split; [done|]; right; right; by eexists).
    + split; [done|]. right; right. by eexists.
Qed.

(** What [client] does to the registry: nothing, or one entry re-armed
    with its consumer recorded.  It never delivers. *)
Lemma client_locked_ports ip tid p cb w :
  let w1 := fst (client_locked ip tid p cb w) in
  let ps := ports (registry w) in
  evals w1 = evals w ∧
  object_magic (registry w1) = object_magic (registry w) ∧
  (w1 = w ∨
   ∃ i e e',
     ps !! i = Some e ∧ ports (registry w1) = <[i:=e']> ps ∧
     port (targs e') = port (targs e) ∧ active e' = 1 ∧
     (have_channel e = 0 → have_channel e' = 0)).
Proof.
  intros w1 ps. subst w1.
  destruct (search_port ps (default_port ps p) 0) as [i|] eqn:Hs.
  - pose proof Hs as Hs'.
    apply search_port_some in Hs' as (j & e & Hij & Hj & Hp).
    simpl in Hij. subst j.
    rewrite (client_locked_found ip tid p cb w i e Hs Hj).
    destruct (have_channel e =? 0); simpl;
      (split_and!; [done | done |]; right; eexists i, e, _;
       split_and!; [done | reflexivity | done | done | done]).
  - rewrite client_locked_missing by done. simpl. by auto.
Qed.
(** The process after [client]: unchanged, or one entry rewritten for
    the consumer, one event queued for it and at most one handler
    installed for it. *)
Lemma client_locked_entries ip tid p cb w :
  let w' := fst (client_locked ip tid p cb w) in
  w' = w ∨
  ∃ i e hc ch,
    ports (registry w) !! i = Some e ∧
    ports (registry w') =
      <[i := mk_port (targs e) (out e) 1 hc ch ip tid (Some cb)
                     (Z.of_nat (String.length cb) + 80)]>
        (ports (registry w)) ∧
    events w' = events w ++ [(tid, i)] ∧
    (handlers w' = handlers w ∨ ∃ c, handlers w' = handlers w ++ [(c, i)]).
Proof.
  intros w'. subst w'.
  destruct (search_port (ports (registry w))
              (default_port (ports (registry w)) p) 0) as [i|] eqn:Hs.
  - pose proof Hs as Hs'.
    apply search_port_some in Hs' as (j & e & Hij & Hj & _).
    simpl in Hij. subst j. right.
    rewrite (client_locked_found ip tid p cb w i e Hs Hj).
    destruct (have_channel e =? 0); simpl.
    + eexists i, e, _, _. split_and!; [done | done | done |].
      right. by eexists.
    + eexists i, e, _, _. split_and!; [done | done | done |]. by left.
  - left. by rewrite client_locked_missing.
Qed.

End CommandEffects.

Section StepEffects.
Context `{Host}.

Lemma os_sendmsg_frame sock d ok w :
  let w1 := snd (os_sendmsg sock d ok w) in
  registry w1 = registry w ∧ peer w1 = peer w ∧ nonblock w1 = nonblock w ∧
  tcl_channels w1 = tcl_channels w ∧ handlers w1 = handlers w ∧
  events w1 = events w ∧ threads w1 = threads w ∧ evals w1 = evals w.
Proof.
  unfold os_sendmsg. destruct (peer w !! sock); [|done].
  by destruct (ok && (0 <=? d)).
Qed.

(** The acceptor threads touch neither the registry nor the consumer. *)
Lemma accept_turn_frame t cs err ok w :
  let w1 := accept_turn t cs err ok w in
  registry w1 = registry w ∧ handlers w1 = handlers w ∧
  events w1 = events w ∧ evals w1 = evals w ∧
  tcl_channels w1 = tcl_channels w.
Proof.
  unfold accept_turn.
  destruct (threads w !! t) as [[a [|sd|r]]|]; try done.
  pose proof (os_sendmsg_frame (in_ a) cs ok w) as Hf.
  destruct (os_sendmsg (in_ a) cs ok w) as [ret w_sent]. simpl in Hf.
  destruct Hf as (Hr & _ & _ & Hc & Hh & He & _ & Hv).
  destruct (thread_step a (Accepting sd) _) as [st acts].
  destruct (existsb is_sendmsg acts); simpl; [|done].
  by rewrite Hr, Hh, He, Hv, Hc.
Qed.

Lemma start_turn_frame t o w :
  let w1 := start_turn t o w in
  registry w1 = registry w ∧ handlers w1 = handlers w ∧
  events w1 = events w ∧ evals w1 = evals w ∧
  tcl_channels w1 = tcl_channels w ∧ inflight w1 = inflight w.
Proof.
  unfold start_turn.
  destruct (threads w !! t) as [[a [|sd|r]]|]; try done.
  by destruct (thread_step a Starting (InStartup o)).
Qed.

Lemma socketserver_readable_frame i w :
  let w1 := socketserver_readable i w in
  registry w1 = registry w ∧ handlers w1 = handlers w ∧
  evals w1 = evals w ∧ tcl_channels w1 = tcl_channels w ∧
  inflight w1 = inflight w ∧ threads w1 = threads w.
Proof.
  unfold socketserver_readable.
  by destruct (ports (registry w) !! i).
Qed.

(** Every step, seen from the registry and the deliveries.  A step
    leaves both alone; or a [server] command appends an entry with its
    guard down; or one entry is written back with its port, and either
    its guard as it was, or raised by a [client] command, or raised
    again after an armed drain found nothing; or an armed drain received
    a descriptor, took the guard down and evaluated at most one
    script. *)
Lemma step_ports w l :
  let ps := ports (registry w) in
  let w' := step w l in
  object_magic (registry w') = object_magic (registry w) ∧
  ((ports (registry w') = ps ∧ evals w' = evals w) ∨
   (∃ p e', is_server_cmd_for p l = true ∧
            ports (registry w') = ps ++ [e'] ∧ port (targs e') = p ∧
            active e' = 0 ∧ have_channel e' = 0 ∧ evals w' = evals w) ∨
   (∃ i e e', ps !! i = Some e ∧ ports (registry w') = <[i:=e']> ps ∧
              port (targs e') = port (targs e) ∧
              (have_channel e = 0 → have_channel e' = 0) ∧
              evals w' = evals w ∧
              (active e' = active e ∨
               (is_client_cmd l = true ∧ active e' = 1) ∨
               (active e ≠ 0 ∧ active e' = 1))) ∨
   (∃ k tid i e, l = LDispatch k ∧ events w !! k = Some (tid, i) ∧
                 ps !! i = Some e ∧ active e ≠ 0 ∧
                 ports (registry w') = <[i:=set_active 0 e]> ps ∧
                 (evals w' = evals w ∨
                  ∃ fd s, evals w' = evals w ++ [mk_delivery i fd s]))).
Proof.
  intros ps w'. subst w'. destruct l as [ip tid objv os|t o|t cs err ok|h|k].
  - (* a command *)
    simpl. destruct (cmd_cases ip tid objv os w)
      as [(res & -> & _)|[(o0 & o1 & o2 & p & -> & Ho1 & Ho2 & ->)|
                          (p & cb & Hcl & _ & ->)]].
    + split; [done|]. by left.
    + destruct (server_locked_ports p os w)
        as [(_ & _ & _ & _ & Hv & Hm) [Hp|[(i & e & s0 & s1 & Hi & Hp)|
                                          (e' & Hp & Hport & Ha & Hc)]]].
      * split; [done|]. by left.
      * split; [done|]. right; right; left.
        exists i, e, (set_out s1 (set_targs (mk_targs s0 (port (targs e))) e)).
        split_and!; try done. by left.
      * split; [done|]. right; left. exists p, e'.
        split_and!; try done. simpl. rewrite Ho1, Ho2. apply Z.eqb_refl.
    + destruct (client_locked_ports ip tid p cb w)
        as (Hv & Hm & [Hw|(i & e & e' & Hi & Hp & Hport & Ha & Hc)]).
      * split; [done|]. left. by rewrite Hw.
      * split; [done|]. right; right; left. exists i, e, e'.
        split_and!; try done. right; left. done.
  - simpl. destruct (start_turn_frame t o w) as (Hr & _ & _ & Hv & _).
    rewrite Hr. split; [done|]. by left.
  - simpl. destruct (accept_turn_frame t cs err ok w) as (Hr & _ & _ & Hv & _).
    rewrite Hr. split; [done|]. by left.
  - simpl. destruct (handlers w !! h) as [[c i]|]; [|split; [done|by left]].
    destruct (socketserver_readable_frame i w) as (Hr & _ & Hv & _).
    rewrite Hr. split; [done|]. by left.
  - simpl. destruct (events w !! k) as [[tid i]|] eqn:Hk;
      [|split; [done|by left]].
    set (w0 := set_events (delete k (events w)) w).
    destruct (drain_cases i w0) as [[-> _]|(e & Hi & Ha & Hd)].
    { split; [done|]. by left. }
    pose proof (os_recvmsg_frame (out e) w0) as Hf.
    destruct (os_recvmsg (out e) w0) as [r w1]. simpl in Hf, Hd.
    destruct Hf as (Hr & _ & _ & _ & _ & _ & _ & Hv).
    destruct Hd as [[_ ->]|[[_ ->]|[_ (script & ->)]]]; simpl;
      rewrite ?Hr, ?Hv; simpl; (split; [done|]).
    + right; right; left. exists i, e, (set_active 1 e).
      split_and!; try done. right; right. done.
    + right; right; right. exists k, tid, i, e.
      split_and!; try done. by left.
    + right; right; right. exists k, tid, i, e.
      split_and!; try done. right. by eexists _, _.
Qed.
End StepEffects.

(** ** The [client] registration *)

Section ClientProps.
Context `{Host}.

Lemma cmd_client_port ip tid ps p cb os w :
  object_magic (registry w) = SOCKETSERVER_OBJECT_MAGIC →
  socketserverObjCmd ip tid (client_port_words ps p cb) os w =
    client_locked ip tid p cb w.
Proof.
  intros Hm. unfold socketserverObjCmd, client_port_words. simpl.
  by rewrite Hm, Z.eqb_refl.
Qed.

Lemma cmd_client ip tid cb os w :
  object_magic (registry w) = SOCKETSERVER_OBJECT_MAGIC →
  socketserverObjCmd ip tid (client_words cb) os w =
    client_locked ip tid 0 cb w.
Proof.
  intros Hm. unfold socketserverObjCmd, client_words. simpl.
  by rewrite Hm, Z.eqb_refl.
Qed.

Lemma fmap_insert_same {A B} (f : A → B) (l : list A) i e e' :
  l !! i = Some e → f e' = f e → f <$> <[i:=e']> l = f <$> l.
Proof.
  intros Hi Hf. rewrite list_fmap_insert, Hf.
  apply list_insert_id. by rewrite list_lookup_fmap, Hi.
Qed.

(** Only a [server] command adds a port to the registry, and the port it
    adds is the one it names. *)
Lemma step_keys w l :
  keys (step w l) = keys w ∨
  ∃ p, is_server_cmd_for p l = true ∧ keys (step w l) = keys w ++ [p].
Proof.
  unfold keys.
  destruct (step_ports w l)
    as [_ [[-> _]|[(p & e' & Hs & -> & Hp & _)|
                   [(i & e & e' & Hi & -> & Hp & _)|
                    (k & tid & i & e & _ & _ & Hi & _ & -> & _)]]]].
  - by left.
  - right. exists p. split; [done|]. by rewrite fmap_app, <- Hp.
  - left. by apply (fmap_insert_same _ _ _ e).
  - left. by apply (fmap_insert_same _ _ _ e).
Qed.

Lemma run_magic w ls :
  object_magic (registry (run w ls)) = object_magic (registry w).
Proof.
  revert w. induction ls as [|l ls IH]; intros w; [done|].
  rewrite run_cons, IH. by destruct (step_ports w l) as [-> _].
Qed.

(** A port no [server] command ever named is in no entry. *)
Lemma run_never_served p w ls :
  (∀ l, l ∈ ls → is_server_cmd_for p l = false) →
  p ∉ keys w → p ∉ keys (run w ls).
Proof.
  revert w. induction ls as [|l ls IH]; intros w Hnever Hp; [done|].
  rewrite run_cons. apply IH.
  - intros l' Hl'. apply Hnever. by right.
  - destruct (step_keys w l) as [->|(q & Hq & ->)]; [done|].
    rewrite elem_of_app, list_elem_of_singleton. intros [Hin| ->]; [done|].
    rewrite Hnever in Hq; [done | by left].
Qed.

Lemma not_in_keys p w :
  p ∉ keys w ↔ ∀ e, e ∈ ports (registry w) → port (targs e) ≠ p.
Proof.
  unfold keys. rewrite list_elem_of_fmap. split.
  - intros Hno e He Hp. apply Hno. by exists e.
  - intros Hno (e & Hp & He). by apply (Hno e).
Qed.

(** The registration by state: a port that is in no entry. *)
Lemma client_locked_unknown ip tid p cb w :
  p ∉ keys w →
  (p = 0 → ports (registry w) = []) →
  client_locked ip tid p cb w =
    (w, cmd_error "Could not find socketserver structure for port").
Proof.
  intros Hp Hzero. apply client_locked_missing.
  assert (default_port (ports (registry w)) p = p) as ->.
  { unfold default_port. destruct (Z.eqb_spec p 0) as [Hp0|]; [|done].
    by rewrite (Hzero Hp0). }
  apply search_port_none. by apply not_in_keys.
Qed.

(** C7. Take any history of the process from its initial state in which
    no [server] command named port [p] (and, for the default port 0, one
    that left the registry empty).  Then a [client] registration for [p]
    returns [TCL_ERROR] with "Could not find socketserver structure for
    port" and the state of the process after it is the state before it:
    registry, entries, channels, handlers and event queue. *)
Theorem client_unknown_port (ip tid : Z) (os : os_outcome)
    (history : list label) (ps : string) (p : Z) (cb : string) :
  let w := run initial_world history in
  (∀ l, l ∈ history → is_server_cmd_for p l = false) →
  (p = 0 → ports (registry w) = []) →
  socketserverObjCmd ip tid (client_port_words ps p cb) os w =
    (w, cmd_error "Could not find socketserver structure for port") ∧
  (p = 0 →
   socketserverObjCmd ip tid (client_words cb) os w =
     (w, cmd_error "Could not find socketserver structure for port")).
Proof.
  intros w Hnever Hzero.
  assert (object_magic (registry w) = SOCKETSERVER_OBJECT_MAGIC) as Hm.
  { unfold w. by rewrite run_magic. }
  assert (p ∉ keys w) as Hp.
  { apply run_never_served; [done|]. unfold keys. simpl.
    apply not_elem_of_nil. }
  split.
  - rewrite cmd_client_port by done. by apply client_locked_unknown.
  - intros ->. rewrite cmd_client by done.
    apply client_locked_unknown; [done | done].
Qed.
End ClientProps.

Section ClientOnLinux.
Local Existing Instance linux_host.

(** After [server 9001] alone, [client -port 9002 cb] fails and changes
    nothing; before any [server], so does [client cb]. *)
Lemma client_unknown_port_witness :
  let history := [LCmd 1 7 (server_words "9001" 9001)
                       (mk_os (Some (3, 4)) 0)] in
  let w := run initial_world history in
  socketserverObjCmd 1 7 (client_port_words "9002" 9002 "cb")
                     (mk_os None 0) w =
    (w, cmd_error "Could not find socketserver structure for port") ∧
  socketserverObjCmd 1 7 (client_words "cb") (mk_os None 0) initial_world =
    (initial_world,
     cmd_error "Could not find socketserver structure for port").
Proof.
  intros history w. split.
  - apply (client_unknown_port 1 7 (mk_os None 0) history "9002" 9002 "cb").
    + intros l Hl. apply list_elem_of_singleton in Hl as ->. reflexivity.
    + intros Hp. discriminate Hp.
  - apply (client_unknown_port 1 7 (mk_os None 0) [] "0" 0 "cb").
    + intros l Hl. by apply elem_of_nil in Hl.
    + reflexivity.
    + reflexivity.
Defined.
End ClientOnLinux.

(** ** Idempotence of [server] *)

Section ServedPort.
Context `{Host}.

Lemma has_socketpair_true rp w :
  has_socketpair rp w = true ↔
  ∃ i e, search_port (ports (registry w)) rp 0 = Some i ∧
         ports (registry w) !! i = Some e ∧ in_ (targs e) ≠ -1.
Proof.
  unfold has_socketpair. split.
  - destruct (search_port _ _ _) as [i|]; [|done].
    destruct (ports (registry w) !! i) as [e|] eqn:Hi; [|done].
    destruct (Z.eqb_spec (in_ (targs e)) (-1)); [done|].
    intros _. by exists i, e.
  - intros (i & e & -> & -> & Hin).
    by destruct (Z.eqb_spec (in_ (targs e)) (-1)).
Qed.

(** The lookup of a port that is found goes on finding the same entry
    when entries are added behind it. *)
Lemma search_port_grow ps ps' extra rp k i :
  (λ e, port (targs e)) <$> ps' = ((λ e, port (targs e)) <$> ps) ++ extra →
  search_port ps rp k = Some i → search_port ps' rp k = Some i.
Proof.
  revert ps' k. induction ps as [|a ps IH]; intros ps' k Hk Hs; [done|].
  destruct ps' as [|b ps']; [done|]. simpl in Hk.
  injection Hk as Hab Hk. simpl in *. rewrite Hab.
  destruct (port (targs a) =? rp); [done|]. by apply IH.
Qed.

Lemma default_port_grow ps ps' extra p :
  (λ e, port (targs e)) <$> ps' = ((λ e, port (targs e)) <$> ps) ++ extra →
  ps ≠ [] → default_port ps' p = default_port ps p.
Proof.
  intros Hk Hne. unfold default_port. destruct (p =? 0); [|done].
  destruct ps as [|a ps]; [done|]. destruct ps' as [|b ps']; [done|].
  simpl in Hk. by injection Hk as -> _.
Qed.

Lemma step_keys_grow w l : ∃ extra, keys (step w l) = keys w ++ extra.
Proof.
  destruct (step_keys w l) as [->|(p & _ & ->)].
  - exists []. by rewrite app_nil_r.
  - by exists [p].
Qed.

(** What [server] writes to the registry: nothing, the socketpair into
    an entry that had none, or a new entry behind the others. *)
Lemma server_locked_writes p os w :
  let ps := ports (registry w) in
  let ps' := ports (registry (fst (server_locked p os w))) in
  ps' = ps ∨
  (∃ i e e', ps !! i = Some e ∧ in_ (targs e) = -1 ∧ ps' = <[i:=e']> ps) ∨
  (∃ e', ps' = ps ++ [e']).
Proof.
  intros ps ps'. subst ps'. unfold server_locked, socketserver_getPort.
  fold ps. set (rp := default_port ps p).
  destruct (search_port ps rp 0) as [i|] eqn:Hs.
  - apply search_port_some in Hs as (j & e & Hij & Hj & _).
    simpl in Hij. subst j. unfold entry_at. simpl. fold ps. rewrite Hj.
    simpl.
    destruct (Z.eqb_spec (in_ (targs e)) (-1)) as [Hin|Hin]; [|by left].
    destruct (socketpair_ret os) as [[s0 s1]|]; [|by left].
    right; left. eexists i, e, _. split_and!; [done | done |].
    by destruct (pthread_create_ret os =? 0).
  - simpl. rewrite link_last_app. unfold entry_at. simpl. fold ps.
    rewrite lookup_app_r by done. rewrite Nat.sub_diag. simpl.
    right; right.
    destruct (socketpair_ret os) as [[s0 s1]|]; simpl.
    + destruct (pthread_create_ret os =? 0); simpl; fold ps;
        rewrite insert_app_r_alt by done; rewrite Nat.sub_diag;
        by eexists.
    + by eexists.
Qed.

(** An entry that has its socketpair keeps it, and its place, through
    every step. *)
Lemma step_socketpair_kept w l i e :
  ports (registry w) !! i = Some e →
  in_ (targs e) ≠ -1 →
  ∃ e', ports (registry (step w l)) !! i = Some e' ∧
        targs e' = targs e ∧ out e' = out e.
Proof.
  intros Hi Hin.
  assert (∀ j e0 e1,
            ports (registry w) !! j = Some e0 →
            (j = i → targs e1 = targs e0 ∧ out e1 = out e0) →
            ∃ e', <[j:=e1]> (ports (registry w)) !! i = Some e' ∧
                  targs e' = targs e ∧ out e' = out e) as Hins.
  { intros j e0 e1 Hj Hsame. destruct (decide (j = i)) as [->|Hne].
    - exists e1. rewrite list_lookup_insert_eq by (by eapply lookup_lt_Some).
      destruct (Hsame eq_refl) as [-> ->]. by simplify_eq.
    - exists e. by rewrite list_lookup_insert_ne. }
  destruct l as [ip tid objv os|t o|t cs err ok|h|k]; simpl.
  - destruct (cmd_cases ip tid objv os w)
      as [(res & -> & _)|[(o0 & o1 & o2 & p & -> & _ & _ & ->)|
                          (p & cb & _ & _ & ->)]].
    + by exists e.
    + destruct (server_locked_writes p os w)
        as [->|[(j & e0 & e1 & Hj & Hj1 & ->)|(e1 & ->)]].
      * by exists e.
      * apply (Hins j e0 e1 Hj). intros ->. by simplify_eq.
      * exists e. by rewrite lookup_app_l by (by eapply lookup_lt_Some).
    + destruct (client_locked_entries ip tid p cb w)
        as [->|(j & e0 & hc & ch & Hj & -> & _)]; [by exists e|].
      by apply (Hins j e0 _ Hj).
  - destruct (start_turn_frame t o w) as (-> & _). by exists e.
  - destruct (accept_turn_frame t cs err ok w) as (-> & _). by exists e.
  - destruct (handlers w !! h) as [[c j]|]; [|by exists e].
    destruct (socketserver_readable_frame j w) as (-> & _). by exists e.
  - destruct (events w !! k) as [[tid j]|]; [|by exists e].
    set (w0 := set_events (delete k (events w)) w).
    destruct (drain_cases j w0) as [[-> _]|(e0 & Hj & _ & Hd)];
      [by exists e|].
    pose proof (os_recvmsg_frame (out e0) w0) as (Hr & _).
    simpl in Hd.
    destruct Hd as [[_ ->]|[[_ ->]|[_ (s & ->)]]]; simpl; rewrite Hr; simpl;
      by apply (Hins j e0 _ Hj).
Qed.
End ServedPort.

Section ServerTheorem.
Context `{Host}.

(** The entry the lookup returns for a port, once it has its socketpair,
    is the same entry with the same socketpair after every step. *)
Lemma step_served rp i a o w l :
  in_ a ≠ -1 →
  search_port (ports (registry w)) rp 0 = Some i →
  (∃ e, ports (registry w) !! i = Some e ∧ targs e = a ∧ out e = o) →
  search_port (ports (registry (step w l))) rp 0 = Some i ∧
  (∃ e, ports (registry (step w l)) !! i = Some e ∧ targs e = a ∧ out e = o).
Proof.
  intros Ha Hs (e & Hi & Hta & Ho). split.
  - destruct (step_keys_grow w l) as [extra Hk].
    by apply (search_port_grow (ports (registry w)) _ extra).
  - destruct (step_socketpair_kept w l i e Hi) as (e' & Hi' & Hta' & Ho');
      [by rewrite Hta|].
    exists e'. by rewrite Hta', Ho'.
Qed.

Lemma run_served rp i a o w ls :
  in_ a ≠ -1 →
  search_port (ports (registry w)) rp 0 = Some i →
  (∃ e, ports (registry w) !! i = Some e ∧ targs e = a ∧ out e = o) →
  search_port (ports (registry (run w ls))) rp 0 = Some i ∧
  (∃ e, ports (registry (run w ls)) !! i = Some e ∧ targs e = a ∧
        out e = o).
Proof.
  intros Ha. revert w. induction ls as [|l ls IH]; intros w Hs He; [done|].
  rewrite run_cons.
  destruct (step_served rp i a o w l Ha Hs He) as [Hs' He'].
  by apply IH.
Qed.

Lemma step_has_socketpair rp w l :
  has_socketpair rp w = true → has_socketpair rp (step w l) = true.
Proof.
  rewrite !has_socketpair_true. intros (i & e & Hs & Hi & Hin).
  destruct (step_served rp i (targs e) (out e) w l Hin Hs)
    as (Hs' & e' & Hi' & Hta & _); [by exists e|].
  exists i, e'. by rewrite Hta.
Qed.

Lemma run_default_port w ls p :
  ports (registry w) ≠ [] →
  default_port (ports (registry (run w ls))) p =
    default_port (ports (registry w)) p.
Proof.
  revert w. induction ls as [|l ls IH]; intros w Hne; [done|].
  rewrite run_cons.
  destruct (step_keys_grow w l) as [extra Hk].
  rewrite IH.
  - by apply (default_port_grow _ _ extra).
  - intros Hnil. unfold keys in Hk. rewrite Hnil in Hk.
    destruct (ports (registry w)); [done|]. done.
Qed.

(** When [server] starts a thread: the port had no socketpair, the
    thread is started for that port, and the port has its socketpair
    afterwards unless [socketpair] handed out -1. *)
Lemma server_locked_spawn p os w :
  let rp := default_port (ports (registry w)) p in
  let w1 := fst (server_locked p os w) in
  threads w1 = threads w ∨
  (∃ s0 s1,
     socketpair_ret os = Some (s0, s1) ∧
     has_socketpair rp w = false ∧
     threads w1 = threads w ++ [mk_thread (mk_targs s0 rp) Starting] ∧
     (s0 ≠ -1 → has_socketpair rp w1 = true)).
Proof.
  intros rp w1. subst w1. unfold server_locked, socketserver_getPort.
  fold rp.
  destruct (search_port (ports (registry w)) rp 0) as [i|] eqn:Hs.
  - pose proof Hs as Hs'.
    apply search_port_some in Hs' as (j & e & Hij & Hj & Hp).
    simpl in Hij. subst j. unfold entry_at. simpl. rewrite Hj. simpl.
    destruct (Z.eqb_spec (in_ (targs e)) (-1)) as [Hin|Hin]; [|by left].
    destruct (socketpair_ret os) as [[s0 s1]|]; [|by left].
    destruct (pthread_create_ret os =? 0); [|by left].
    right. exists s0, s1. split_and!.
    + done.
    + unfold has_socketpair. rewrite Hs, Hj, Hin. done.
    + simpl. by rewrite Hp.
    + intros Hs0. apply has_socketpair_true.
      set (e' := set_out s1 (set_targs (mk_targs s0 (port (targs e))) e)).
      exists i, e'. simpl. split_and!; [| |done].
      * rewrite <- (search_port_keys (ports (registry w))); [done|].
        by apply (same_keys_insert _ _ e).
      * apply list_lookup_insert_eq. by eapply lookup_lt_Some.
  - simpl. rewrite link_last_app. unfold entry_at. simpl.
    rewrite lookup_app_r by done. rewrite Nat.sub_diag. simpl.
    destruct (socketpair_ret os) as [[s0 s1]|]; [|by left].
    destruct (pthread_create_ret os =? 0); [|by left].
    right. exists s0, s1. split_and!.
    + done.
    + unfold has_socketpair. by rewrite Hs.
    + done.
    + intros Hs0. apply has_socketpair_true. simpl.
      rewrite insert_app_r_alt by done. rewrite Nat.sub_diag. simpl.
      eexists _, _. split_and!.
      * apply search_port_appended; [|done].
        by eapply search_port_none_inv.
      * rewrite lookup_app_r by done. by rewrite Nat.sub_diag.
      * done.
Qed.

Lemma client_locked_threads ip tid p cb w :
  threads (fst (client_locked ip tid p cb w)) = threads w.
Proof.
  destruct (search_port (ports (registry w))
              (default_port (ports (registry w)) p) 0) as [i|] eqn:Hs.
  - pose proof Hs as Hs'.
    apply search_port_some in Hs' as (j & e & Hij & Hj & _).
    simpl in Hij. subst j.
    rewrite (client_locked_found ip tid p cb w i e Hs Hj).
    by destruct (have_channel e =? 0).
  - by rewrite client_locked_missing.
Qed.

(** Threads are started by [server] alone, for a port that had no
    socketpair; every other step leaves each thread with its port. *)
Lemma step_thread_ports w l :
  thread_ports (step w l) = thread_ports w ∨
  (∃ q, has_socketpair q w = false ∧
        thread_ports (step w l) = thread_ports w ++ [q] ∧
        (socketpair_valid l = true → has_socketpair q (step w l) = true)).
Proof.
  unfold thread_ports.
  destruct l as [ip tid objv os|t o|t cs err ok|h|k]; simpl.
  - destruct (cmd_cases ip tid objv os w)
      as [(res & -> & _)|[(o0 & o1 & o2 & p & -> & _ & _ & ->)|
                          (p & cb & _ & _ & ->)]].
    + by left.
    + destruct (server_locked_spawn p os w)
        as [->|(s0 & s1 & Hsp & Hno & -> & Hafter)]; [by left|].
      right. eexists. split_and!; [exact Hno | by rewrite fmap_app |].
      rewrite Hsp. intros Hv. apply Hafter. lia.
    + left. by rewrite client_locked_threads.
  - left. unfold start_turn.
    destruct (threads w !! t) as [[a [|sd|r]]|] eqn:Ht; try done.
    destruct (thread_step a Starting (InStartup o)) as [st acts]. simpl.
    by apply (fmap_insert_same _ _ _ (mk_thread a Starting)).
  - left. unfold accept_turn.
    destruct (threads w !! t) as [[a [|sd|r]]|] eqn:Ht; try done.
    pose proof (os_sendmsg_frame (in_ a) cs ok w) as Hf.
    destruct (os_sendmsg (in_ a) cs ok w) as [ret w_sent]. simpl in Hf.
    destruct Hf as (_ & _ & _ & _ & _ & _ & Hth & _).
    destruct (thread_step a (Accepting sd) _) as [st acts].
    destruct (existsb is_sendmsg acts); simpl; rewrite ?Hth;
      by apply (fmap_insert_same _ _ _ (mk_thread a (Accepting sd))).
  - left. destruct (handlers w !! h) as [[c i]|]; [|done].
    by destruct (socketserver_readable_frame i w) as (_ & _ & _ & _ & _ & ->).
  - left. destruct (events w !! k) as [[tid i]|]; [|done].
    by destruct (drain_frame i (set_events (delete k (events w)) w))
      as (_ & _ & -> & _).
Qed.

(** A port that has its socketpair gets no further thread. *)
Lemma run_no_further_thread rp w ls :
  has_socketpair rp w = true →
  filter (λ q, q = rp) (thread_ports (run w ls)) =
    filter (λ q, q = rp) (thread_ports w).
Proof.
  revert w. induction ls as [|l ls IH]; intros w Hrp; [done|].
  rewrite run_cons, IH by (by apply step_has_socketpair).
  destruct (step_thread_ports w l) as [->|(q & Hq & -> & _)]; [done|].
  rewrite filter_app, filter_cons, filter_nil.
  destruct (decide (q = rp)) as [->|]; [congruence|].
  by rewrite app_nil_r.
Qed.

(** No two threads for one port, in every run in which [socketpair]
    keeps to its contract. *)
Lemma run_thread_ports_distinct w ls :
  forallb socketpair_valid ls = true →
  NoDup (thread_ports w) →
  (∀ q, q ∈ thread_ports w → has_socketpair q w = true) →
  NoDup (thread_ports (run w ls)) ∧
  (∀ q, q ∈ thread_ports (run w ls) → has_socketpair q (run w ls) = true).
Proof.
  revert w. induction ls as [|l ls IH]; intros w Hv Hnd Hall; [done|].
  simpl in Hv. apply andb_true_iff in Hv as [Hl Hls].
  rewrite run_cons. apply IH; [done | |].
  - destruct (step_thread_ports w l) as [->|(q & Hq & -> & _)]; [done|].
    apply NoDup_app. split_and!; [done | | apply NoDup_singleton].
    intros x Hx ->%list_elem_of_singleton.
    specialize (Hall _ Hx). congruence.
  - intros q Hq.
    destruct (step_thread_ports w l) as [Heq|(q' & Hq' & Heq & Hafter)];
      rewrite Heq in Hq.
    + apply step_has_socketpair. by apply Hall.
    + apply elem_of_app in Hq as [Hq| ->%list_elem_of_singleton].
      * apply step_has_socketpair. by apply Hall.
      * by apply Hafter.
Qed.
(** A registration for a port without socketpair, both system calls
    succeeding. *)
Lemma server_locked_creates p s0 s1 w :
  let rp := default_port (ports (registry w)) p in
  let r := server_locked p (mk_os (Some (s0, s1)) 0) w in
  has_socketpair rp w = false →
  snd r = cmd_ok ∧
  peer (fst r) = <[s0:=s1]> (peer w) ∧
  inflight (fst r) = <[s1:=[]]> (inflight w) ∧
  threads (fst r) = threads w ++ [mk_thread (mk_targs s0 rp) Starting] ∧
  default_port (ports (registry (fst r))) p = rp ∧
  ∃ i, search_port (ports (registry (fst r))) rp 0 = Some i ∧
       ∃ e, ports (registry (fst r)) !! i = Some e ∧
            targs e = mk_targs s0 rp ∧ out e = s1.
Proof.
  intros rp r Hno. subst r. unfold server_locked, socketserver_getPort.
  fold rp. unfold has_socketpair in Hno.
  destruct (search_port (ports (registry w)) rp 0) as [i|] eqn:Hs.
  - pose proof Hs as Hs'.
    apply search_port_some in Hs' as (j & e & Hij & Hj & Hp).
    simpl in Hij. subst j. rewrite Hj in Hno.
    unfold entry_at. simpl. rewrite Hj. simpl.
    destruct (in_ (targs e) =? -1); [|done]. simpl.
    set (e' := set_out s1 (set_targs (mk_targs s0 (port (targs e))) e)).
    assert (Forall2 (λ a b : socketserver_port,
                       port (targs a) = port (targs b))
                    (ports (registry w)) (<[i:=e']> (ports (registry w))))
      as Hkeys by (by apply (same_keys_insert _ _ e)).
    split_and!; [done | done | done | by rewrite Hp | |].
    + by rewrite <- (default_port_keys _ _ _ Hkeys).
    + exists i. split; [by rewrite <- (search_port_keys _ _ _ _ Hkeys)|].
      exists e'. split_and!; [|by rewrite <- Hp | done].
      apply list_lookup_insert_eq. by eapply lookup_lt_Some.
  - simpl. rewrite link_last_app. unfold entry_at. simpl.
    rewrite lookup_app_r by done. rewrite Nat.sub_diag. simpl.
    rewrite insert_app_r_alt by done. rewrite Nat.sub_diag. simpl.
    set (e' := set_out s1 (set_targs (mk_targs s0 rp) (new_port rp))).
    split_and!; [done | done | done | done | |].
    + by apply default_port_appended.
    + exists (0 + length (ports (registry w)))%nat. split.
      * apply search_port_appended; [|done].
        by eapply search_port_none_inv.
      * exists e'. simpl. rewrite lookup_app_r by done.
        by rewrite Nat.sub_diag.
Qed.

(** A registration for a port without socketpair when [socketpair]
    fails. *)
Lemma server_locked_no_socketpair p pc w :
  let rp := default_port (ports (registry w)) p in
  let r := server_locked p (mk_os None pc) w in
  has_socketpair rp w = false →
  snd r = cmd_error "Failed to create thread to read socketpipe" ∧
  peer (fst r) = peer w ∧ inflight (fst r) = inflight w ∧
  threads (fst r) = threads w ∧
  default_port (ports (registry (fst r))) p = rp ∧
  has_socketpair rp (fst r) = false.
Proof.
  intros rp r Hno. subst r. unfold server_locked, socketserver_getPort.
  fold rp. unfold has_socketpair in Hno.
  destruct (search_port (ports (registry w)) rp 0) as [i|] eqn:Hs.
  - pose proof Hs as Hs'.
    apply search_port_some in Hs' as (j & e & Hij & Hj & Hp).
    simpl in Hij. subst j. rewrite Hj in Hno.
    unfold entry_at. simpl. rewrite Hj. simpl.
    destruct (in_ (targs e) =? -1) eqn:Hin; [|done]. simpl.
    split_and!; [done | done | done | done | done |].
    unfold has_socketpair. simpl. by rewrite Hs, Hj, Hin.
  - simpl. rewrite link_last_app. unfold entry_at. simpl.
    rewrite lookup_app_r by done. rewrite Nat.sub_diag. simpl.
    split_and!; [done | done | done | done | |].
    + by apply default_port_appended.
    + unfold has_socketpair. simpl.
      rewrite (search_port_appended _ rp (new_port rp) 0);
        [|by eapply search_port_none_inv | done].
      rewrite lookup_app_r by (simpl; lia).
      by replace (0 + length (ports (registry w)) -
                  length (ports (registry w)))%nat with 0%nat by lia.
Qed.

(** C6. [server] is idempotent per port from the registration that
    succeeds.  For a port that has no socketpair yet (no entry, or an
    entry left by a registration whose [socketpair] failed), a
    registration whose system calls succeed returns [TCL_OK], creates the
    socketpair, records it in the entry of the port and starts one
    acceptor thread for the port.  From then on, in whatever state the
    process has got to since (commands, turns of the threads,
    notifications, deliveries, descriptors in flight), every [server] for
    the port returns [TCL_OK] and leaves the whole process state as it
    is, whatever the system would answer; the entry keeps its socketpair;
    and no further thread is ever started for the port.  A registration
    whose [socketpair] fails returns [TCL_ERROR], creates neither
    socketpair nor thread and leaves the port to be tried again.  And in
    every run from the start, [socketpair] keeping to its contract, no
    two threads are started for one port. *)
Theorem server_idempotent (ip tid : Z) (ps : string) (p s0 s1 : Z)
    (w : world) :
  object_magic (registry w) = SOCKETSERVER_OBJECT_MAGIC →
  0 ≤ s0 →
  let rp := default_port (ports (registry w)) p in
  has_socketpair rp w = false →
  let first := socketserverObjCmd ip tid (server_words ps p)
                                  (mk_os (Some (s0, s1)) 0) w in
  let w1 := fst first in
  (snd first = cmd_ok ∧
   peer w1 = <[s0:=s1]> (peer w) ∧
   inflight w1 = <[s1:=[]]> (inflight w) ∧
   threads w1 = threads w ++ [mk_thread (mk_targs s0 rp) Starting]) ∧
  (∃ i, ∀ later,
     search_port (ports (registry (run w1 later))) rp 0 = Some i ∧
     ∃ e, ports (registry (run w1 later)) !! i = Some e ∧
          targs e = mk_targs s0 rp ∧ out e = s1) ∧
  (∀ later ip' tid' ps' os',
     socketserverObjCmd ip' tid' (server_words ps' p) os' (run w1 later) =
       (run w1 later, cmd_ok)) ∧
  (∀ later,
     filter (λ q, q = rp) (thread_ports (run w1 later)) =
       filter (λ q, q = rp) (thread_ports w) ++ [rp]) ∧
  (∀ pc,
     let failed := socketserverObjCmd ip tid (server_words ps p)
                                      (mk_os None pc) w in
     snd failed = cmd_error "Failed to create thread to read socketpipe" ∧
     peer (fst failed) = peer w ∧ inflight (fst failed) = inflight w ∧
     threads (fst failed) = threads w ∧
     has_socketpair (default_port (ports (registry (fst failed))) p)
                    (fst failed) = false) ∧
  (∀ history,
     forallb socketpair_valid history = true →
     NoDup (thread_ports (run initial_world history))).
Proof.
  intros Hm Hs0 rp Hno first w1. subst w1 first.
  rewrite cmd_server by done.
  destruct (server_locked_creates p s0 s1 w Hno)
    as (Hres & Hpeer & Hfl & Hth & Hdef & i & Hsearch & Hentry).
  fold rp in Hth, Hdef, Hsearch, Hentry.
  set (w1 := fst (server_locked p (mk_os (Some (s0, s1)) 0) w)) in *.
  assert (in_ (mk_targs s0 rp) ≠ -1) as Hin by (simpl; lia).
  assert (ports (registry w1) ≠ []) as Hne.
  { destruct Hentry as (e & Hi & _). intros Hnil. by rewrite Hnil in Hi. }
  assert (object_magic (registry w1) = SOCKETSERVER_OBJECT_MAGIC) as Hm1.
  { subst w1. destruct (server_locked_ports p (mk_os (Some (s0, s1)) 0) w)
      as [(_ & _ & _ & _ & _ & ->) _]. done. }
  refine (conj _ (conj _ (conj _ (conj _ (conj _ _))))).
  - by split_and!.
  - exists i. intros later.
    exact (run_served rp i (mk_targs s0 rp) s1 w1 later Hin Hsearch Hentry).
  - intros later ip' tid' ps' os'.
    destruct (run_served rp i (mk_targs s0 rp) s1 w1 later Hin Hsearch
                Hentry) as (Hs2 & e & Hi2 & Hta & _).
    rewrite cmd_server by (by rewrite run_magic).
    apply (server_locked_running p os' (run w1 later) i e).
    + by rewrite run_default_port, Hdef.
    + done.
    + by rewrite Hta.
  - intros later.
    rewrite run_no_further_thread.
    + unfold thread_ports. rewrite Hth, fmap_app, filter_app. simpl.
      rewrite filter_cons, filter_nil. by rewrite decide_True.
    + apply has_socketpair_true.
      destruct Hentry as (e & Hi & Hta & _).
      exists i, e. by rewrite Hta.
  - intros pc. simpl. rewrite cmd_server by done.
    destruct (server_locked_no_socketpair p pc w Hno)
      as (Hr & Hp' & Hf' & Ht' & Hd' & Hh').
    fold rp in Hd', Hh'. rewrite Hd'. by split_and!.
  - intros history Hv.
    destruct (run_thread_ports_distinct initial_world history Hv)
      as [Hnd _]; [apply NoDup_nil_2 | | done].
    intros q Hq. by apply elem_of_nil in Hq.
Qed.
End ServerTheorem.

Section ServerOnLinux.
Local Existing Instance linux_host.

(** [server 9001] on the initial world, [socketpair] giving descriptors 3
    and 4: one thread.  Then the thread gets to its loop and hands over
    the connections 10 and 11; a further [server 9001] in that state,
    with a system that would give another socketpair, leaves the state as
    it is. *)
Lemma server_idempotent_witness :
  let w1 := fst (socketserverObjCmd 1 7 (server_words "9001" 9001)
                                    (mk_os (Some (3, 4)) 0) initial_world) in
  let live := run w1 [LStart 0 (mk_startup 5 0 0); LAccept 0 10 0 true;
                      LAccept 0 11 0 true] in
  threads w1 = [mk_thread (mk_targs 3 9001) Starting] ∧
  inflight live !! 4 = Some [10; 11] ∧
  socketserverObjCmd 1 7 (server_words "9001" 9001) (mk_os (Some (5, 6)) 0)
                     live = (live, cmd_ok) ∧
  thread_ports live = [9001].
Proof.
  intros w1 live.
  destruct (server_idempotent 1 7 "9001" 9001 3 4 initial_world)
    as ((_ & _ & _ & Hth) & _ & Hlater & Hcount & _);
    [reflexivity | lia | reflexivity |].
  split_and!.
  - exact Hth.
  - reflexivity.
  - exact (Hlater [LStart 0 (mk_startup 5 0 0); LAccept 0 10 0 true;
                   LAccept 0 11 0 true] 1 7 "9001" (mk_os (Some (5, 6)) 0)).
  - reflexivity.
Defined.

(** [server 9001] twice on the initial world, [socketpair] failing the
    first time: the first registration returns [TCL_ERROR] and creates
    neither socketpair nor thread; it is the second that writes the
    socketpair into the entry and starts the thread. *)
Lemma first_server_call_may_create_nothing :
  let first := socketserverObjCmd 1 7 (server_words "9001" 9001)
                                  (mk_os None 0) initial_world in
  let second := socketserverObjCmd 1 7 (server_words "9001" 9001)
                                   (mk_os (Some (3, 4)) 0) (fst first) in
  rc (snd first) = TCL_ERROR ∧
  ports (registry (fst first)) =
    [mk_port (mk_targs (-1) 9001) 0 0 0 0 0 0 None 0] ∧
  peer (fst first) = ∅ ∧
  threads (fst first) = [] ∧
  snd second = cmd_ok ∧
  ports (registry (fst second)) =
    [mk_port (mk_targs 3 9001) 4 0 0 0 0 0 None 0] ∧
  peer (fst second) !! 3 = Some 4 ∧
  threads (fst second) = [mk_thread (mk_targs 3 9001) Starting] ∧
  fst second ≠ fst first.
Proof.
  intros first second. split_and!; try reflexivity.
  intros Heq. apply (f_equal threads) in Heq. vm_compute in Heq.
  discriminate.
Qed.
End ServerOnLinux.

(** ** The [have_channel] flag *)

Section HaveChannel.
Context `{Host}.

(** No step raises [have_channel]. *)
Lemma step_have_channel w l :
  Forall (λ e, have_channel e = 0) (ports (registry w)) →
  Forall (λ e, have_channel e = 0) (ports (registry (step w l))).
Proof.
  intros Hall.
  destruct (step_ports w l)
    as [_ [[-> _]|[(p & e' & _ & -> & _ & _ & Hc & _)|
                   [(i & e & e' & Hi & -> & _ & Hc & _)|
                    (k & tid & i & e & _ & _ & Hi & _ & -> & _)]]]].
  - done.
  - apply Forall_app. split; [done|]. by constructor.
  - apply Forall_insert; [done|]. apply Hc.
    by apply (Forall_lookup_1 _ _ _ _ Hall Hi).
  - apply Forall_insert; [done|]. simpl.
    by apply (Forall_lookup_1 _ _ _ _ Hall Hi).
Qed.

Lemma run_have_channel w ls :
  Forall (λ e, have_channel e = 0) (ports (registry w)) →
  Forall (λ e, have_channel e = 0) (ports (registry (run w ls))).
Proof.
  revert w. induction ls as [|l ls IH]; intros w Hall; [done|].
  rewrite run_cons. apply IH. by apply step_have_channel.
Qed.

(** C9. In every state the process can reach, [have_channel] is 0 in
    every entry: the only assignment to it stores 0.  So every [client]
    registration that succeeds takes the branch: it wraps the read end in
    one more Tcl channel, with a handle no earlier channel has, and
    installs one more channel handler for the entry; and [have_channel]
    is 0 again after it. *)
Theorem client_recreates_channel (history : list label) (ip tid : Z)
    (objv : list Tcl_Obj) (os : os_outcome) :
  let w := run initial_world history in
  let w' := fst (socketserverObjCmd ip tid objv os w) in
  Forall (λ e, have_channel e = 0) (ports (registry w)) ∧
  Forall (λ e, have_channel e = 0) (ports (registry w')) ∧
  (is_client_cmd (LCmd ip tid objv os) = true →
   rc (snd (socketserverObjCmd ip tid objv os w)) = TCL_OK →
   ∃ i e cb,
     ports (registry w) !! i = Some e ∧
     tcl_channels w' = tcl_channels w ++ [out e] ∧
     handlers w' =
       handlers w ++ [(Z.of_nat (length (tcl_channels w)) + 1, i)] ∧
     ports (registry w') =
       <[i := mk_port (targs e) (out e) 1 0
                      (Z.of_nat (length (tcl_channels w)) + 1) ip tid
                      (Some cb) (Z.of_nat (String.length cb) + 80)]>
         (ports (registry w))).
Proof.
  intros w w'.
  assert (Forall (λ e, have_channel e = 0) (ports (registry w))) as Hall.
  { unfold w. apply run_have_channel. constructor. }
  split_and!.
  - done.
  - apply (step_have_channel w (LCmd ip tid objv os) Hall).
  - intros Hcl Hrc. subst w'.
    destruct (cmd_cases ip tid objv os w)
      as [(res & Hcmd & Herr)|[(o0 & o1 & o2 & p & -> & Ho1 & _)|
                              (p & cb & _ & _ & Hcmd)]].
    + rewrite Hcmd in Hrc. simpl in Hrc. by rewrite Hrc in Herr.
    + simpl in Hcl. by rewrite Ho1 in Hcl.
    + rewrite Hcmd in *. clear Hcmd.
      destruct (search_port (ports (registry w))
                  (default_port (ports (registry w)) p) 0) as [i|] eqn:Hs.
      * pose proof Hs as Hs'.
        apply search_port_some in Hs' as (j & e & Hij & Hj & _).
        simpl in Hij. subst j.
        rewrite (client_locked_found ip tid p cb w i e Hs Hj).
        rewrite (Forall_lookup_1 _ _ _ _ Hall Hj). simpl.
        by exists i, e, cb.
      * rewrite client_locked_missing in Hrc by done. done.
Qed.
End HaveChannel.

Section HaveChannelOnLinux.
Local Existing Instance linux_host.

(** [server 9001], [client -port 9001 cb], and [client -port 9001 cb]
    once more: the second registration wraps descriptor 4 a second time
    and installs a second handler for entry 0. *)
Lemma client_recreates_channel_witness :
  let history :=
    [LCmd 1 7 (server_words "9001" 9001) (mk_os (Some (3, 4)) 0);
     LCmd 1 7 (client_port_words "9001" 9001 "cb") (mk_os None 0)] in
  let w := run initial_world history in
  let w' := fst (socketserverObjCmd 1 7 (client_port_words "9001" 9001 "cb")
                                    (mk_os None 0) w) in
  (∃ i e cb,
     ports (registry w) !! i = Some e ∧
     tcl_channels w' = tcl_channels w ++ [out e] ∧
     handlers w' =
       handlers w ++ [(Z.of_nat (length (tcl_channels w)) + 1, i)] ∧
     ports (registry w') =
       <[i := mk_port (targs e) (out e) 1 0
                      (Z.of_nat (length (tcl_channels w)) + 1) 1 7
                      (Some cb) (Z.of_nat (String.length cb) + 80)]>
         (ports (registry w))) ∧
  tcl_channels w' = [4; 4] ∧
  handlers w' = [(1, 0%nat); (2, 0%nat)] ∧
  have_channel <$> ports (registry w') = [0].
Proof.
  intros history w w'.
  destruct (client_recreates_channel history 1 7
              (client_port_words "9001" 9001 "cb") (mk_os None 0))
    as (_ & _ & Hreg).
  split_and!.
  - apply Hreg; reflexivity.
  - reflexivity.
  - reflexivity.
  - reflexivity.
Defined.
End HaveChannelOnLinux.

(** ** The guard *)

Section Guard.
Context `{Host}.

Lemma guards_insert w i e :
  guards (set_entry i e w) = <[i := active e]> (guards w).
Proof. unfold guards. simpl. by rewrite list_fmap_insert. Qed.

Lemma guards_lookup w i a :
  guards w !! i = Some a ↔
  ∃ e, ports (registry w) !! i = Some e ∧ active e = a.
Proof.
  unfold guards. rewrite list_lookup_fmap. split.
  - destruct (ports (registry w) !! i) as [e|]; [|done].
    simpl. intros [= <-]. by exists e.
  - intros (e & -> & <-). done.
Qed.

(** With the guard of entry [i] down the handler does nothing. *)
Lemma drain_guard_down i w :
  guards w !! i = Some 0 → drain i w = (w, Ignored).
Proof.
  intros (e & Hi & Ha)%guards_lookup.
  destruct (drain_cases i w) as [[-> _]|(e' & Hi' & Ha' & _)]; [done|].
  by simplify_eq.
Qed.

(** A step that is not a [client] registration leaves a guard that is
    down as it is, and the deliveries of that entry with it. *)
Lemma step_guard_down w l i :
  is_client_cmd l = false →
  guards w !! i = Some 0 →
  guards (step w l) !! i = Some 0 ∧
  filter (λ d, d_entry d = i) (evals (step w l)) =
    filter (λ d, d_entry d = i) (evals w).
Proof.
  intros Hl Hi. unfold guards in *.
  destruct (step_ports w l)
    as [_ [[-> ->]|[(p & e' & _ & -> & _ & _ & _ & ->)|
                    [(j & e & e' & Hj & -> & _ & _ & -> & Hact)|
                     (k & tid & j & e & _ & _ & Hj & Ha & -> & Hev)]]]].
  - done.
  - split; [|done]. rewrite fmap_app. by apply lookup_app_l_Some.
  - split; [|done]. rewrite list_fmap_insert.
    destruct (decide (j = i)) as [->|Hne].
    + rewrite list_lookup_fmap, Hj in Hi. simpl in Hi.
      injection Hi as Hi.
      rewrite list_lookup_insert_eq
        by (rewrite length_fmap; by eapply lookup_lt_Some).
      destruct Hact as [->|[[Hc _]|[Hc _]]]; [by rewrite Hi | | done].
      by rewrite Hc in Hl.
    + by rewrite list_lookup_insert_ne.
  - assert (j ≠ i) as Hne.
    { intros ->. rewrite list_lookup_fmap, Hj in Hi. simpl in Hi.
      by injection Hi. }
    split.
    + rewrite list_fmap_insert. by rewrite list_lookup_insert_ne.
    + destruct Hev as [->|(fd & s & ->)]; [done|].
      rewrite filter_app, filter_cons_False by done.
      by rewrite filter_nil, app_nil_r.
Qed.

Lemma run_guard_down w ls i :
  (∀ l, l ∈ ls → is_client_cmd l = false) →
  guards w !! i = Some 0 →
  guards (run w ls) !! i = Some 0 ∧
  filter (λ d, d_entry d = i) (evals (run w ls)) =
    filter (λ d, d_entry d = i) (evals w).
Proof.
  revert w. induction ls as [|l ls IH]; intros w Hls Hi; [done|].
  rewrite run_cons.
  destruct (step_guard_down w l i) as [Hg Hv]; [apply Hls; by left | done |].
  destruct (IH (step w l)) as [Hg' Hv']; [|done|].
  { intros l' Hl'. apply Hls. by right. }
  split; [done | by rewrite Hv'].
Qed.

(** A drain that received a descriptor leaves the guard down. *)
Lemma drain_received_guard i w w1 res :
  drain i w = (w1, res) →
  res ≠ Ignored → res ≠ NoData →
  guards w1 !! i = Some 0.
Proof.
  intros Hd Hign Hnd.
  destruct (drain_cases i w) as [[Hd' _]|(e & Hi & Ha & Hc)].
  { rewrite Hd in Hd'. by simplify_eq. }
  pose proof (os_recvmsg_frame (out e) w) as (Hr & _).
  simpl in Hc. rewrite Hd in Hc.
  assert (i < length (guards (snd (os_recvmsg (out e) w))))%nat as Hlt.
  { unfold guards. rewrite length_fmap, Hr. by eapply lookup_lt_Some. }
  destruct Hc as [[_ Hc]|[[_ Hc]|[_ (script & Hc)]]]; simplify_eq.
  - assert (guards (set_entry i (set_active 0 e)
                              (snd (os_recvmsg (out e) w))) !! i = Some 0)
      as Hg by (rewrite guards_insert; by apply list_lookup_insert_eq).
    done.
  - assert (guards (set_entry i (set_active 0 e)
                              (snd (os_recvmsg (out e) w))) !! i = Some 0)
      as Hg by (rewrite guards_insert; by apply list_lookup_insert_eq).
    done.
Qed.

(** C10. In the drain handler the guard comes out raised only on the
    path where an armed handler failed to receive; otherwise it comes
    out down.  After a drain that received a descriptor the guard of the
    entry is down, and it stays down through every sequence of steps
    that has no [client] registration in it ([server] commands, acceptor
    turns, notifications, dispatches): nothing more is delivered for the
    entry and the drain handler on it changes nothing.  The step that
    raises it again is a [client] registration, which sets it to 1. *)
Theorem guard_stays_down (w : world) (i : nat) (w1 : world)
    (res : drain_result) :
  drain i w = (w1, res) →
  res ≠ Ignored → res ≠ NoData →
  (∀ r data,
     active (fst (socketserver_EventProc r data)) =
       if (active data =? 0) || negb (recv_fd r =? -1) then 0 else 1) ∧
  (∀ ls, (∀ l, l ∈ ls → is_client_cmd l = false) →
         guards (run w1 ls) !! i = Some 0 ∧
         filter (λ d, d_entry d = i) (evals (run w1 ls)) =
           filter (λ d, d_entry d = i) (evals w1) ∧
         drain i (run w1 ls) = (run w1 ls, Ignored)) ∧
  (∀ ls l, (∀ l', l' ∈ ls → is_client_cmd l' = false) →
           guards (step (run w1 ls) l) !! i ≠ Some 0 →
           is_client_cmd l = true ∧
           guards (step (run w1 ls) l) !! i = Some 1).
Proof.
  intros Hd Hign Hnd.
  pose proof (drain_received_guard i w w1 res Hd Hign Hnd) as Hdown.
  split_and!.
  - intros r data. unfold socketserver_EventProc.
    destruct (Z.eqb_spec (active data) 0) as [Ha|Ha]; [done|].
    destruct (Z.eqb_spec (recv_fd r) (-1)); [done|]. simpl.
    by destruct (Tcl_GetChannelName (recv_fd r)) as [[|c name]|].
  - intros ls Hls.
    destruct (run_guard_down w1 ls i Hls Hdown) as [Hg Hv].
    split_and!; [done | done | by apply drain_guard_down].
  - intros ls l Hls Hup.
    destruct (run_guard_down w1 ls i Hls Hdown) as [Hg _].
    destruct (is_client_cmd l) eqn:Hl.
    + split; [done|].
      apply guards_lookup in Hg as (e & Hi & Ha).
      unfold guards in *.
      destruct (step_ports (run w1 ls) l)
        as [_ [[Hp _]|[(p & e' & _ & Hp & _)|
                       [(j & e0 & e' & Hj & Hp & _ & _ & _ & Hact)|
                        (k & tid & j & e0 & Hk & _)]]]].
      * exfalso. apply Hup. by rewrite Hp, list_lookup_fmap, Hi, <- Ha.
      * exfalso. apply Hup. rewrite Hp, fmap_app.
        apply lookup_app_l_Some. by rewrite list_lookup_fmap, Hi, <- Ha.
      * rewrite Hp, list_fmap_insert in *.
        destruct (decide (j = i)) as [->|Hne].
        -- rewrite list_lookup_insert_eq in *
             by (rewrite length_fmap; by eapply lookup_lt_Some).
           simplify_eq.
           destruct Hact as [Hact|[[_ ->]|[_ ->]]]; [|done|done].
           exfalso. apply Hup. by rewrite Hact, Ha.
        -- exfalso. apply Hup. rewrite list_lookup_insert_ne by done.
           by rewrite list_lookup_fmap, Hi, <- Ha.
      * by subst l.
    + exfalso. apply Hup. by apply step_guard_down.
Qed.
End Guard.

Section GuardOnLinux.
Local Existing Instance linux_host.

(** [server 9001], the thread up, connections 10 and 11 accepted,
    [client -port 9001 cb]; the first dispatch delivers 10.  Then two
    notifications, a third connection, a [server] again and three
    dispatches deliver nothing: 11 and 12 stay in flight. *)
Lemma guard_stays_down_witness :
  let setup :=
    [LCmd 1 7 (server_words "9001" 9001) (mk_os (Some (3, 4)) 0);
     LStart 0 (mk_startup 5 0 0);
     LAccept 0 10 0 true; LAccept 0 11 0 true;
     LCmd 1 7 (client_port_words "9001" 9001 "cb") (mk_os None 0)] in
  let w := run initial_world setup in
  let w1 := fst (drain 0 w) in
  let later :=
    [LReadable 0; LReadable 0; LAccept 0 12 0 true;
     LCmd 1 7 (server_words "9001" 9001) (mk_os (Some (8, 9)) 0);
     LDispatch 0; LDispatch 0; LDispatch 0] in
  snd (drain 0 w) = Evaluated 10 "cb file10" ∧
  guards (run w1 later) !! 0%nat = Some 0 ∧
  filter (λ d, d_entry d = 0%nat) (evals (run w1 later)) =
    filter (λ d, d_entry d = 0%nat) (evals w1) ∧
  drain 0 (run w1 later) = (run w1 later, Ignored) ∧
  evals (run w1 later) = [mk_delivery 0 10 "cb file10"] ∧
  inflight (run w1 later) !! 4 = Some [11; 12].
Proof.
  intros setup w w1 later.
  assert (drain 0 w = (w1, Evaluated 10 "cb file10")) as Hd
    by (by vm_compute).
  destruct (guard_stays_down w 0 w1 (Evaluated 10 "cb file10") Hd)
    as (_ & Hstay & _); [done | done |].
  destruct (Hstay later) as (Hg & Hv & Hn).
  { intros l Hl. unfold later in Hl.
    repeat (apply elem_of_cons in Hl as [->|Hl]; [reflexivity|]).
    by apply elem_of_nil in Hl. }
  split_and!.
  - by rewrite Hd.
  - exact Hg.
  - exact Hv.
  - exact Hn.
  - by vm_compute.
  - by vm_compute.
Defined.
End GuardOnLinux.

(** ** Two notifications for one descriptor *)

Section DoubleNotification.
Context `{Host}.

(** The handler does not look at the event queue. *)
Lemma drain_set_events i q w :
  drain i (set_events q w) =
    (set_events q (fst (drain i w)), snd (drain i w)).
Proof.
  unfold drain. simpl.
  destruct (ports (registry w) !! i) as [e|]; [|done].
  unfold os_recvmsg. simpl.
  destruct (inflight w !! out e) as [[|d ds]|];
    destruct (socketserver_EventProc _ e) as [data' [| |fd|fd s]]; done.
Qed.

Lemma drain_events i w : events (fst (drain i w)) = events w.
Proof.
  destruct (drain_cases i w) as [[-> _]|(e & _ & _ & Hc)]; [done|].
  pose proof (os_recvmsg_frame (out e) w) as (_ & _ & _ & _ & _ & He & _).
  simpl in Hc.
  destruct Hc as [[_ ->]|[[_ ->]|[_ (s & ->)]]]; simpl; by rewrite He.
Qed.

Lemma set_events_id w : set_events (events w) w = w.
Proof. by destruct w. Qed.

Lemma set_events_twice q q' w :
  set_events q (set_events q' w) = set_events q w.
Proof. done. Qed.

Lemma set_active_id e : active e = 1 → set_active 1 e = e.
Proof. destruct e. simpl. by intros ->. Qed.

(** An armed handler with nothing in flight: no data, nothing changed. *)
Lemma drain_nothing_pending i w e :
  ports (registry w) !! i = Some e →
  active e = 1 →
  inflight w !! out e = Some [] →
  drain i w = (w, NoData).
Proof.
  intros Hi Ha Hq.
  destruct (drain_cases i w) as [[_ [Hn|(e' & Hi' & Ha')]]|
                                 (e' & Hi' & Ha' & Hc)].
  - by rewrite Hi in Hn.
  - simplify_eq. lia.
  - simplify_eq. unfold os_recvmsg in Hc. rewrite Hq in Hc. simpl in Hc.
    destruct Hc as [[_ ->]|[[Hr _]|[Hr _]]]; [|done|done].
    by rewrite set_active_id, set_entry_id.
Qed.

Lemma step_readable w h c i e :
  handlers w !! h = Some (c, i) →
  ports (registry w) !! i = Some e →
  step w (LReadable h) = set_events (events w ++ [(threadId e, i)]) w.
Proof.
  intros Hh Hi. simpl. rewrite Hh. unfold socketserver_readable.
  by rewrite Hi.
Qed.

Lemma step_dispatch w k tid i :
  events w !! k = Some (tid, i) →
  step w (LDispatch k) = fst (drain i (set_events (delete k (events w)) w)).
Proof. intros Hk. simpl. by rewrite Hk. Qed.

(** C2. One descriptor in flight for an armed entry and the handler run
    twice in a row: the first run receives the descriptor (and evaluates
    the callback with it when Tcl names the channel), the second finds
    the guard down and returns with the whole state as the first left it;
    the descriptor is delivered at most once.  The same from the event
    queue: two notifications queued back to back and both dispatched end
    in the state one drain gives.  And a run that finds the guard up —
    re-armed in between — but nothing in flight receives no data and
    changes nothing either. *)
Theorem double_notification_single_drain (w : world) (i : nat)
    (e : socketserver_port) (fd : Z) :
  ports (registry w) !! i = Some e →
  active e ≠ 0 →
  inflight w !! out e = Some [fd] →
  fd ≠ -1 →
  let w1 := fst (drain i w) in
  (snd (drain i w) = NoChannelName fd ∨
   ∃ s, snd (drain i w) = Evaluated fd s) ∧
  inflight w1 !! out e = Some [] ∧
  (evals w1 = evals w ∨ ∃ s, evals w1 = evals w ++ [mk_delivery i fd s]) ∧
  drain i w1 = (w1, Ignored) ∧
  (∀ h c, handlers w !! h = Some (c, i) → events w = [] →
          run w [LReadable h; LReadable h; LDispatch 0; LDispatch 0] = w1) ∧
  (∀ w2 e2, ports (registry w2) !! i = Some e2 → active e2 = 1 →
            inflight w2 !! out e2 = Some [] →
            drain i w2 = (w2, NoData)).
Proof.
  intros Hi Ha Hq Hfd w1.
  assert (os_recvmsg (out e) w =
            (RecvDone 1 [fd_header fd],
             set_inflight (<[out e := []]> (inflight w)) w)) as Hrecv.
  { unfold os_recvmsg. by rewrite Hq. }
  assert ((snd (drain i w) = NoChannelName fd ∨
           ∃ s, snd (drain i w) = Evaluated fd s) ∧
          inflight w1 !! out e = Some [] ∧
          (evals w1 = evals w ∨
           ∃ s, evals w1 = evals w ++ [mk_delivery i fd s])) as Hfirst.
  { subst w1.
    destruct (drain_cases i w) as [[_ [Hn|(e' & Hi' & Ha')]]|
                                   (e' & Hi' & _ & Hc)].
    - by rewrite Hi in Hn.
    - by simplify_eq.
    - simplify_eq. rewrite Hrecv in Hc. cbn [fst snd] in Hc.
      rewrite !recv_fd_header in Hc.
      destruct Hc as [[Hr _]|[[_ ->]|[_ (s & ->)]]]; [done| |]; simpl.
      + split_and!; [by left | apply lookup_insert_eq | by left].
      + split_and!; [right; by eexists | apply lookup_insert_eq |
                     right; by eexists]. }
  destruct Hfirst as (Hres & Hinfl & Hev).
  assert (drain i w1 = (w1, Ignored)) as Hsecond.
  { apply drain_guard_down.
    apply (drain_received_guard i w w1 (snd (drain i w))).
    - subst w1. by destruct (drain i w).
    - destruct Hres as [->|[s ->]]; done.
    - destruct Hres as [->|[s ->]]; done. }
  split_and!; try done.
  - intros h c Hh Hevs.
    change (run w [LReadable h; LReadable h; LDispatch 0; LDispatch 0])
      with (step (step (step (step w (LReadable h)) (LReadable h))
                       (LDispatch 0)) (LDispatch 0)).
    rewrite (step_readable w h c i e Hh Hi), Hevs.
    rewrite (step_readable _ h c i e) by done.
    rewrite set_events_twice. cbn [events set_events app].
    rewrite (step_dispatch
               (set_events [(threadId e, i); (threadId e, i)] w)
               0 (threadId e) i) by done.
    cbn [events set_events delete list_delete].
    rewrite set_events_twice, drain_set_events. fold w1.
    rewrite (step_dispatch (set_events [(threadId e, i)] w1, _).1
               0 (threadId e) i) by done.
    cbn [fst events set_events delete list_delete].
    rewrite set_events_twice, drain_set_events, Hsecond.
    cbn [fst snd].
    rewrite <- Hevs. unfold w1. rewrite <- (drain_events i w).
    apply set_events_id.
  - intros w2 e2. apply drain_nothing_pending.
Qed.
End DoubleNotification.

Section DoubleNotificationOnLinux.
Local Existing Instance linux_host.

(** Port 9001 with its consumer registered and idle, then connection 10
    accepted and notified twice. *)
Lemma double_notification_single_drain_witness :
  let setup :=
    [LCmd 1 7 (server_words "9001" 9001) (mk_os (Some (3, 4)) 0);
     LStart 0 (mk_startup 5 0 0);
     LCmd 1 7 (client_port_words "9001" 9001 "cb") (mk_os None 0);
     LDispatch 0;
     LAccept 0 10 0 true] in
  let w := run initial_world setup in
  let w1 := fst (drain 0 w) in
  snd (drain 0 w) = Evaluated 10 "cb file10" ∧
  inflight w1 !! 4 = Some [] ∧
  evals w1 = [mk_delivery 0 10 "cb file10"] ∧
  drain 0 w1 = (w1, Ignored) ∧
  run w [LReadable 0; LReadable 0; LDispatch 0; LDispatch 0] = w1.
Proof.
  intros setup w w1.
  set (e := mk_port (mk_targs 3 9001) 4 1 0 1 1 7 (Some "cb") 82).
  assert (ports (registry w) !! 0%nat = Some e) as Hi by reflexivity.
  assert (active e ≠ 0) as Ha by (vm_compute; discriminate).
  assert (inflight w !! out e = Some [10]) as Hq by reflexivity.
  assert (10 ≠ -1) as Hfd by lia.
  destruct (double_notification_single_drain w 0 e 10 Hi Ha Hq Hfd)
    as (_ & Hinfl & _ & Hsecond & Hrun & _).
  split_and!.
  - by vm_compute.
  - exact Hinfl.
  - by vm_compute.
  - exact Hsecond.
  - apply (Hrun 0%nat 1); reflexivity.
Defined.
End DoubleNotificationOnLinux.

(** ** One delivery per registration *)

Section Potential.
Context `{Host}.

Lemma armed_app_down (l : list Z) :
  length (filter (λ a, a ≠ 0) (l ++ [0])) = length (filter (λ a, a ≠ 0) l).
Proof.
  rewrite filter_app, filter_cons_False by (intros ?; done).
  by rewrite filter_nil, app_nil_r.
Qed.

(** Writing one guard changes the number of armed guards by the
    difference it makes. *)
Lemma armed_insert (l : list Z) (i : nat) (a b : Z) :
  l !! i = Some a →
  (length (filter (λ x : Z, x ≠ 0%Z) (<[i:=b]> l))
     + (if decide (a = 0%Z) then 0 else 1) =
   length (filter (λ x : Z, x ≠ 0%Z) l)
     + (if decide (b = 0%Z) then 0 else 1))%nat.
Proof.
  revert i. induction l as [|x l IH]; intros i Hi; [done|].
  destruct i as [|i]; simpl in *.
  - simplify_eq. rewrite !filter_cons.
    destruct (decide (a = 0)), (decide (b = 0));
      repeat case_decide; simpl; try done; lia.
  - rewrite !filter_cons. specialize (IH i Hi).
    destruct (decide (x ≠ 0%Z)); simpl; lia.
Qed.

(** Deliveries and armed guards together grow by at most one at a
    [client] registration and not at all otherwise. *)
Lemma step_potential w l :
  (length (evals (step w l)) + armed (step w l) ≤
   length (evals w) + armed w + (if is_client_cmd l then 1 else 0))%nat.
Proof.
  unfold armed, guards.
  destruct (step_ports w l)
    as [_ [[-> ->]|[(p & e' & _ & -> & _ & Ha & _ & ->)|
                    [(j & e & e' & Hj & -> & _ & _ & -> & Hact)|
                     (k & tid & j & e & _ & _ & Hj & Ha & -> & Hev)]]]].
  - lia.
  - rewrite fmap_app. simpl. rewrite Ha, armed_app_down. lia.
  - rewrite list_fmap_insert.
    pose proof (armed_insert (active <$> ports (registry w)) j
                  (active e) (active e')) as Hins.
    rewrite list_lookup_fmap, Hj in Hins. specialize (Hins eq_refl).
    destruct Hact as [Hact|[[Hc Hact]|[Hne Hact]]].
    + rewrite Hact in *. lia.
    + rewrite Hc. rewrite Hact in *.
      destruct (decide (active e = 0)); simpl in Hins; lia.
    + rewrite Hact in *.
      destruct (decide (active e = 0)); [done|]. simpl in Hins. lia.
  - rewrite list_fmap_insert.
    pose proof (armed_insert (active <$> ports (registry w)) j
                  (active e) 0) as Hins.
    rewrite list_lookup_fmap, Hj in Hins. specialize (Hins eq_refl).
    destruct (decide (active e = 0)); [done|]. simpl in *.
    destruct Hev as [->|(fd & s & ->)]; [lia|].
    rewrite length_app. simpl. lia.
Qed.

Lemma run_potential w ls :
  (length (evals (run w ls)) + armed (run w ls) ≤
   length (evals w) + armed w + length (filter is_client_cmd ls))%nat.
Proof.
  revert w. induction ls as [|l ls IH]; intros w; [simpl; lia|].
  rewrite run_cons. specialize (IH (step w l)).
  pose proof (step_potential w l) as Hs.
  rewrite filter_cons. destruct (is_client_cmd l) eqn:Hl.
  - rewrite decide_True by done. simpl. lia.
  - rewrite decide_False by (by intros ?). lia.
Qed.
End Potential.

(** ** Delivery in the order of acceptance *)

Section Fifo.
Context `{Host}.

Lemma run_app w ls1 ls2 : run w (ls1 ++ ls2) = run (run w ls1) ls2.
Proof. apply fold_left_app. Qed.

(** An armed drain with a descriptor in flight that Tcl can name. *)
Lemma drain_delivers i w e fd q :
  ports (registry w) !! i = Some e →
  active e ≠ 0 →
  inflight w !! out e = Some (fd :: q) →
  fd ≠ -1 →
  handle_of fd ≠ "" →
  drain i w =
    (set_evals
       (evals w ++ [mk_delivery i fd (callback_script e (handle_of fd))])
       (set_entry i (set_active 0 e)
                  (set_inflight (<[out e := q]> (inflight w)) w)),
     Evaluated fd (callback_script e (handle_of fd))).
Proof.
  intros Hi Ha Hq Hfd Hname. unfold drain. rewrite Hi.
  unfold os_recvmsg. rewrite Hq. unfold socketserver_EventProc.
  destruct (Z.eqb_spec (active e) 0); [done|].
  rewrite recv_fd_header.
  destruct (Z.eqb_spec fd (-1)); [done|].
  unfold handle_of in *.
  destruct (Tcl_GetChannelName fd) as [[|c name]|]; done.
Qed.

(** A successful accept puts the descriptor at the back of the queue. *)
Lemma step_accept w t a sd r fd err :
  threads w !! t = Some (mk_thread a (Accepting sd)) →
  peer w !! in_ a = Some r →
  0 ≤ fd →
  let w' := step w (LAccept t fd err true) in
  registry w' = registry w ∧ peer w' = peer w ∧ threads w' = threads w ∧
  events w' = events w ∧ evals w' = evals w ∧ handlers w' = handlers w ∧
  inflight w' = <[r := default [] (inflight w !! r) ++ [fd]]> (inflight w).
Proof.
  intros Ht Hp Hfd. simpl. unfold accept_turn. rewrite Ht.
  unfold os_sendmsg. rewrite Hp.
  destruct (Z.leb_spec 0 fd); [|lia]. simpl.
  unfold accept_loop_body. simpl.
  destruct (Z.ltb_spec fd 0); [lia|].
  destruct (Z.eqb_spec fd (-1)); [lia|]. simpl.
  split_and!; try done. by apply list_insert_id.
Qed.
End Fifo.

Section FifoScenes.
Context `{Host}.

Lemma serve_serving ip tid ps p s0 s1 sd :
  serving (run initial_world (serve ip tid ps p s0 s1 sd)) p s0 s1 sd [] [].
Proof.
  unfold serve.
  change (run initial_world _)
    with (step (step initial_world
                     (LCmd ip tid (server_words ps p)
                           (mk_os (Some (s0, s1)) 0)))
               (LStart 0 (mk_startup sd 0 0))).
  assert (step initial_world
               (LCmd ip tid (server_words ps p) (mk_os (Some (s0, s1)) 0)) =
          mk_world (mk_cd SOCKETSERVER_OBJECT_MAGIC
                          [mk_port (mk_targs s0 p) s1 0 0 0 0 0 None 0])
                   {[s0 := s1]} {[s1 := []]} [] [] [] []
                   [mk_thread (mk_targs s0 p) Starting] []) as ->.
  { cbn [step]. rewrite cmd_server by done.
    rewrite server_locked_fresh
      by (intros e He; by apply elem_of_nil in He).
    simpl. unfold default_port. simpl.
    by destruct (p =? 0). }
  unfold serving. simpl. unfold start_turn. simpl.
  split_and!; try done.
  - by eexists.
  - apply lookup_insert_eq.
  - apply lookup_insert_eq.
Qed.

Lemma accept_serving w p s0 s1 sd q ds fd err :
  serving w p s0 s1 sd q ds →
  0 ≤ fd →
  serving (step w (LAccept 0 fd err true)) p s0 s1 sd (q ++ [fd]) ds.
Proof.
  intros (Hm & He & Hp & Hq & Ht & Hev & Hd & Hh) Hfd.
  destruct (step_accept w 0 (mk_targs s0 p) sd s1 fd err)
    as (Hr' & Hp' & Ht' & Hev' & Hd' & Hh' & Hq');
    [by rewrite Ht | done | done |].
  unfold serving. rewrite Hr', Hp', Ht', Hev', Hd', Hh', Hq', Hq. simpl.
  split_and!; try done. apply lookup_insert_eq.
Qed.

Lemma accept_all_serving w p s0 s1 sd q ds fds :
  serving w p s0 s1 sd q ds →
  Forall (λ fd, 0 ≤ fd) fds →
  serving (run w (accept_all 0 fds)) p s0 s1 sd (q ++ fds) ds.
Proof.
  intros Hs Hfds. revert w q Hs.
  induction Hfds as [|fd fds Hfd _ IH]; intros w q Hs.
  - by rewrite app_nil_r.
  - unfold accept_all. rewrite fmap_cons, run_cons.
    rewrite (assoc_L _ q [fd] fds : q ++ fd :: fds = (q ++ [fd]) ++ fds).
    apply IH. by apply accept_serving.
Qed.

(** A registration on the served port: the entry armed for the callback,
    one more handler for it, one event queued. *)
Lemma client_serving ip tid ps cb w p s0 s1 sd q ds :
  serving w p s0 s1 sd q ds →
  let w' := step w (LCmd ip tid (client_port_words ps p cb) (mk_os None 0)) in
  ∃ e chan,
    object_magic (registry w') = SOCKETSERVER_OBJECT_MAGIC ∧
    ports (registry w') = [e] ∧ targs e = mk_targs s0 p ∧ out e = s1 ∧
    have_channel e = 0 ∧ active e = 1 ∧ callback e = Some cb ∧
    threadId e = tid ∧
    peer w' = peer w ∧ inflight w' = inflight w ∧ threads w' = threads w ∧
    events w' = [(tid, 0%nat)] ∧ evals w' = evals w ∧
    handlers w' = handlers w ++ [(chan, 0%nat)].
Proof.
  intros (Hm & (e & He & Hta & Hout & Hhc) & Hp & Hq & Ht & Hev & Hd & Hh).
  assert (search_port (ports (registry w))
            (default_port (ports (registry w)) p) 0 = Some 0%nat) as Hs.
  { rewrite He. unfold default_port. simpl. rewrite Hta. simpl.
    destruct (p =? 0); by rewrite Z.eqb_refl. }
  assert (ports (registry w) !! 0%nat = Some e) as Hi by (by rewrite He).
  cbn [step]. rewrite cmd_client_port by done.
  rewrite (client_locked_found ip tid p cb w 0 e Hs Hi).
  rewrite Hhc, Hev, He. simpl.
  eexists _, _. split_and!; try done.
Qed.

(** One registration and the dispatch of its event deliver the oldest
    descriptor in flight. *)
Lemma round_serving ip tid ps cb w p s0 s1 sd fd q ds :
  serving w p s0 s1 sd (fd :: q) ds →
  fd ≠ -1 →
  handle_of fd ≠ "" →
  serving (run w (register_and_dispatch ip tid ps p cb 1)) p s0 s1 sd q
          (ds ++ [delivery_of 0 cb fd]).
Proof.
  intros Hs Hfd Hname.
  pose proof Hs as (_ & _ & Hp & Hq & Ht & _ & Hd & Hh).
  assert (run w (register_and_dispatch ip tid ps p cb 1) =
          step (step w (LCmd ip tid (client_port_words ps p cb)
                             (mk_os None 0)))
               (LDispatch 0)) as -> by reflexivity.
  destruct (client_serving ip tid ps cb w p s0 s1 sd _ ds Hs)
    as (e & chan & Hm' & He' & Hta' & Hout' & Hhc' & Ha' & Hcb' & _ &
        Hp' & Hq' & Ht' & Hev' & Hd' & Hh').
  set (wc := step w (LCmd ip tid (client_port_words ps p cb)
                          (mk_os None 0))) in *.
  rewrite (step_dispatch wc 0 tid 0) by (by rewrite Hev').
  rewrite drain_set_events. cbn [fst].
  rewrite (drain_delivers 0 wc e fd q);
    [|by rewrite He'|by rewrite Ha'|by rewrite Hout', Hq', Hq|done|done].
  unfold serving, delivery_of, callback_script. simpl.
  rewrite Hm', He', Hp', Hq', Ht', Hd', Hh', Hout', Hcb', Hev', Hd. simpl.
  split_and!; try done.
  - eexists. split_and!; try done.
  - apply lookup_insert_eq.
  - apply Forall_app. split; [done|]. by constructor.
Qed.

Lemma rounds_serving ip tid ps cb p s0 s1 sd fds :
  Forall (λ fd, fd ≠ -1 ∧ handle_of fd ≠ "") fds →
  ∀ w q ds,
    serving w p s0 s1 sd (fds ++ q) ds →
    serving (run w (register_and_dispatch ip tid ps p cb (length fds)))
            p s0 s1 sd q (ds ++ (delivery_of 0 cb <$> fds)).
Proof.
  induction 1 as [|fd fds [Hfd Hname] _ IH]; intros w q ds Hs.
  - by rewrite app_nil_r.
  - change (register_and_dispatch ip tid ps p cb (length (fd :: fds)))
      with (register_and_dispatch ip tid ps p cb 1 ++
            register_and_dispatch ip tid ps p cb (length fds)).
    rewrite run_app. rewrite fmap_cons.
    rewrite (assoc_L _ ds [delivery_of 0 cb fd] (delivery_of 0 cb <$> fds)
             : ds ++ delivery_of 0 cb fd :: (delivery_of 0 cb <$> fds) = _).
    apply IH. by apply round_serving.
Qed.

(** The consumer registered first: the event of the registration finds
    nothing and leaves the guard up; the connection accepted next is
    notified, and the dispatch of that event delivers it. *)
Lemma round_registered_first ip tid ps cb w p s0 s1 sd fd ds :
  serving w p s0 s1 sd [] ds →
  0 ≤ fd →
  handle_of fd ≠ "" →
  serving (run w (register_then_accept ip tid ps p cb [fd])) p s0 s1 sd []
          (ds ++ [delivery_of 0 cb fd]).
Proof.
  intros Hs Hfd Hname.
  pose proof Hs as (_ & _ & Hp & Hq & Ht & _ & Hd & Hh).
  set (c := LCmd ip tid (client_port_words ps p cb) (mk_os None 0)).
  assert (run w (register_then_accept ip tid ps p cb [fd]) =
          step (step (step (step (step w c) (LDispatch 0))
                           (LAccept 0 fd 0 true))
                     (LReadable 0))
               (LDispatch 0)) as -> by reflexivity.
  destruct (client_serving ip tid ps cb w p s0 s1 sd _ ds Hs)
    as (e & chan & Hm1 & He1 & Hta1 & Hout1 & Hhc1 & Ha1 & Hcb1 & Htid1 &
        Hp1 & Hq1 & Ht1 & Hev1 & Hd1 & Hh1).
  fold c in Hm1, He1, Hp1, Hq1, Ht1, Hev1, Hd1, Hh1.
  set (w1 := step w c) in *.
  (* the event of the registration: nothing in flight *)
  assert (step w1 (LDispatch 0) = set_events [] w1) as Hw2.
  { rewrite (step_dispatch w1 0 tid 0) by (by rewrite Hev1).
    rewrite drain_set_events, Hev1.
    rewrite (drain_nothing_pending 0 w1 e);
      [done | by rewrite He1 | done | by rewrite Hout1, Hq1, Hq]. }
  rewrite Hw2. set (w2 := set_events [] w1).
  (* the connection *)
  destruct (step_accept w2 0 (mk_targs s0 p) sd s1 fd 0)
    as (Hr3 & Hp3 & Ht3 & Hev3 & Hd3 & Hh3 & Hq3);
    [by (unfold w2; simpl; rewrite Ht1, Ht) |
     by (unfold w2; simpl; rewrite Hp1) | done |].
  set (w3 := step w2 (LAccept 0 fd 0 true)) in *.
  assert (registry w3 = registry w1) as Hr3' by (by rewrite Hr3).
  assert (inflight w3 !! s1 = Some [fd]) as Hq3'.
  { rewrite Hq3. unfold w2. simpl. rewrite Hq1, Hq. simpl.
    apply lookup_insert_eq. }
  (* the notification *)
  assert (∃ c0, handlers w3 !! 0%nat = Some (c0, 0%nat)) as [c0 Hh0].
  { rewrite Hh3. unfold w2. simpl. rewrite Hh1.
    destruct (handlers w) as [|[c0 i0] hs] eqn:Hhs; simpl.
    - by eexists.
    - apply Forall_cons in Hh as [Hi0 _]. simpl in Hi0. subst i0.
      by eexists. }
  rewrite (step_readable w3 0 c0 0 e Hh0) by (by rewrite Hr3', He1).
  assert (events w3 = []) as Hev3' by (by rewrite Hev3).
  rewrite Hev3', Htid1. cbn [app].
  (* its dispatch *)
  rewrite (step_dispatch (set_events [(tid, 0%nat)] w3) 0 tid 0) by done.
  cbn [events set_events delete list_delete].
  rewrite set_events_twice, drain_set_events. cbn [fst].
  rewrite (drain_delivers 0 w3 e fd []);
    [|by rewrite Hr3', He1|by rewrite Ha1|by rewrite Hout1|lia|done].
  unfold serving, delivery_of, callback_script. simpl.
  rewrite Hr3', Hm1, He1, Hp3, Ht3, Hd3, Hh3, Hout1, Hcb1. simpl.
  rewrite Hp1, Ht1, Hd1, Hh1, Hd.
  split_and!; try done.
  - eexists. split_and!; try done.
  - apply lookup_insert_eq.
  - apply Forall_app. split; [done|]. by constructor.
Qed.

Lemma rounds_registered_first ip tid ps cb p s0 s1 sd fds :
  Forall (λ fd, 0 ≤ fd ∧ handle_of fd ≠ "") fds →
  ∀ w ds,
    serving w p s0 s1 sd [] ds →
    serving (run w (register_then_accept ip tid ps p cb fds))
            p s0 s1 sd [] (ds ++ (delivery_of 0 cb <$> fds)).
Proof.
  induction 1 as [|fd fds [Hfd Hname] _ IH]; intros w ds Hs.
  - by rewrite app_nil_r.
  - change (register_then_accept ip tid ps p cb (fd :: fds))
      with (register_then_accept ip tid ps p cb [fd] ++
            register_then_accept ip tid ps p cb fds).
    rewrite run_app. rewrite fmap_cons.
    rewrite (assoc_L _ ds [delivery_of 0 cb fd] (delivery_of 0 cb <$> fds)
             : ds ++ delivery_of 0 cb fd :: (delivery_of 0 cb <$> fds) = _).
    apply IH. by apply round_registered_first.
Qed.
End FifoScenes.

Section FifoTheorem.
Context `{Host}.

(** C1, as the code has it.  A delivery takes the guard down and only a
    [client] registration raises it, so in every run from the initial
    state the number of callback invocations is at most the number of
    [client] commands: one registration delivers one connection at most.
    When the consumer registers again after each delivery, the
    connections accepted on the port are delivered one per registration,
    oldest first: with the connections [fds ++ rest] accepted in that
    order, [length fds] registrations, each followed by the dispatch of
    its event, invoke the callback exactly [length fds] times, in order
    on the descriptors [fds], each with the handle Tcl gives the
    descriptor (distinct when the descriptors are, Tcl naming channels
    apart), and leave [rest] in flight.  The same holds when each
    registration comes before its connection and the delivery is
    triggered by the readiness notification. *)
Theorem deliveries_follow_registrations (ip tid : Z) (ps : string)
    (p s0 s1 sd : Z) (cb : string) (fds rest : list Z) :
  Forall (λ fd, 0 ≤ fd ∧ handle_of fd ≠ "") fds →
  Forall (λ fd, 0 ≤ fd) rest →
  let w := run initial_world
               (serve ip tid ps p s0 s1 sd ++ accept_all 0 (fds ++ rest) ++
                register_and_dispatch ip tid ps p cb (length fds)) in
  (∀ ls, (length (evals (run initial_world ls)) ≤
          length (filter is_client_cmd ls))%nat) ∧
  evals w = delivery_of 0 cb <$> fds ∧
  d_fd <$> evals w = fds ∧
  inflight w !! s1 = Some rest ∧
  (NoDup fds → (∀ a b, handle_of a = handle_of b → a = b) →
   NoDup (d_script <$> evals w)) ∧
  evals (run initial_world
             (serve ip tid ps p s0 s1 sd ++
              register_then_accept ip tid ps p cb fds)) =
    delivery_of 0 cb <$> fds.
Proof.
  intros Hfds Hrest w.
  assert (serving w p s0 s1 sd rest (delivery_of 0 cb <$> fds)) as Hs.
  { unfold w. rewrite !run_app.
    apply (rounds_serving ip tid ps cb p s0 s1 sd fds) with (ds := []).
    - eapply Forall_impl; [exact Hfds|]. intros fd [Hfd Hn]. split; [lia|done].
    - apply (accept_all_serving _ p s0 s1 sd [] []).
      + apply serve_serving.
      + apply Forall_app. split; [|done].
        eapply Forall_impl; [exact Hfds|]. by intros fd [Hfd _]. }
  destruct Hs as (_ & _ & _ & Hq & _ & _ & Hd & _).
  split_and!.
  - intros ls. pose proof (run_potential initial_world ls) as Hpot.
    replace (armed initial_world) with 0%nat in Hpot by done.
    simpl in Hpot. lia.
  - done.
  - rewrite Hd, <- list_fmap_compose. simpl. apply list_fmap_id.
  - done.
  - intros Hnd Hinj. rewrite Hd, <- list_fmap_compose.
    apply NoDup_fmap_2; [|done].
    intros a b Hab. unfold delivery_of in Hab. simpl in Hab.
    apply Hinj. by simplify_eq.
  - rewrite run_app.
    pose proof (rounds_registered_first ip tid ps cb p s0 s1 sd fds Hfds
                  _ [] (serve_serving ip tid ps p s0 s1 sd)) as Hs.
    by destruct Hs as (_ & _ & _ & _ & _ & _ & Hd' & _).
Qed.
End FifoTheorem.

Section FifoOnLinux.
Local Existing Instance linux_host.

(** C1 fails on the code.  Port 9001 served, one [client] registration
    (its own event dispatched: nothing there yet), then two connections
    accepted, 10 and 11.  Each is notified and every event dispatched:
    the callback runs once, for 10, and 11 stays in flight with the guard
    down.  No continuation without another [client] command gets a second
    invocation. *)
Lemma single_registration_delivers_once :
  let setup :=
    [LCmd 1 7 (server_words "9001" 9001) (mk_os (Some (3, 4)) 0);
     LStart 0 (mk_startup 5 0 0);
     LCmd 1 7 (client_port_words "9001" 9001 "cb") (mk_os None 0);
     LDispatch 0;
     LAccept 0 10 0 true; LReadable 0;
     LAccept 0 11 0 true; LReadable 0;
     LDispatch 0; LDispatch 0; LReadable 0; LDispatch 0] in
  let w := run initial_world setup in
  evals w = [mk_delivery 0 10 "cb file10"] ∧
  length (evals w) ≠ 2%nat ∧
  inflight w !! 4 = Some [11] ∧
  events w = [] ∧
  guards w = [0] ∧
  (∀ later, (∀ l, l ∈ later → is_client_cmd l = false) →
            (length (evals (run w later)) < 2)%nat).
Proof.
  intros setup w.
  assert (∀ later, (∀ l, l ∈ later → is_client_cmd l = false) →
                   filter is_client_cmd later = []) as Hnone.
  { induction later as [|l later IH]; intros Hlater; [done|].
    rewrite filter_cons, decide_False.
    - apply IH. intros l' Hl'. apply Hlater. by right.
    - rewrite Hlater by (by left). by intros ?. }
  split_and!; [by vm_compute | by vm_compute | by vm_compute |
               by vm_compute | by vm_compute |].
  intros later Hlater.
  pose proof (run_potential w later) as Hpot.
  rewrite (Hnone later Hlater) in Hpot.
  assert (length (evals w) = 1%nat) as Hl by (by vm_compute).
  assert (armed w = 0%nat) as Ha by (by vm_compute).
  rewrite Hl, Ha in Hpot. simpl in Hpot. lia.
Qed.

(** Connections 10, 11 and 12 accepted and the consumer registered
    twice: 10 then 11 delivered, 12 left in flight. *)
Lemma deliveries_follow_registrations_witness :
  let w := run initial_world
               (serve 1 7 "9001" 9001 3 4 5 ++ accept_all 0 ([10; 11] ++ [12])
                ++ register_and_dispatch 1 7 "9001" 9001 "cb" 2) in
  evals w = [mk_delivery 0 10 "cb file10"; mk_delivery 0 11 "cb file11"] ∧
  d_fd <$> evals w = [10; 11] ∧
  inflight w !! 4 = Some [12] ∧
  evals (run initial_world
             (serve 1 7 "9001" 9001 3 4 5 ++
              register_then_accept 1 7 "9001" 9001 "cb" [10; 11])) =
    [mk_delivery 0 10 "cb file10"; mk_delivery 0 11 "cb file11"].
Proof.
  intros w.
  assert (Forall (λ fd, 0 ≤ fd ∧ handle_of fd ≠ "") [10; 11]) as Hfds.
  { repeat constructor; (lia || by vm_compute). }
  assert (Forall (λ fd, 0 ≤ fd) [12]) as Hrest.
  { repeat constructor; lia. }
  destruct (deliveries_follow_registrations 1 7 "9001" 9001 3 4 5 "cb"
              [10; 11] [12] Hfds Hrest) as (_ & Hev & Hfd & Hq & _ & Hev').
  split_and!; [exact Hev | exact Hfd | exact Hq | exact Hev'].
Defined.
End FifoOnLinux.

(** * Further properties of the code *)

(** ** [recv_fd] *)

Section RecvFd.
Context `{Host}.

Lemma scan_headers_skip hs1 hs2 :
  Forall (λ h, carries_fd h = false) hs1 →
  scan_headers (hs1 ++ hs2) = scan_headers hs2.
Proof.
  induction 1 as [|h hs1 Hh _ IH]; [done|]. simpl.
  unfold carries_fd in Hh.
  destruct ((cmsg_level h =? SOL_SOCKET) && (cmsg_type h =? SCM_RIGHTS));
    [|done].
  simpl in Hh. by rewrite Hh.
Qed.

(** X1. [recv_fd] returns the first [int] of the first control header
    that is a [SCM_RIGHTS] header of [SOL_SOCKET] with a positive count,
    whatever headers of other kinds or without room come before it and
    whatever comes after; when no header is of that kind, as when
    [recvmsg] fails, it returns -1.  In particular the header that
    carries one descriptor [d] is read back as [d]. *)
Theorem recv_fd_first_rights (n : Z) (before after : list cmsghdr)
    (h : cmsghdr) :
  Forall (λ h, carries_fd h = false) before →
  (carries_fd h = true →
   recv_fd (RecvDone n (before ++ h :: after)) = nth 0 (cmsg_data h) 0) ∧
  recv_fd (RecvDone n before) = -1 ∧
  (∀ d others, recv_fd (RecvDone n (before ++ fd_header d :: others)) = d).
Proof.
  intros Hbefore. split_and!.
  - intros Hh. unfold recv_fd. rewrite scan_headers_skip by done.
    simpl. unfold carries_fd in Hh.
    apply andb_true_iff in Hh as [Hh1 Hh2]. by rewrite Hh1, Hh2.
  - unfold recv_fd.
    rewrite <- (app_nil_r before), scan_headers_skip by done. done.
  - intros d others. unfold recv_fd. rewrite scan_headers_skip by done.
    change (scan_headers (fd_header d :: others))
      with (if (cmsg_level (fd_header d) =? SOL_SOCKET) &&
               (cmsg_type (fd_header d) =? SCM_RIGHTS)
            then if fd_count (fd_header d) >? 0 then d
                 else scan_headers others
            else scan_headers others).
    simpl. rewrite !Z.eqb_refl. simpl. unfold fd_count. simpl.
    replace (CMSG_DATA_OFFSET + 4 - CMSG_DATA_OFFSET) with 4 by lia.
    reflexivity.
Qed.
End RecvFd.

Section RecvFdOnLinux.
Local Existing Instance linux_host.

(** A credentials header ([SCM_CREDENTIALS], 2) and a rights header too
    short for a descriptor, then the header that carries descriptor 9. *)
Lemma recv_fd_first_rights_witness :
  let creds := mk_cmsg 28 1 2 [100; 0; 0] in
  let short := mk_cmsg 16 1 1 [] in
  recv_fd (RecvDone 1 ([creds; short] ++ mk_cmsg 20 1 1 [9] :: [])) = 9 ∧
  recv_fd (RecvDone 1 [creds; short]) = -1.
Proof.
  intros creds short.
  assert (Forall (λ h, carries_fd h = false) [creds; short]) as Hb.
  { repeat constructor. }
  destruct (recv_fd_first_rights 1 [creds; short] [] (mk_cmsg 20 1 1 [9]) Hb)
    as (Hfirst & Hnone & _).
  split; [apply Hfirst; reflexivity | exact Hnone].
Defined.
End RecvFdOnLinux.

(** ** The trace of the acceptor thread *)

Section ThreadTrace.
Context `{Host}.

Lemma thread_step_accept_body a sd o :
  thread_step a (Accepting sd) (InAccept o) =
    (Accepting sd, fst (accept_loop_body (in_ a) o)).
Proof.
  simpl. pose proof (accept_loop_body_continues (in_ a) o) as Hc.
  destruct (accept_loop_body (in_ a) o) as [acts c]. simpl in *.
  by subst c.
Qed.

Lemma thread_run_accept_cons a sd o turns :
  snd (thread_run a (Accepting sd) (InAccept <$> (o :: turns))) =
    fst (accept_loop_body (in_ a) o) ++
    snd (thread_run a (Accepting sd) (InAccept <$> turns)).
Proof.
  rewrite fmap_cons. cbn [thread_run]. rewrite thread_step_accept_body.
  by destruct (thread_run a (Accepting sd) (InAccept <$> turns)).
Qed.

(** One turn: what is sent, where, and what is closed. *)
Lemma accept_loop_body_trace sock o :
  let acts := fst (accept_loop_body sock o) in
  sent_fds acts ≠ [-1] ∧
  (sent_fds acts = [] ∨ sent_fds acts = [client_sock o]) ∧
  Forall (λ s, s = sock) (sent_socks acts) ∧
  closed_fds acts = (if Linux then sent_fds acts else []) ∧
  bound_ports acts = [] ∧
  (client_sock o = -1 → sent_fds acts = []) ∧
  (0 ≤ client_sock o → sent_fds acts = [client_sock o]).
Proof.
  unfold accept_loop_body.
  destruct Linux;
    destruct (Z.ltb_spec (client_sock o) 0) as [Hneg|Hpos];
    destruct (accept_errno o =? EINTR);
    destruct (Z.eqb_spec (client_sock o) (-1)) as [Hcs|Hcs];
    simpl; split_and!;
    first [ done | lia | by left | by right | by repeat constructor
          | (intros [= ?]; lia) | (intros ?; lia) ].
Qed.

Lemma sent_fds_app acts1 acts2 :
  sent_fds (acts1 ++ acts2) = sent_fds acts1 ++ sent_fds acts2.
Proof. unfold sent_fds. apply bind_app. Qed.

Lemma sent_socks_app acts1 acts2 :
  sent_socks (acts1 ++ acts2) = sent_socks acts1 ++ sent_socks acts2.
Proof. unfold sent_socks. apply bind_app. Qed.

Lemma closed_fds_app acts1 acts2 :
  closed_fds (acts1 ++ acts2) = closed_fds acts1 ++ closed_fds acts2.
Proof. unfold closed_fds. apply bind_app. Qed.

Lemma bound_ports_app acts1 acts2 :
  bound_ports (acts1 ++ acts2) = bound_ports acts1 ++ bound_ports acts2.
Proof. unfold bound_ports. apply bind_app. Qed.

(** X2. Over any number of turns of the accept loop the thread passes
    to [sendmsg], in the order of acceptance and always on its own end of
    the socketpair, exactly the descriptors [accept] returned (it returns
    -1 or a descriptor); -1 is never sent, whatever [accept] returns.  On
    Linux every descriptor sent is closed by the thread after the send,
    whether the send succeeded or not; elsewhere the thread closes
    nothing. *)
Theorem thread_sends_what_it_accepts (a : socketserver_thread_args)
    (sd : Z) (turns : list accept_outcome) :
  let acts := snd (thread_run a (Accepting sd) (InAccept <$> turns)) in
  Forall (λ fd, fd ≠ -1) (sent_fds acts) ∧
  Forall (λ s, s = in_ a) (sent_socks acts) ∧
  closed_fds acts = (if Linux then sent_fds acts else []) ∧
  (Forall (λ o, client_sock o = -1 ∨ 0 ≤ client_sock o) turns →
   sent_fds acts = filter (λ fd, 0 ≤ fd) (client_sock <$> turns)).
Proof.
  induction turns as [|o turns IH].
  - simpl. split_and!; try done. by destruct Linux.
  - cbn zeta in *. rewrite thread_run_accept_cons.
    destruct IH as (IH1 & IH2 & IH3 & IH4).
    destruct (accept_loop_body_trace (in_ a) o)
      as (Hno & Hs & Hsock & Hcl & _ & Hfail & Hok).
    rewrite sent_fds_app, sent_socks_app, closed_fds_app.
    split_and!.
    + apply Forall_app. split; [|done].
      destruct Hs as [Hs|Hs]; rewrite Hs; [done|].
      constructor; [|done]. intros Hcs. apply Hno. by rewrite Hs, Hcs.
    + by apply Forall_app.
    + rewrite Hcl, IH3. by destruct Linux.
    + intros Hturns. apply Forall_cons in Hturns as [Ho Hturns].
      rewrite (IH4 Hturns), fmap_cons, filter_cons.
      destruct Ho as [Ho|Ho].
      * rewrite (Hfail Ho), Ho. by rewrite decide_False by lia.
      * rewrite (Hok Ho). by rewrite decide_True by done.
Qed.

Lemma thread_run_exited_silent a r ins :
  snd (thread_run a (Exited r) ins) = [].
Proof.
  induction ins as [|i ins IH]; [done|]. cbn [thread_run].
  replace (thread_step a (Exited r) i) with (Exited r, @nil thread_action)
    by (by destruct i).
  destruct (thread_run a (Exited r) ins) as [st2 acts2].
  simpl in *. by subst acts2.
Qed.

Lemma thread_run_accepting_binds a sd turns :
  bound_ports (snd (thread_run a (Accepting sd) (InAccept <$> turns))) = [].
Proof.
  induction turns as [|o turns IH]; [done|].
  rewrite thread_run_accept_cons, bound_ports_app, IH.
  by destruct (accept_loop_body_trace (in_ a) o) as (_ & _ & _ & _ & -> & _).
Qed.

(** X3. The thread binds once, to the low 16 bits of the port it was
    given, also when [socket] failed; so two registrations whose ports
    differ by a multiple of 65536 make their threads bind the same TCP
    port.  When [bind] fails the thread neither listens nor sends
    anything, whatever [accept] would return. *)
Theorem thread_binds_low_16_bits (a : socketserver_thread_args)
    (o : startup_outcome) (turns : list accept_outcome) :
  bound_ports (snd (socketserver_thread a o turns)) = [port a mod 65536] ∧
  (∀ a' k, port a' = port a + 65536 * k →
           bound_ports (snd (socketserver_thread a' o turns)) =
             bound_ports (snd (socketserver_thread a o turns))) ∧
  (bind_ret o < 0 →
   sent_fds (snd (socketserver_thread a o turns)) = [] ∧
   AListen ∉ snd (socketserver_thread a o turns)).
Proof.
  assert (∀ b, bound_ports (snd (socketserver_thread b o turns)) =
               [port b mod 65536]) as Hbound.
  { intros b. unfold socketserver_thread. cbn [thread_run]. simpl.
    unfold thread_startup.
    destruct (bind_ret o <? 0).
    - pose proof (thread_run_exited_silent b 1 (InAccept <$> turns)) as He.
      destruct (thread_run b (Exited 1) (InAccept <$> turns)) as [st acts].
      simpl in *. subst acts. rewrite app_nil_r.
      rewrite !bound_ports_app. by destruct (socket_ret o =? -1).
    - pose proof (thread_run_accepting_binds b (socket_ret o) turns) as Hb.
      destruct (thread_run b (Accepting (socket_ret o)) (InAccept <$> turns))
        as [st acts].
      simpl in *. rewrite !bound_ports_app, Hb.
      by destruct (socket_ret o =? -1). }
  split_and!.
  - apply Hbound.
  - intros a' k Hk. rewrite !Hbound, Hk. f_equal.
    rewrite Z.mul_comm. apply Z_mod_plus_full.
  - intros Hb. unfold socketserver_thread. cbn [thread_run]. simpl.
    unfold thread_startup.
    destruct (Z.ltb_spec (bind_ret o) 0); [|lia].
    pose proof (thread_run_exited_silent a 1 (InAccept <$> turns)) as He.
    destruct (thread_run a (Exited 1) (InAccept <$> turns)) as [st acts].
    simpl in *. subst acts. rewrite app_nil_r. split.
    + rewrite !sent_fds_app. by destruct (socket_ret o =? -1).
    + destruct (socket_ret o =? -1); simpl;
        repeat (apply not_elem_of_cons; split; [done|]);
        apply not_elem_of_nil.
Qed.
End ThreadTrace.

Section ThreadTraceOnLinux.
Local Existing Instance linux_host.

(** Three turns: interrupted, a connection on 7 that the transport
    refuses, a connection on 8. *)
Lemma thread_sends_what_it_accepts_witness :
  let turns := [mk_accept (-1) 4 0; mk_accept 7 0 (-1); mk_accept 8 0 1] in
  let acts := snd (thread_run (mk_targs 3 9001) (Accepting 5)
                              (InAccept <$> turns)) in
  sent_fds acts = [7; 8] ∧ closed_fds acts = [7; 8].
Proof.
  intros turns acts.
  destruct (thread_sends_what_it_accepts (mk_targs 3 9001) 5 turns)
    as (_ & _ & Hcl & Hsent).
  assert (sent_fds acts = [7; 8]) as Hs.
  { apply Hsent. repeat constructor; simpl; lia. }
  split; [exact Hs|]. fold acts in Hcl. by rewrite Hcl, Hs.
Defined.

(** Ports 80 and 65616 are both bound as 80; with the port taken the
    thread stops before listening. *)
Lemma thread_binds_low_16_bits_witness :
  bound_ports (snd (socketserver_thread (mk_targs 3 65616)
                                        (mk_startup 5 0 0) [])) = [80] ∧
  sent_fds (snd (socketserver_thread (mk_targs 3 80) (mk_startup 5 (-1) 0)
                                     [mk_accept 7 0 1])) = [].
Proof.
  destruct (thread_binds_low_16_bits (mk_targs 3 65616) (mk_startup 5 0 0) [])
    as (Hb & _ & _).
  destruct (thread_binds_low_16_bits (mk_targs 3 80) (mk_startup 5 (-1) 0)
              [mk_accept 7 0 1]) as (_ & _ & Hfail).
  split; [exact Hb|]. apply Hfail. simpl. lia.
Defined.
End ThreadTraceOnLinux.

(** ** Commands that fail *)

Section FailingCommands.
Context `{Host}.

Lemma client_locked_error ip tid p cb w :
  rc (snd (client_locked ip tid p cb w)) = TCL_ERROR →
  client_locked ip tid p cb w =
    (w, cmd_error "Could not find socketserver structure for port").
Proof.
  intros Hrc.
  destruct (search_port (ports (registry w))
              (default_port (ports (registry w)) p) 0) as [i|] eqn:Hs.
  - pose proof Hs as Hs'.
    apply search_port_some in Hs' as (j & e & Hij & Hj & _).
    simpl in Hij. subst j.
    by rewrite (client_locked_found ip tid p cb w i e Hs Hj) in Hrc.
  - by apply client_locked_missing.
Qed.

(** X4. For a command whose option word is [client] or [server], the
    two words the lookup of the option finds inside its table: when it
    returns [TCL_ERROR] it leaves the process as it was, with one
    exception, a [server] command that got as far as [socketpair] or
    [pthread_create] and saw it fail.  After the option word the checks
    come in this order: the magic number, the number of words, the port
    word. *)
Theorem failing_command_changes_nothing (ip tid : Z) (objv : list Tcl_Obj)
    (os : os_outcome) (w : world) (opt : options) :
  objv !! 1%nat ≫= Tcl_GetIndexFromObj = Some opt →
  let r := socketserverObjCmd ip tid objv os w in
  (rc (snd r) = TCL_ERROR →
   fst r = w ∨
   (is_server_cmd (LCmd ip tid objv os) = true ∧
    snd r = cmd_error "Failed to create thread to read socketpipe" ∧
    (socketpair_ret os = None ∨ pthread_create_ret os ≠ 0))) ∧
  (object_magic (registry w) ≠ SOCKETSERVER_OBJECT_MAGIC →
   r = (w, cmd_error "Incorrect magic value on internal state")) ∧
  (object_magic (registry w) = SOCKETSERVER_OBJECT_MAGIC →
   opt = OPT_SERVER →
   length objv ≠ 3%nat →
   r = (w, cmd_error usage)) ∧
  (object_magic (registry w) = SOCKETSERVER_OBJECT_MAGIC →
   opt = OPT_CLIENT →
   length objv ≠ 3%nat → length objv ≠ 5%nat →
   r = (w, cmd_error usage)) ∧
  (object_magic (registry w) = SOCKETSERVER_OBJECT_MAGIC →
   (∃ o, last objv = Some o ∧ length objv = 3%nat ∧
         opt = OPT_SERVER ∧ Tcl_GetIntFromObj o = None) ∨
   (∃ o, objv !! 3%nat = Some o ∧ length objv = 5%nat ∧
         opt = OPT_CLIENT ∧ Tcl_GetIntFromObj o = None) →
   r = (w, cmd_error "problem getting port number as integer")).
Proof.
  intros Hopt r. subst r. split_and!.
  - intros Hrc.
    destruct (cmd_cases ip tid objv os w)
      as [(res & -> & _)|[(o0 & o1 & o2 & p & -> & Ho1 & Ho2 & Hcmd)|
                          (p & cb & _ & _ & Hcmd)]].
    + by left.
    + rewrite Hcmd in *.
      pose proof (server_locked_result p os w) as Hres. simpl in Hres.
      destruct Hres as [[Hok _]|[[Hok _]|(Herr & _ & Hos)]].
      * by rewrite Hok in Hrc.
      * by rewrite Hok in Hrc.
      * right. split_and!; [|done|done]. simpl. by rewrite Ho1, Ho2.
    + rewrite Hcmd in *. left.
      by rewrite (client_locked_error ip tid p cb w Hrc).
  - intros Hm. unfold socketserverObjCmd. rewrite Hopt.
    by destruct (Z.eqb_spec (object_magic (registry w))
                            SOCKETSERVER_OBJECT_MAGIC).
  - intros Hm -> Hlen. unfold socketserverObjCmd.
    rewrite Hopt, Hm, Z.eqb_refl. simpl.
    by destruct objv as [|o0 [|o1 [|o2 [|o3 rest]]]].
  - intros Hm -> Hlen3 Hlen5. unfold socketserverObjCmd.
    rewrite Hopt, Hm, Z.eqb_refl. simpl. unfold client_args.
    by destruct objv as [|o0 [|o1 [|o2 [|o3 [|o4 [|o5 rest]]]]]].
  - intros Hm [(o & Hlast & Hlen & -> & Hint)|
                 (o & Ho & Hlen & -> & Hint)];
      unfold socketserverObjCmd; rewrite Hopt, Hm, Z.eqb_refl; simpl.
    + destruct objv as [|o0 [|o1 [|o2 [|o3 rest]]]]; try done.
      simpl in Hlast. simplify_eq. by rewrite Hint.
    + unfold client_args.
      destruct objv as [|o0 [|o1 [|o2 [|o3 [|o4 [|o5 rest]]]]]]; try done.
      simpl in Ho. simplify_eq. by rewrite Hint.
Qed.
End FailingCommands.

Section FailingCommandsOnLinux.
Local Existing Instance linux_host.

(** With port 9001 served: a [server] without its port, a [client] with
    a port that is no integer, and a [server] for a new port when
    [socketpair] fails, the one failure that leaves a trace. *)
Lemma failing_command_changes_nothing_witness :
  let w := run initial_world
               [LCmd 1 7 (server_words "9001" 9001) (mk_os (Some (3, 4)) 0)] in
  socketserverObjCmd 1 7 [word "socket"; word "server"] (mk_os None 0) w =
    (w, cmd_error usage) ∧
  socketserverObjCmd 1 7 [word "socket"; word "client"; word "-port";
                          word "http"; word "cb"] (mk_os None 0) w =
    (w, cmd_error "problem getting port number as integer") ∧
  snd (socketserverObjCmd 1 7 (server_words "9002" 9002) (mk_os None 0) w) =
    cmd_error "Failed to create thread to read socketpipe".
Proof.
  intros w. split_and!.
  - destruct (failing_command_changes_nothing 1 7
                [word "socket"; word "server"] (mk_os None 0) w OPT_SERVER)
      as (_ & _ & Hwords & _); [reflexivity|].
    by apply Hwords.
  - destruct (failing_command_changes_nothing 1 7
                [word "socket"; word "client"; word "-port"; word "http";
                 word "cb"] (mk_os None 0) w OPT_CLIENT)
      as (_ & _ & _ & _ & Hport); [reflexivity|].
    apply Hport; [done|]. right. exists (word "http"). by split_and!.
  - destruct (failing_command_changes_nothing 1 7
                (server_words "9002" 9002) (mk_os None 0) w OPT_SERVER)
      as (Herr & _); [reflexivity|].
    destruct (Herr eq_refl) as [Hsame|(_ & Hmsg & _)]; [|exact Hmsg].
    exfalso. apply (f_equal (λ x, length (ports (registry x)))) in Hsame.
    vm_compute in Hsame. discriminate.
Defined.
End FailingCommandsOnLinux.

(** ** The registry: create then find, and no port twice *)

Section RegistryMore.
Context `{Host}.

Lemma search_port_app_some ps e q k i :
  search_port ps q k = Some i → search_port (ps ++ [e]) q k = Some i.
Proof.
  revert k. induction ps as [|a ps IH]; intros k Hs; simpl in *; [done|].
  destruct (port (targs a) =? q); [done|]. by apply IH.
Qed.

Lemma search_port_app_none ps e q k :
  search_port ps q k = None → port (targs e) ≠ q →
  search_port (ps ++ [e]) q k = None.
Proof.
  revert k. induction ps as [|a ps IH]; intros k Hs He; simpl in *.
  - by destruct (Z.eqb_spec (port (targs e)) q).
  - destruct (port (targs a) =? q); [done|]. by apply IH.
Qed.

(** X5. The lookup with [allocate] set always returns an entry, in the
    registry it leaves, whose port is the resolved port; looking the same
    port up again, creating or not, returns that same entry and changes
    nothing; the entries that were there keep their places and contents;
    and the lookup of any other explicit port answers as before. *)
Theorem getPort_create_then_find (cd : socketserver_objectClientData)
    (p : Z) :
  let cd1 := fst (socketserver_getPort cd p 1) in
  let rp := default_port (ports cd) p in
  ∃ i e,
    snd (socketserver_getPort cd p 1) = Some i ∧
    ports cd1 !! i = Some e ∧
    port (targs e) = rp ∧
    (∀ a, socketserver_getPort cd1 p a = (cd1, Some i)) ∧
    (∀ j e', ports cd !! j = Some e' → ports cd1 !! j = Some e') ∧
    (∀ q, q ≠ 0 → q ≠ rp →
          socketserver_getPort cd1 q 0 =
            (cd1, snd (socketserver_getPort cd q 0))).
Proof.
  intros cd1 rp. subst cd1.
  destruct (search_port (ports cd) rp 0) as [i|] eqn:Hs.
  - assert (socketserver_getPort cd p 1 = (cd, Some i)) as Hg.
    { unfold socketserver_getPort. fold rp. by rewrite Hs. }
    rewrite Hg. simpl.
    pose proof Hs as Hs'.
    apply search_port_some in Hs' as (j & e & Hij & Hj & Hp).
    simpl in Hij. subst j. exists i, e.
    split_and!; [done | done | done | | done |].
    + intros a. unfold socketserver_getPort. fold rp. by rewrite Hs.
    + intros q Hq0 Hq. unfold socketserver_getPort.
      by destruct (search_port (ports cd) (default_port (ports cd) q) 0).
  - assert (socketserver_getPort cd p 1 =
              (mk_cd (object_magic cd) (ports cd ++ [new_port rp]),
               Some (length (ports cd)))) as Hg.
    { unfold socketserver_getPort. fold rp. rewrite Hs. simpl.
      by rewrite link_last_app. }
    rewrite Hg. simpl.
    pose proof (search_port_none_inv _ _ _ Hs) as Hno.
    exists (length (ports cd)), (new_port rp).
    split_and!; [done | | done | | |].
    + rewrite lookup_app_r by done. by rewrite Nat.sub_diag.
    + intros a. unfold socketserver_getPort. simpl.
      rewrite (default_port_appended (ports cd) p (new_port rp)) by done.
      fold rp.
      by rewrite (search_port_appended (ports cd) rp (new_port rp) 0 Hno).
    + intros j e' Hj. by apply lookup_app_l_Some.
    + intros q Hq0 Hq. unfold socketserver_getPort. simpl.
      assert (∀ ps, default_port ps q = q) as Hdq.
      { intros ps. unfold default_port. by destruct (Z.eqb_spec q 0). }
      rewrite !Hdq.
      destruct (search_port (ports cd) q 0) as [k|] eqn:Hsq.
      * by rewrite (search_port_app_some _ _ _ _ _ Hsq).
      * by rewrite (search_port_app_none _ (new_port rp) _ _ Hsq).
Qed.

(** A [server] command that makes the registry longer names a port no
    entry had. *)
Lemma server_locked_grows p os w :
  length (ports (registry (fst (server_locked p os w)))) ≠
    length (ports (registry w)) →
  p ∉ keys w.
Proof.
  intros Hlen.
  destruct (search_port (ports (registry w))
              (default_port (ports (registry w)) p) 0) as [i|] eqn:Hs.
  - exfalso. apply Hlen.
    unfold server_locked, socketserver_getPort. rewrite Hs.
    apply search_port_some in Hs as (j & e & Hij & Hj & _).
    simpl in Hij. subst j. unfold entry_at. simpl. rewrite Hj. simpl.
    destruct (in_ (targs e) =? -1); [|done].
    destruct (socketpair_ret os) as [[s0 s1]|]; [|done].
    destruct (pthread_create_ret os =? 0); simpl; apply length_insert.
  - assert (default_port (ports (registry w)) p = p) as Hrp.
    { unfold default_port in *.
      destruct (Z.eqb_spec p 0) as [->|]; [|done].
      destruct (ports (registry w)) as [|a ps']; [done|].
      simpl in Hs. by rewrite Z.eqb_refl in Hs. }
    rewrite Hrp in Hs. apply not_in_keys.
    by eapply search_port_none_inv.
Qed.

Lemma step_keys_distinct w l : NoDup (keys w) → NoDup (keys (step w l)).
Proof.
  intros Hnd.
  destruct (step_keys w l) as [->|(p & Hp & Hk)]; [done|].
  rewrite Hk. apply NoDup_app. split_and!; [done| |apply NoDup_singleton].
  intros x Hx ->%list_elem_of_singleton.
  destruct l as [ip tid objv os| | | |]; try done.
  destruct (cmd_cases ip tid objv os w)
    as [(res & Hcmd & _)|[(o0 & o1 & o2 & q & -> & Ho1 & Ho2 & Hcmd)|
                          (q & cb & Hcl & _ & _)]].
  - simpl in Hk. rewrite Hcmd in Hk. simpl in Hk.
    apply (f_equal length) in Hk. rewrite length_app in Hk. simpl in Hk. lia.
  - simpl in Hp. rewrite Ho1, Ho2 in Hp. apply Z.eqb_eq in Hp as ->.
    apply (server_locked_grows p os w); [|done].
    simpl in Hk. rewrite Hcmd in Hk.
    apply (f_equal length) in Hk. unfold keys in Hk.
    rewrite length_app, !length_fmap in Hk. simpl in Hk. lia.
  - simpl in Hcl, Hp.
    destruct objv as [|o0 [|o1 [|o2 [|o3 rest]]]]; try done.
    simpl in Hcl. destruct (Tcl_GetIndexFromObj o1) as [[|]|]; done.
Qed.

Lemma run_keys_distinct w ls : NoDup (keys w) → NoDup (keys (run w ls)).
Proof.
  revert w. induction ls as [|l ls IH]; intros w Hw; [done|].
  rewrite run_cons. apply IH. by apply step_keys_distinct.
Qed.

(** X6. In every state the process can reach no two entries of the
    registry have the same port: a port is given an entry once, whatever
    commands are run and however they end. *)
Theorem registry_ports_distinct (history : list label) :
  let w := run initial_world history in
  NoDup (keys w) ∧
  (∀ i j e e',
     ports (registry w) !! i = Some e →
     ports (registry w) !! j = Some e' →
     port (targs e) = port (targs e') → i = j).
Proof.
  intros w.
  assert (NoDup (keys w)) as Hnd.
  { unfold w. apply run_keys_distinct. apply NoDup_nil_2. }
  split; [done|]. intros i j e e' Hi Hj Hp.
  apply (NoDup_lookup (keys w) i j (port (targs e))); [done| |].
  - unfold keys. by rewrite list_lookup_fmap, Hi.
  - unfold keys. by rewrite list_lookup_fmap, Hj, Hp.
Qed.
End RegistryMore.

(** ** [server] when a system call fails *)

Section ServerFailures.
Context `{Host}.

Lemma lookup_appended_port ps p e :
  (∀ a, a ∈ ps → port (targs a) ≠ default_port ps p) →
  port (targs e) = default_port ps p →
  search_port (ps ++ [e]) (default_port (ps ++ [e]) p) 0 =
    Some (length ps) ∧
  (ps ++ [e]) !! length ps = Some e.
Proof.
  intros Hno He. split.
  - rewrite (default_port_appended ps p e He).
    by rewrite (search_port_appended ps _ e 0 Hno He).
  - rewrite lookup_app_r by done. by rewrite Nat.sub_diag.
Qed.

(** X7. When [socketpair] fails, the [server] command returns
    [TCL_ERROR] but the entry it made for the port stays in the registry,
    without a socketpair ([targs.in] is -1, [out] is 0) and without a
    thread.  A later [server] for the port tries again and, the system
    calls succeeding, completes that entry and starts the thread.  A
    [client] for the port meanwhile finds the entry and is accepted: it
    returns [TCL_OK] and sets the readiness watch on descriptor 0. *)
Theorem server_socketpair_failure (ip tid : Z) (ps : string) (p pc : Z)
    (w : world) :
  object_magic (registry w) = SOCKETSERVER_OBJECT_MAGIC →
  let rp := default_port (ports (registry w)) p in
  (∀ e, e ∈ ports (registry w) → port (targs e) ≠ rp) →
  let r := socketserverObjCmd ip tid (server_words ps p) (mk_os None pc) w in
  let w1 := fst r in
  snd r = cmd_error "Failed to create thread to read socketpipe" ∧
  w1 = set_registry
         (mk_cd (object_magic (registry w))
                (ports (registry w) ++
                   [mk_port (mk_targs (-1) rp) 0 0 0 0 0 0 None 0])) w ∧
  (∀ ip' tid' ps' s0 s1,
     let r2 := socketserverObjCmd ip' tid' (server_words ps' p)
                                  (mk_os (Some (s0, s1)) 0) w1 in
     snd r2 = cmd_ok ∧
     ports (registry (fst r2)) =
       ports (registry w) ++ [mk_port (mk_targs s0 rp) s1 0 0 0 0 0 None 0] ∧
     threads (fst r2) = threads w ++ [mk_thread (mk_targs s0 rp) Starting]) ∧
  (∀ ip' tid' ps' cb os',
     let r3 := socketserverObjCmd ip' tid' (client_port_words ps' p cb)
                                  os' w1 in
     snd r3 = cmd_ok ∧
     tcl_channels (fst r3) = tcl_channels w ++ [0] ∧
     guards (fst r3) = guards w ++ [1]).
Proof.
  intros Hm rp Hfresh r w1. subst r w1. rewrite cmd_server by done.
  assert (server_locked p (mk_os None pc) w =
            (set_registry
               (mk_cd (object_magic (registry w))
                      (ports (registry w) ++ [new_port rp])) w,
             cmd_error "Failed to create thread to read socketpipe")) as ->.
  { unfold server_locked, socketserver_getPort. fold rp.
    rewrite (search_port_none _ _ 0 Hfresh). simpl.
    rewrite link_last_app. unfold entry_at. simpl.
    rewrite lookup_app_r by done. by rewrite Nat.sub_diag. }
  cbn [fst snd].
  set (w1 := set_registry _ w).
  destruct (lookup_appended_port (ports (registry w)) p (new_port rp))
    as [Hs Hi]; [done | done |].
  split_and!; [done | done | |].
  - intros ip' tid' ps' s0 s1. cbn zeta.
    rewrite cmd_server by done.
    unfold server_locked, socketserver_getPort.
    change (ports (registry w1))
      with (ports (registry w) ++ [new_port rp]).
    rewrite Hs. unfold entry_at. simpl. rewrite Hi. simpl.
    rewrite insert_app_r_alt by done. rewrite Nat.sub_diag. done.
  - intros ip' tid' ps' cb os'. cbn zeta.
    rewrite cmd_client_port by done.
    rewrite (client_locked_found ip' tid' p cb w1 (length (ports (registry w)))
               (new_port rp) Hs Hi).
    simpl. split_and!; [done | done |].
    unfold guards. simpl. rewrite insert_app_r_alt by done.
    rewrite Nat.sub_diag. simpl. by rewrite fmap_app.
Qed.

End ServerFailures.

Section ServerFailuresOnLinux.
Local Existing Instance linux_host.

(** [server 9001] with no descriptors left for a socketpair, then
    [client -port 9001 cb], and [server 9001] again with descriptors 3
    and 4. *)
Lemma server_socketpair_failure_witness :
  let w1 := fst (socketserverObjCmd 1 7 (server_words "9001" 9001)
                                    (mk_os None 0) initial_world) in
  ports (registry w1) = [mk_port (mk_targs (-1) 9001) 0 0 0 0 0 0 None 0] ∧
  snd (socketserverObjCmd 1 7 (client_port_words "9001" 9001 "cb")
                          (mk_os None 0) w1) = cmd_ok ∧
  threads (fst (socketserverObjCmd 1 7 (server_words "9001" 9001)
                                   (mk_os (Some (3, 4)) 0) w1)) =
    [mk_thread (mk_targs 3 9001) Starting].
Proof.
  intros w1.
  destruct (server_socketpair_failure 1 7 "9001" 9001 0 initial_world)
    as (_ & Hw1 & Hretry & Hclient); [done | |].
  { intros e He. by apply elem_of_nil in He. }
  split_and!.
  - unfold w1. by rewrite Hw1.
  - apply (Hclient 1 7 "9001" "cb" (mk_os None 0)).
  - apply (Hretry 1 7 "9001" 3 4).
Defined.

End ServerFailuresOnLinux.

(** ** A descriptor Tcl cannot name *)

Section Unnamed.
Context `{Host}.

(** X9. When Tcl gives no name (or an empty one) to the channel made
    from a received descriptor, the handler returns [TCL_ERROR] without
    evaluating the callback: the descriptor has left the socketpair and
    is handed to nobody, the guard is down, and the descriptors behind it
    wait for the next [client] registration, the handler being a no-op
    until then. *)
Theorem drain_unnamed_channel (i : nat) (w : world)
    (e : socketserver_port) (fd : Z) (q : list Z) (eval_rc : Z) :
  ports (registry w) !! i = Some e →
  active e ≠ 0 →
  inflight w !! out e = Some (fd :: q) →
  fd ≠ -1 →
  handle_of fd = "" →
  let w1 := fst (drain i w) in
  snd (drain i w) = NoChannelName fd ∧
  drain_rc (snd (drain i w)) eval_rc = TCL_ERROR ∧
  evals w1 = evals w ∧
  inflight w1 !! out e = Some q ∧
  guards w1 !! i = Some 0 ∧
  drain i w1 = (w1, Ignored).
Proof.
  intros Hi Ha Hq Hfd Hname.
  assert (drain i w =
            (set_entry i (set_active 0 e)
                       (set_inflight (<[out e := q]> (inflight w)) w),
             NoChannelName fd)) as Hd.
  { unfold drain. rewrite Hi. unfold os_recvmsg. rewrite Hq.
    unfold socketserver_EventProc.
    destruct (Z.eqb_spec (active e) 0); [done|].
    rewrite recv_fd_header.
    destruct (Z.eqb_spec fd (-1)); [done|].
    unfold handle_of in Hname.
    destruct (Tcl_GetChannelName fd) as [[|c name]|]; done. }
  rewrite Hd. cbn [fst snd].
  assert (guards (set_entry i (set_active 0 e)
                    (set_inflight (<[out e := q]> (inflight w)) w)) !! i =
          Some 0) as Hg.
  { rewrite guards_insert. apply list_lookup_insert_eq.
    unfold guards. rewrite length_fmap. by eapply lookup_lt_Some. }
  split_and!; [done | done | done | apply lookup_insert_eq | done |].
  by apply drain_guard_down.
Qed.
End Unnamed.

Section UnnamedOnNamelessHost.
Local Existing Instance nameless_host.

(** Connections 10 and 11 accepted and the consumer registered, on a
    host that names no channel: 10 is consumed without a callback and 11
    stays in flight. *)
Lemma drain_unnamed_channel_witness :
  let w := run initial_world
               (serve 1 7 "9001" 9001 3 4 5 ++ accept_all 0 [10; 11] ++
                [LCmd 1 7 (client_port_words "9001" 9001 "cb")
                      (mk_os None 0)]) in
  snd (drain 0 w) = NoChannelName 10 ∧
  evals (fst (drain 0 w)) = [] ∧
  inflight (fst (drain 0 w)) !! 4 = Some [11] ∧
  drain 0 (fst (drain 0 w)) = (fst (drain 0 w), Ignored).
Proof.
  intros w.
  set (e := mk_port (mk_targs 3 9001) 4 1 0 1 1 7 (Some "cb") 82).
  assert (ports (registry w) !! 0%nat = Some e) as Hi by reflexivity.
  assert (active e ≠ 0) as Ha by (vm_compute; discriminate).
  assert (inflight w !! out e = Some [10; 11]) as Hq by reflexivity.
  destruct (drain_unnamed_channel 0 w e 10 [11] 0 Hi Ha Hq)
    as (Hres & _ & Hev & Hin & _ & Hnoop); [lia | reflexivity |].
  split_and!; [exact Hres | exact Hev | exact Hin | exact Hnoop].
Defined.
End UnnamedOnNamelessHost.

(** ** What every reachable registry satisfies *)

Section Reachable.
Context `{Host}.

(** The registry after [server], entry by entry. *)
Lemma server_locked_entries p os w :
  let ps := ports (registry w) in
  let ps' := ports (registry (fst (server_locked p os w))) in
  ps' = ps ∨
  (∃ i e s0 s1,
     ps !! i = Some e ∧
     ps' = <[i := set_out s1 (set_targs (mk_targs s0 (port (targs e))) e)]>
             ps) ∨
  (∃ rp, ps' = ps ++ [new_port rp]) ∨
  (∃ rp s0 s1,
     ps' = ps ++ [set_out s1 (set_targs (mk_targs s0 (port (targs (new_port rp))))
                                        (new_port rp))]).
Proof.
  intros ps ps'. subst ps'. unfold server_locked, socketserver_getPort.
  fold ps. set (rp := default_port ps p).
  destruct (search_port ps rp 0) as [i|] eqn:Hs.
  - apply search_port_some in Hs as (j & e & Hij & Hj & _).
    simpl in Hij. subst j. unfold entry_at. simpl. fold ps. rewrite Hj.
    simpl.
    destruct (in_ (targs e) =? -1); [|by left].
    destruct (socketpair_ret os) as [[s0 s1]|]; [|by left].
    right; left. exists i, e, s0, s1.
    by destruct (pthread_create_ret os =? 0).
  - simpl. rewrite link_last_app. unfold entry_at. simpl. fold ps.
    rewrite lookup_app_r by done. rewrite Nat.sub_diag. simpl.
    destruct (socketpair_ret os) as [[s0 s1]|]; simpl.
    + right; right; right. exists rp, s0, s1.
      destruct (pthread_create_ret os =? 0); simpl; fold ps;
        rewrite insert_app_r_alt by done; by rewrite Nat.sub_diag.
    + right; right; left. by exists rp.
Qed.

(** A property of entries that the four ways of writing an entry keep
    is kept by every step. *)
Lemma step_entries (P : socketserver_port → Prop) w l :
  (∀ rp, P (new_port rp)) →
  (∀ e s0 s1,
     P e → P (set_out s1 (set_targs (mk_targs s0 (port (targs e))) e))) →
  (∀ e ip tid cb hc ch,
     P e → P (mk_port (targs e) (out e) 1 hc ch ip tid (Some cb)
                      (Z.of_nat (String.length cb) + 80))) →
  (∀ e a, P e → active e ≠ 0 → a = 0 ∨ a = 1 → P (set_active a e)) →
  Forall P (ports (registry w)) →
  Forall P (ports (registry (step w l))).
Proof.
  intros Hnew Hsock Hcons Hact Hall.
  destruct l as [ip tid objv os|t o|t cs err ok|h|k]; simpl.
  - destruct (cmd_cases ip tid objv os w)
      as [(res & -> & _)|[(o0 & o1 & o2 & p & -> & _ & _ & ->)|
                          (p & cb & _ & _ & ->)]].
    + done.
    + destruct (server_locked_entries p os w)
        as [->|[(i & e & s0 & s1 & Hi & ->)|[(rp & ->)|(rp & s0 & s1 & ->)]]].
      * done.
      * apply Forall_insert; [done|]. apply Hsock.
        by apply (Forall_lookup_1 _ _ _ _ Hall Hi).
      * apply Forall_app. split; [done|]. by constructor.
      * apply Forall_app. split; [done|]. constructor; [|done].
        by apply Hsock.
    + destruct (client_locked_entries ip tid p cb w)
        as [->|(i & e & hc & ch & Hi & -> & _)]; [done|].
      apply Forall_insert; [done|]. apply Hcons.
      by apply (Forall_lookup_1 _ _ _ _ Hall Hi).
  - by destruct (start_turn_frame t o w) as (-> & _).
  - by destruct (accept_turn_frame t cs err ok w) as (-> & _).
  - destruct (handlers w !! h) as [[c i]|]; [|done].
    by destruct (socketserver_readable_frame i w) as (-> & _).
  - destruct (events w !! k) as [[tid i]|]; [|done].
    set (w0 := set_events (delete k (events w)) w).
    destruct (drain_cases i w0) as [[-> _]|(e & Hi & Ha & Hd)]; [done|].
    pose proof (os_recvmsg_frame (out e) w0) as (Hr & _).
    simpl in Hd.
    assert (P e) as He by (by apply (Forall_lookup_1 _ _ _ _ Hall Hi)).
    destruct Hd as [[_ ->]|[[_ ->]|[_ (s & ->)]]]; simpl; rewrite Hr; simpl;
      (apply Forall_insert; [done|]; apply Hact; [done | done | by auto]).
Qed.

Lemma entry_ok_steps w l :
  Forall entry_ok (ports (registry w)) →
  Forall entry_ok (ports (registry (step w l))).
Proof.
  apply step_entries; unfold entry_ok; simpl.
  - intros rp. split_and!; [by left | done | done].
  - intros e s0 s1 He. exact He.
  - intros e ip tid cb hc ch _. split_and!; [by right | by eexists |].
    by intros cb' [= <-].
  - intros e a (_ & Hcb & Hlen) Ha Ha01. split_and!; [done | | done].
    intros _. by apply Hcb.
Qed.

Lemma step_length w l :
  (length (ports (registry w)) ≤ length (ports (registry (step w l))))%nat.
Proof.
  destruct (step_ports w l)
    as [_ [[-> _]|[(p & e' & _ & -> & _)|
                   [(i & e & e' & _ & -> & _)|
                    (k & tid & i & e & _ & _ & _ & _ & -> & _)]]]].
  - done.
  - rewrite length_app. lia.
  - by rewrite length_insert.
  - by rewrite length_insert.
Qed.

(** Events and handlers keep pointing into the registry. *)
Lemma step_pointers w l :
  let inside (w : world) (x : Z * nat) :=
    (x.2 < length (ports (registry w)))%nat in
  Forall (inside w) (events w) → Forall (inside w) (handlers w) →
  Forall (inside (step w l)) (events (step w l)) ∧
  Forall (inside (step w l)) (handlers (step w l)).
Proof.
  intros inside Hev Hh.
  pose proof (step_length w l) as Hlen.
  assert (∀ xs, Forall (inside w) xs → Forall (inside (step w l)) xs) as Hmono.
  { intros xs Hxs. eapply Forall_impl; [exact Hxs|].
    unfold inside. intros x Hx. lia. }
  destruct l as [ip tid objv os|t o|t cs err ok|h|k]; simpl in *.
  - destruct (cmd_cases ip tid objv os w)
      as [(res & Hcmd & _)|[(o0 & o1 & o2 & p & -> & _ & _ & Hcmd)|
                            (p & cb & _ & _ & Hcmd)]];
      rewrite Hcmd in *.
    + by split.
    + destruct (server_locked_ports p os w) as [(_ & _ & -> & -> & _) _].
      split; by apply Hmono.
    + destruct (client_locked_entries ip tid p cb w)
        as [->|(i & e & hc & ch & Hi & Hp & -> & Hh')]; [by split|].
      assert (inside (fst (client_locked ip tid p cb w)) (tid, i)) as Hin.
      { unfold inside. simpl. rewrite Hp, length_insert.
        by eapply lookup_lt_Some. }
      split.
      * apply Forall_app. split; [by apply Hmono | by constructor].
      * destruct Hh' as [->|[c ->]]; [by apply Hmono|].
        apply Forall_app. split; [by apply Hmono | by constructor].
  - destruct (start_turn_frame t o w) as (_ & -> & -> & _).
    split; by apply Hmono.
  - destruct (accept_turn_frame t cs err ok w) as (_ & -> & -> & _).
    split; by apply Hmono.
  - destruct (handlers w !! h) as [[c i]|] eqn:Hhi; [|by split].
    unfold socketserver_readable in *.
    destruct (ports (registry w) !! i) as [e|] eqn:Hi; [|by split].
    simpl in *. split; [|done].
    apply Forall_app. split; [done|]. constructor; [|done].
    unfold inside. simpl. by eapply lookup_lt_Some.
  - destruct (events w !! k) as [[tid i]|] eqn:Hk; [|by split].
    set (w0 := set_events (delete k (events w)) w) in *.
    destruct (drain_frame i w0) as (Hh0 & _).
    rewrite Hh0, drain_events. simpl. split; [|by apply Hmono].
    apply Hmono. by apply Forall_delete.
Qed.

(** The three invariants are kept along every run. *)
Lemma run_entries_ok (w0 : world) (ls : list label) :
  Forall entry_ok (ports (registry w0)) →
  Forall (λ x : Z * nat, (x.2 < length (ports (registry w0)))%nat)
         (events w0) →
  Forall (λ x : Z * nat, (x.2 < length (ports (registry w0)))%nat)
         (handlers w0) →
  Forall entry_ok (ports (registry (run w0 ls))) ∧
  Forall (λ x : Z * nat, (x.2 < length (ports (registry (run w0 ls))))%nat)
         (events (run w0 ls)) ∧
  Forall (λ x : Z * nat, (x.2 < length (ports (registry (run w0 ls))))%nat)
         (handlers (run w0 ls)).
Proof.
  revert w0. induction ls as [|l ls IH]; intros w0 Hok Hev Hh; [done|].
  rewrite run_cons.
  destruct (step_pointers w0 l Hev Hh) as [Hev' Hh'].
  apply IH; [by apply entry_ok_steps | done | done].
Qed.

(** From the initial state every entry is well formed. *)
Lemma reachable_entries (history : list label) :
  Forall entry_ok (ports (registry (run initial_world history))).
Proof.
  destruct (run_entries_ok initial_world history) as (Hok & _);
    [constructor | constructor | constructor | done].
Qed.

(** X10. In every state the process can reach: each guard is 0 or 1;
    an entry whose guard is up has its callback recorded, so the handler
    never builds a script from a missing callback; the recorded script
    length is the length of the callback plus 80; and every queued event
    and every installed channel handler points to an entry of the
    registry, so the handler always finds its entry. *)
Theorem reachable_entries_ok (history : list label) :
  let w := run initial_world history in
  Forall entry_ok (ports (registry w)) ∧
  Forall (λ x : Z * nat, is_Some (ports (registry w) !! x.2)) (events w) ∧
  Forall (λ x : Z * nat, is_Some (ports (registry w) !! x.2)) (handlers w).
Proof.
  intros w.
  destruct (run_entries_ok initial_world history) as (Hok & Hev & Hh);
    [constructor | constructor | constructor |].
  fold w in Hok, Hev, Hh. split_and!; [done | |].
  - eapply Forall_impl; [exact Hev|]. intros x Hx.
    by apply lookup_lt_is_Some.
  - eapply Forall_impl; [exact Hh|]. intros x Hx.
    by apply lookup_lt_is_Some.
Qed.
End Reachable.

(** ** The script buffer *)

Section ScriptBuffer.
Context `{Host}.

Lemma string_length_app (s1 s2 : string) :
  String.length (s1 +:+ s2) = (String.length s1 + String.length s2)%nat.
Proof. induction s1 as [|c s1 IH]; simpl; [done | by rewrite IH]. Qed.

(** What a drain that evaluated a script evaluated. *)
Lemma drain_evaluated i w fd script :
  snd (drain i w) = Evaluated fd script →
  ∃ e, ports (registry w) !! i = Some e ∧ active e ≠ 0 ∧
       handle_of fd ≠ "" ∧
       script = callback_script e (handle_of fd).
Proof.
  unfold drain.
  destruct (ports (registry w) !! i) as [e|] eqn:Hi; [|done].
  destruct (os_recvmsg (out e) w) as [r w1].
  unfold socketserver_EventProc.
  destruct (Z.eqb_spec (active e) 0) as [Ha|Ha]; [done|].
  destruct (recv_fd r =? -1); [done|].
  unfold handle_of.
  destruct (Tcl_GetChannelName (recv_fd r)) as [[|c name]|] eqn:Hn;
    simpl; try done.
  intros [= <- <-]. rewrite Hn. by exists e.
Qed.

(** X11. The script a drain evaluates is the callback of the entry, a
    space and the channel name; [ckalloc (scriptLen)] having room for the
    callback and 80 bytes more, the script with its terminating NUL fits
    the buffer exactly when the channel name has at most 78 characters. *)
Theorem callback_script_fits (history : list label) (i : nat) (fd : Z)
    (script : string) :
  let w := run initial_world history in
  snd (drain i w) = Evaluated fd script →
  ∃ e cb,
    ports (registry w) !! i = Some e ∧
    callback e = Some cb ∧
    script = cb +:+ " " +:+ handle_of fd ∧
    (Z.of_nat (String.length script) + 1 ≤ scriptLen e ↔
     (String.length (handle_of fd) ≤ 78)%nat).
Proof.
  intros w Hd.
  destruct (drain_evaluated i w fd script Hd) as (e & Hi & Ha & _ & ->).
  pose proof (reachable_entries history) as Hok.
  fold w in Hok.
  destruct (Forall_lookup_1 _ _ _ _ Hok Hi) as (_ & Hcb & Hlen).
  destruct (Hcb Ha) as [cb Hcb'].
  exists e, cb. unfold callback_script. rewrite Hcb'.
  change (default "" (Some cb)) with cb.
  split_and!; [done | done | done |].
  assert (String.length (cb +:+ " " +:+ handle_of fd) =
          (String.length cb + S (String.length (handle_of fd)))%nat) as ->.
  { by rewrite string_length_app. }
  rewrite (Hlen cb Hcb'). lia.
Qed.
End ScriptBuffer.

Section ScriptBufferOnLinux.
Local Existing Instance linux_host.

(** Connection 10 delivered to callback [cb]: a script of 9 characters
    in a buffer of 82. *)
Lemma callback_script_fits_witness :
  let w := run initial_world
               (serve 1 7 "9001" 9001 3 4 5 ++ accept_all 0 [10] ++
                [LCmd 1 7 (client_port_words "9001" 9001 "cb")
                      (mk_os None 0)]) in
  ∃ e cb,
    ports (registry w) !! 0%nat = Some e ∧
    callback e = Some cb ∧
    "cb file10" = cb +:+ " " +:+ handle_of 10 ∧
    (Z.of_nat (String.length "cb file10") + 1 ≤ scriptLen e ↔
     (String.length (handle_of 10) ≤ 78)%nat).
Proof.
  intros w.
  apply (callback_script_fits
           (serve 1 7 "9001" 9001 3 4 5 ++ accept_all 0 [10] ++
            [LCmd 1 7 (client_port_words "9001" 9001 "cb") (mk_os None 0)])
           0 10 "cb file10").
  by vm_compute.
Defined.
End ScriptBufferOnLinux.

(** ** Nothing lost, nothing twice, nothing out of order *)

Section Conservation.
Context `{Host}.










End Conservation.

Section ConservationOnLinux.
Local Existing Instance linux_host.

End ConservationOnLinux.

(** ** Registering again before a delivery *)

Section Reregistration.
Context `{Host}.

(** A registration for the served port, whatever is queued. *)
Lemma client_piping_facts ip tid ps cb w p s0 s1 sd q :
  piping w p s0 s1 sd q →
  let w' := step w (LCmd ip tid (client_port_words ps p cb) (mk_os None 0)) in
  piping w' p s0 s1 sd q ∧
  (∃ e, ports (registry w') !! 0%nat = Some e ∧ out e = s1 ∧ active e = 1 ∧
        callback e = Some cb ∧ interp e = ip ∧ threadId e = tid) ∧
  events w' = events w ++ [(tid, 0%nat)] ∧
  evals w' = evals w.
Proof.
  intros Hpipe.
  pose proof Hpipe as (Hm & (e & He & Hta & Hout) & Hp & Hq & Hpos & Ht).
  assert (search_port (ports (registry w))
            (default_port (ports (registry w)) p) 0 = Some 0%nat) as Hs.
  { rewrite He. unfold default_port. simpl. rewrite Hta. simpl.
    destruct (p =? 0); by rewrite Z.eqb_refl. }
  assert (ports (registry w) !! 0%nat = Some e) as Hi by (by rewrite He).
  cbn zeta. cbn [step]. rewrite cmd_client_port by done.
  rewrite (client_locked_found ip tid p cb w 0 e Hs Hi).
  unfold piping.
  destruct (have_channel e =? 0); simpl; rewrite He; simpl;
    (split_and!; try done; by eexists).
Qed.

(** X13. The entry of a port is shared by all its registrations and by
    the events queued for it.  When [client] is run twice for the port
    before anything is delivered, the event queued by the first
    registration, once dispatched, evaluates the callback of the second;
    the event of the second registration is still queued and its dispatch
    does nothing: two registrations in a row deliver one connection. *)
Theorem latest_registration_wins (ip1 tid1 ip2 tid2 : Z) (ps : string)
    (cb1 cb2 : string) (w : world) (p s0 s1 sd fd : Z) (q : list Z) :
  piping w p s0 s1 sd (fd :: q) →
  events w = [] →
  handle_of fd ≠ "" →
  let ls := [LCmd ip1 tid1 (client_port_words ps p cb1) (mk_os None 0);
             LCmd ip2 tid2 (client_port_words ps p cb2) (mk_os None 0);
             LDispatch 0] in
  evals (run w ls) = evals w ++ [delivery_of 0 cb2 fd] ∧
  events (run w ls) = [(tid2, 0%nat)] ∧
  inflight (run w ls) !! s1 = Some q ∧
  evals (run w (ls ++ [LDispatch 0])) = evals (run w ls) ∧
  inflight (run w (ls ++ [LDispatch 0])) !! s1 = Some q.
Proof.
  intros Hpipe Hev Hname ls.
  pose proof Hpipe as (_ & _ & _ & _ & Hpos & _).
  apply Forall_cons in Hpos as [Hfd _].
  set (c1 := LCmd ip1 tid1 (client_port_words ps p cb1) (mk_os None 0)).
  set (c2 := LCmd ip2 tid2 (client_port_words ps p cb2) (mk_os None 0)).
  destruct (client_piping_facts ip1 tid1 ps cb1 w p s0 s1 sd _ Hpipe)
    as (Hpipe1 & _ & Hev1 & Hd1).
  fold c1 in Hpipe1, Hev1, Hd1. set (w1 := step w c1) in *.
  destruct (client_piping_facts ip2 tid2 ps cb2 w1 p s0 s1 sd _ Hpipe1)
    as (Hpipe2 & (e2 & Hi2 & Hout2 & Ha2 & Hcb2 & _) & Hev2 & Hd2).
  fold c2 in Hpipe2, Hi2, Hev2, Hd2. set (w2 := step w1 c2) in *.
  pose proof Hpipe2 as (_ & _ & _ & Hq2 & _).
  assert (run w ls = step w2 (LDispatch 0)) as Hrun by reflexivity.
  assert (events w2 = [(tid1, 0%nat); (tid2, 0%nat)]) as Hev2'.
  { by rewrite Hev2, Hev1, Hev. }
  assert (step w2 (LDispatch 0) =
            set_events [(tid2, 0%nat)] (fst (drain 0 w2))) as Hstep.
  { rewrite (step_dispatch w2 0 tid1 0) by (by rewrite Hev2').
    rewrite drain_set_events, Hev2'. done. }
  assert (drain 0 w2 =
            (set_evals
               (evals w2 ++ [mk_delivery 0 fd (callback_script e2 (handle_of fd))])
               (set_entry 0 (set_active 0 e2)
                          (set_inflight (<[out e2 := q]> (inflight w2)) w2)),
             Evaluated fd (callback_script e2 (handle_of fd)))) as Hdrain.
  { apply drain_delivers; [done | by rewrite Ha2 | by rewrite Hout2 | lia |
                           done]. }
  set (w3 := run w ls).
  assert (evals w3 = evals w ++ [delivery_of 0 cb2 fd] ∧
          events w3 = [(tid2, 0%nat)] ∧
          inflight w3 !! s1 = Some q ∧
          guards w3 !! 0%nat = Some 0) as (Hd3 & Hev3 & Hq3 & Hg3).
  { unfold w3. rewrite Hrun, Hstep, Hdrain. cbn [fst].
    unfold delivery_of, callback_script. rewrite Hcb2. simpl.
    rewrite Hd2, Hd1, Hout2. split_and!; [done | done | |].
    - apply lookup_insert_eq.
    - unfold guards. simpl. rewrite list_fmap_insert.
      apply list_lookup_insert_eq. rewrite length_fmap.
      by eapply lookup_lt_Some. }
  split_and!; [done | done | done | |].
  - rewrite run_app. fold w3.
    change (run w3 [LDispatch 0]) with (step w3 (LDispatch 0)).
    rewrite (step_dispatch w3 0 tid2 0) by (by rewrite Hev3).
    rewrite drain_set_events.
    by rewrite (drain_guard_down 0 w3 Hg3).
  - rewrite run_app. fold w3.
    change (run w3 [LDispatch 0]) with (step w3 (LDispatch 0)).
    rewrite (step_dispatch w3 0 tid2 0) by (by rewrite Hev3).
    rewrite drain_set_events.
    by rewrite (drain_guard_down 0 w3 Hg3).
Qed.
End Reregistration.

Section ReregistrationOnLinux.
Local Existing Instance linux_host.

(** Connections 10 and 11 waiting; [client] for [first], then for
    [second]; both events dispatched. *)
Lemma latest_registration_wins_witness :
  let w := run initial_world
               (serve 1 7 "9001" 9001 3 4 5 ++ accept_all 0 [10; 11]) in
  let ls := [LCmd 1 7 (client_port_words "9001" 9001 "first") (mk_os None 0);
             LCmd 2 8 (client_port_words "9001" 9001 "second")
                  (mk_os None 0);
             LDispatch 0] in
  evals (run w ls) = [mk_delivery 0 10 "second file10"] ∧
  events (run w ls) = [(8, 0%nat)] ∧
  evals (run w (ls ++ [LDispatch 0])) = evals (run w ls) ∧
  inflight (run w (ls ++ [LDispatch 0])) !! 4 = Some [11].
Proof.
  intros w ls.
  assert (piping w 9001 3 4 5 [10; 11]) as Hpipe.
  { unfold piping. split_and!; try reflexivity.
    - by eexists.
    - repeat constructor; lia. }
  destruct (latest_registration_wins 1 7 2 8 "9001" "first" "second"
              w 9001 3 4 5 10 [11] Hpipe)
    as (Hd & Hev & _ & Hd' & Hq'); [reflexivity | by vm_compute |].
  split_and!; [exact Hd | exact Hev | exact Hd' | exact Hq'].
Defined.
End ReregistrationOnLinux.

(** ** Commands without a port *)

Section DefaultPort.
Context `{Host}.

(** X14. Once a port is served, a [client] command without a port
    registers the consumer on the first entry of the registry, the port
    served first: it returns [TCL_OK], raises that entry's guard, leaves
    the other guards alone and queues one event for that entry.  And
    [server 0] then names that same first port: it never adds an entry
    for port 0. *)
Theorem default_port_is_first_served (ip tid : Z) (cb ps : string)
    (os : os_outcome) (w : world) (e : socketserver_port)
    (rest : list socketserver_port) :
  object_magic (registry w) = SOCKETSERVER_OBJECT_MAGIC →
  ports (registry w) = e :: rest →
  let r := socketserverObjCmd ip tid (client_words cb) os w in
  snd r = cmd_ok ∧
  guards (fst r) = 1 :: (active <$> rest) ∧
  keys (fst r) = keys w ∧
  events (fst r) = events w ++ [(tid, 0%nat)] ∧
  keys (fst (socketserverObjCmd ip tid (server_words ps 0) os w)) = keys w.
Proof.
  intros Hm He r. subst r.
  assert (search_port (ports (registry w))
            (default_port (ports (registry w)) 0) 0 = Some 0%nat) as Hs.
  { rewrite He. simpl. by rewrite Z.eqb_refl. }
  assert (ports (registry w) !! 0%nat = Some e) as Hi by (by rewrite He).
  rewrite cmd_client by done.
  rewrite (client_locked_found ip tid 0 cb w 0 e Hs Hi).
  split_and!.
  - done.
  - unfold guards. destruct (have_channel e =? 0); simpl; by rewrite He.
  - unfold keys. destruct (have_channel e =? 0); simpl; by rewrite He.
  - by destruct (have_channel e =? 0).
  - rewrite cmd_server by done.
    unfold server_locked, socketserver_getPort. rewrite Hs.
    unfold entry_at. simpl. rewrite Hi. simpl. unfold keys.
    destruct (in_ (targs e) =? -1); [|done].
    destruct (socketpair_ret os) as [[s0 s1]|]; [|done].
    destruct (pthread_create_ret os =? 0); simpl; by rewrite He.
Qed.
End DefaultPort.

Section DefaultPortOnLinux.
Local Existing Instance linux_host.

(** Ports 9001 and 9002 served in that order: [client cb] arms the entry
    of 9001 and [server 0] adds nothing. *)
Lemma default_port_is_first_served_witness :
  let w := run initial_world
               [LCmd 1 7 (server_words "9001" 9001) (mk_os (Some (3, 4)) 0);
                LCmd 1 7 (server_words "9002" 9002) (mk_os (Some (5, 6)) 0)] in
  guards (fst (socketserverObjCmd 1 7 (client_words "cb") (mk_os None 0) w)) =
    [1; 0] ∧
  keys (fst (socketserverObjCmd 1 7 (server_words "0" 0)
                                (mk_os (Some (8, 9)) 0) w)) = [9001; 9002].
Proof.
  intros w.
  destruct (default_port_is_first_served 1 7 "cb" "0" (mk_os None 0) w
              (mk_port (mk_targs 3 9001) 4 0 0 0 0 0 None 0)
              [mk_port (mk_targs 5 9002) 6 0 0 0 0 0 None 0])
    as (_ & Hg & _ & _ & _); [reflexivity | reflexivity |].
  destruct (default_port_is_first_served 1 7 "cb" "0" (mk_os (Some (8, 9)) 0)
              w (mk_port (mk_targs 3 9001) 4 0 0 0 0 0 None 0)
              [mk_port (mk_targs 5 9002) 6 0 0 0 0 0 None 0])
    as (_ & _ & _ & _ & Hk); [reflexivity | reflexivity |].
  split; [exact Hg | exact Hk].
Defined.
End DefaultPortOnLinux.
